(** * M3U2strm3: the reconciliation pipeline of [main.py] and the progress
    tracker of [progress_tracker.py], as a shallow embedding.

    Layout: Python text helpers ([re.search], [re.sub], [str.strip], [int]) on
    one-byte strings; the progress tracker; the data model; the pipeline
    [run_pipeline] phase by phase, with the closure [process_entry] it
    defines; the read side of the tracker and its statistics; the statistics
    a run reports; the excluded-entries report; the helpers of [config.py];
    the web tracker of [utils/web_progress_tracker.py]; then the properties.

    Conventions.
    - A Python [str] is a [string], each character a code point below 256.
    - A Python [int] is a [Z]; [len(l)] is [Z.of_nat (length l)].
    - [time.time()] readings are rationals ([Q]); the rounding of Python floats
      is not modelled.
    - The pointer cache and the existing-media index (Python dicts used as
      maps) are [gmap]s; [unique_entries], whose iteration order the code
      relies on, is an association list in insertion order.
    - The modules [core], [m3u_utils] and [strm_utils] are collaborators of
      [main.py]; what [main.py] calls from them is the interface
      [Collaborators]. *)

From Stdlib Require Import ZArith QArith String Ascii List DecimalString Sorted.
From stdpp Require Import gmap strings list fin_maps.

Local Open Scope Z_scope.
Local Open Scope string_scope.

(** ** Python text helpers *)

Module PyText.

Definition code (c : ascii) : nat := nat_of_ascii c.

(** [\d] *)
Definition is_digit (c : ascii) : bool :=
  ((48 <=? code c) && (code c <=? 57))%nat.

(** [\s] and [str.isspace] on the code points below 256: TAB, LF, VT, FF,
    CR, the separators 0x1c to 0x1f, the space, NEL (0x85) and the no-break
    space (0xa0). *)
Definition is_space (c : ascii) : bool :=
  (((9 <=? code c) && (code c <=? 13))
   || ((28 <=? code c) && (code c <=? 31))
   || (code c =? 32)
   || (code c =? 133)
   || (code c =? 160))%nat.

(** [[sS]] and [[eE]] *)
Definition is_sS (c : ascii) : bool := ((code c =? 115) || (code c =? 83))%nat.
Definition is_eE (c : ascii) : bool := ((code c =? 101) || (code c =? 69))%nat.

(** [.] matches everything but a line feed. *)
Definition is_newline (c : ascii) : bool := (code c =? 10)%nat.

Definition digit_value (c : ascii) : Z := Z.of_nat (code c) - 48.

(** [int(group)] of a run of decimal digits. *)
Definition int_of_digits (ds : list ascii) : Z :=
  fold_left (fun acc d => 10 * acc + digit_value d) ds 0.

(** [\d{1,2}], greedy, at the head of [s]: the digits taken, how many, and
    what follows.  Giving one digit back never helps the patterns below: the
    next pattern character is then a digit, which neither [\s*] nor [[eE]]
    accept. *)
Definition take_digits (s : string) : option (list ascii * nat * string) :=
  match s with
  | String a (String b r) =>
      if is_digit a
      then if is_digit b then Some ([a; b], 2%nat, r)
           else Some ([a], 1%nat, String b r)
      else None
  | String a EmptyString => if is_digit a then Some ([a], 1%nat, EmptyString) else None
  | EmptyString => None
  end.

(** [\s*], greedy: how many characters it takes and what follows. *)
Fixpoint skip_spaces (s : string) : nat * string :=
  match s with
  | String c r =>
      if is_space c then let '(n, r') := skip_spaces r in (S n, r') else (0%nat, s)
  | EmptyString => (0%nat, s)
  end.

(** The marker [[sS]\d{1,2}\s*[eE]\d{1,2}] anchored at the head of [s]:
    season, episode and the length of the match. *)
Definition match_marker (s : string) : option (Z * Z * nat) :=
  match s with
  | String c r =>
      if is_sS c then
        match take_digits r with
        | Some (d1, n1, r1) =>
            match skip_spaces r1 with
            | (n2, String e r2) =>
                if is_eE e then
                  match take_digits r2 with
                  | Some (d2, n3, _) =>
                      Some (int_of_digits d1, int_of_digits d2,
                            (1 + n1 + n2 + 1 + n3)%nat)
                  | None => None
                  end
                else None
            | (_, EmptyString) => None
            end
        | None => None
        end
      else None
  | EmptyString => None
  end.

(** [re.search(r"[sS](\d{1,2})\s*[eE](\d{1,2})", s)]: the leftmost match,
    as [(int(m.group(1)), int(m.group(2)))]. *)
Fixpoint search_marker (s : string) : option (Z * Z) :=
  match match_marker s with
  | Some (season, episode, _) => Some (season, episode)
  | None =>
      match s with
      | String _ r => search_marker r
      | EmptyString => None
      end
  end.

(** [re.sub(r"[sS]\d{1,2}\s*[eE]\d{1,2}.*", "", s)], scanning left to right.
    [skip] counts the characters of a matched marker still to drop; [dot]
    says the scan is inside the trailing [.*], which runs to the end of the
    line.  After a match the search resumes where the match ended. *)
Fixpoint sub_marker_from (skip : nat) (dot : bool) (s : string) : string :=
  match s with
  | EmptyString => EmptyString
  | String c r =>
      match skip with
      | S n => sub_marker_from n dot r
      | O =>
          if dot && negb (is_newline c) then sub_marker_from 0 true r
          else
            match match_marker s with
            | Some (_, _, len) => sub_marker_from (Nat.pred len) true r
            | None => String c (sub_marker_from 0 false r)
            end
      end
  end.

Definition sub_marker (s : string) : string := sub_marker_from 0 false s.

Fixpoint lstrip (s : string) : string :=
  match s with
  | String c r => if is_space c then lstrip r else s
  | EmptyString => EmptyString
  end.

Definition reverse_string (s : string) : string :=
  string_of_list_ascii (rev (list_ascii_of_string s)).

(** [s.strip()] *)
Definition strip (s : string) : string :=
  reverse_string (lstrip (reverse_string (lstrip s))).

(** [s[:n]] *)
Definition slice_to (n : nat) (s : string) : string := String.substring 0 n s.

(** [s.lower()] on the code points below 256: the letters A to Z, and the
    accented capitals 0xc0 to 0xde but for the multiplication sign 0xd7. *)
Definition lower_char (c : ascii) : ascii :=
  if (((65 <=? code c) && (code c <=? 90))
      || ((192 <=? code c) && (code c <=? 222) && negb (code c =? 215)))%nat
  then ascii_of_nat (code c + 32) else c.

Fixpoint lower (s : string) : string :=
  match s with
  | String c r => String (lower_char c) (lower r)
  | EmptyString => EmptyString
  end.

(** [needle in hay] *)
Fixpoint contains (needle hay : string) : bool :=
  String.prefix needle hay
  || match hay with
     | String _ r => contains needle r
     | EmptyString => false
     end.

(** [str(n)] of an integer, as f-strings format it. *)
Definition show_Z (z : Z) : string := NilZero.string_of_int (Z.to_int z).

End PyText.

(** ** The progress tracker ([progress_tracker.py]) *)

Module Tracker.

Inductive ProgressPhase :=
| SCANNING_LOCAL | PARSING_M3U | FILTERING_TMDB | CREATING_STRM | CLEANUP.

#[global] Instance ProgressPhase_eq_dec : EqDecision ProgressPhase.
Proof. solve_decision. Defined.

Record PhaseProgress := mkPhaseProgress {
  phase : ProgressPhase;
  total : Z;
  processed : Z;
  started_at : option Q;
  completed_at : option Q;
  items_per_second : Q;
  current_item : string;
  success_count : Z;
  failure_count : Z;
  skipped_count : Z
}.

(** [PhaseProgress(phase=phase, total=total_items)] with the dataclass
    defaults. *)
Definition new_progress (ph : ProgressPhase) (total_items : Z) : PhaseProgress :=
  mkPhaseProgress ph total_items 0 None None 0%Q "" 0 0 0.

(** [_phases] is a dict keyed by the five phases, [_current_phase] the phase
    started last.  Statistics, verbosity, the lock and the observers take no
    part in the phase records and are left out. *)
Record ProgressTracker := mkTracker {
  phases : ProgressPhase -> option PhaseProgress;
  current_phase : option ProgressPhase
}.

(** [ProgressTracker()] *)
Definition new_tracker : ProgressTracker := mkTracker (fun _ => None) None.

(** [self._phases[ph] = p] *)
Definition set_phase (ph : ProgressPhase) (p : PhaseProgress)
    (m : ProgressPhase -> option PhaseProgress) : ProgressPhase -> option PhaseProgress :=
  fun q => if decide (q = ph) then Some p else m q.

(** Truth value of an [Optional[float]]: [None] and [0.0] are false. *)
Definition truthy (o : option Q) : bool :=
  match o with
  | Some q => negb (Qeq_bool q 0)
  | None => false
  end.

(** The throughput block shared by [update_phase] and [batch_update_phase]:
    [[
      if progress.started_at:
          elapsed = time.time() - progress.started_at
          if elapsed > 0:
              progress.items_per_second = processed / elapsed
    ]] *)
Definition throughput (now : Q) (p : PhaseProgress) (n : Z) : Q :=
  match started_at p with
  | Some s =>
      if truthy (Some s) then
        let elapsed := (now - s)%Q in
        if Qle_bool elapsed 0 then items_per_second p
        else (inject_Z n / elapsed)%Q
      else items_per_second p
  | None => items_per_second p
  end.

Definition start_phase (now : Q) (ph : ProgressPhase) (total_items : Z)
    (t : ProgressTracker) : ProgressTracker :=
  let progress :=
    match phases t ph with
    | Some p => p
    | None => new_progress ph total_items
    end in
  let progress' :=
    mkPhaseProgress (phase progress) total_items 0 (Some now)
      (completed_at progress) (items_per_second progress) ""
      (success_count progress) (failure_count progress) (skipped_count progress) in
  mkTracker (set_phase ph progress' (phases t)) (Some ph).

Definition update_phase (now : Q) (ph : ProgressPhase) (n : Z) (item : string)
    (success skipped : bool) (t : ProgressTracker) : ProgressTracker :=
  match phases t ph with
  | None => t
  | Some p =>
      let succ := if success then success_count p + 1 else success_count p in
      let fail :=
        if success then failure_count p
        else if negb skipped then failure_count p + 1 else failure_count p in
      let skip := if skipped then skipped_count p + 1 else skipped_count p in
      let p' :=
        mkPhaseProgress (phase p) (total p) n (started_at p) (completed_at p)
          (throughput now p n) (PyText.slice_to 100 item) succ fail skip in
      mkTracker (set_phase ph p' (phases t)) (current_phase t)
  end.

Definition batch_update_phase (now : Q) (ph : ProgressPhase) (n : Z) (item : string)
    (d_success d_failure d_skipped : Z) (t : ProgressTracker) : ProgressTracker :=
  match phases t ph with
  | None => t
  | Some p =>
      let item' :=
        match item with
        | EmptyString => current_item p
        | _ => PyText.slice_to 100 item
        end in
      let p' :=
        mkPhaseProgress (phase p) (total p) n (started_at p) (completed_at p)
          (throughput now p n) item'
          (success_count p + d_success) (failure_count p + d_failure)
          (skipped_count p + d_skipped) in
      mkTracker (set_phase ph p' (phases t)) (current_phase t)
  end.

Definition complete_phase (now : Q) (ph : ProgressPhase) (t : ProgressTracker)
    : ProgressTracker :=
  match phases t ph with
  | None => t
  | Some p =>
      let p' :=
        mkPhaseProgress (phase p) (total p) (processed p) (started_at p) (Some now)
          (items_per_second p) (current_item p)
          (success_count p) (failure_count p) (skipped_count p) in
      mkTracker (set_phase ph p' (phases t)) (current_phase t)
  end.

(** The calls a client makes on the tracker, in order. *)
Inductive Call :=
| Start (ph : ProgressPhase) (total_items : Z)
| Update (ph : ProgressPhase) (n : Z) (item : string) (success skipped : bool)
| BatchUpdate (ph : ProgressPhase) (n : Z) (item : string)
    (d_success d_failure d_skipped : Z)
| Complete (ph : ProgressPhase).

Definition step (now : Q) (c : Call) (t : ProgressTracker) : ProgressTracker :=
  match c with
  | Start ph n => start_phase now ph n t
  | Update ph n item s k => update_phase now ph n item s k t
  | BatchUpdate ph n item a b c => batch_update_phase now ph n item a b c t
  | Complete ph => complete_phase now ph t
  end.

(** The phase a call is about. *)
Definition call_phase (c : Call) : ProgressPhase :=
  match c with
  | Start ph _ | Update ph _ _ _ _ | BatchUpdate ph _ _ _ _ _ | Complete ph => ph
  end.

(** The phase whose [processed] a per-item or batch update sets. *)
Definition updated_phase (c : Call) : option ProgressPhase :=
  match c with
  | Update ph _ _ _ _ | BatchUpdate ph _ _ _ _ _ => Some ph
  | Start _ _ | Complete _ => None
  end.

(** A phase is in progress when it was started and not yet completed. *)
Definition in_progress (t : ProgressTracker) (ph : ProgressPhase) : Prop :=
  exists p, phases t ph = Some p /\ is_Some (started_at p) /\ completed_at p = None.

Definition processed_of (t : ProgressTracker) (ph : ProgressPhase) : Z :=
  match phases t ph with
  | Some p => processed p
  | None => 0
  end.

(** What one call, made at time [now] in state [t], must respect: no phase
    that is in progress loses [processed], and an update is made on a phase
    that is in progress. *)
Definition call_respects (now : Q) (c : Call) (t : ProgressTracker) : Prop :=
  (forall ph, in_progress t ph -> processed_of t ph <= processed_of (step now c t) ph)
  /\ (forall ph, updated_phase c = Some ph -> in_progress t ph).

(** Running a sequence of calls from state [t], the [i]-th call of the run
    at clock reading [clock i]: every call respects the phases in progress. *)
Fixpoint processed_monotone (clock : nat -> Q) (i : nat) (t : ProgressTracker)
    (cs : list Call) : Prop :=
  match cs with
  | [] => True
  | c :: rest =>
      call_respects (clock i) c t
      /\ processed_monotone clock (S i) (step (clock i) c t) rest
  end.

(** What the claim about [update_phase] asks of the three outcome counters:
    exactly one of them grows, by exactly one. *)
Definition adds_exactly_one (p p' : PhaseProgress) : Prop :=
  (success_count p' = success_count p + 1
     /\ failure_count p' = failure_count p /\ skipped_count p' = skipped_count p)
  \/ (success_count p' = success_count p
     /\ failure_count p' = failure_count p + 1 /\ skipped_count p' = skipped_count p)
  \/ (success_count p' = success_count p
     /\ failure_count p' = failure_count p /\ skipped_count p' = skipped_count p + 1).

(** What the claim about re-entering a phase asks of the phase's record. *)
Definition counters_reset (p : PhaseProgress) : Prop :=
  processed p = 0 /\ success_count p = 0 /\ failure_count p = 0
  /\ skipped_count p = 0 /\ completed_at p = None.

End Tracker.

(** ** Data model *)

(** [m3u_utils.Category]; [main.py] names MOVIE, TVSHOW, DOCUMENTARY and
    REPLAY, every other value takes the [else] branches. *)
Inductive Category := MOVIE | TVSHOW | DOCUMENTARY | REPLAY | UNKNOWN.

#[global] Instance Category_eq_dec : EqDecision Category.
Proof. solve_decision. Defined.

(** [m3u_utils.VODEntry], with the fields [main.py] constructs it from. *)
Record VODEntry := mkEntry {
  raw_title : string;
  safe_title : string;
  url : string;
  category : Category;
  year : option Z
}.

#[global] Instance VODEntry_eq_dec : EqDecision VODEntry.
Proof. solve_decision. Defined.

(** A pointer-cache record, the dict [{"url": .., "path": .., "allowed": ..}];
    [None] is Python's [None]. *)
Record CacheRecord := mkRecord {
  c_url : string;
  c_path : option string;
  c_allowed : option Z
}.

#[global] Instance CacheRecord_eq_dec : EqDecision CacheRecord.
Proof. solve_decision. Defined.

(** One element of [file_operations]: [(rel_path, e.url, key, e)]. *)
Record FileOp := mkOp {
  op_path : string;
  op_url : string;
  op_key : string;
  op_entry : VODEntry
}.

(** What [main.py] consumes from the modules [core], [m3u_utils] and
    [strm_utils], and from the configuration.  Paths are strings. *)
Class Collaborators := {
  (** [core] *)
  canonical_movie_key : string -> string;
  canonical_tv_key : string -> Z -> Z -> string;
  make_cache_key : string -> string;
  sanitize_title : string -> string;
  (** [strm_utils]: target paths, and the batch writer that
      [test_performance.py] imports, returning [(written, skipped)] *)
  movie_strm_path : string -> VODEntry -> string;
  tv_strm_path : string -> VODEntry -> Z -> Z -> string;
  doc_strm_path : string -> VODEntry -> string;
  batch_write_strm_files : string -> list (string * string) -> Z * Z;
  (** [pathlib]: [output_dir / rel_path] and [str(p.resolve())] *)
  path_join : string -> string -> string;
  path_resolve : string -> string;
  (** [m3u_utils.split_by_market_filter]: the verdict on one entry *)
  market_allowed : VODEntry -> bool;
  (** [core.extract_year], and [strm_utils.write_strm_file output_dir rel_path
      url]: [true] when it returns, [false] when it raises *)
  extract_year : string -> option Z;
  write_strm_file : string -> string -> string -> bool;
  (** [cfg.output_dir], and the lists [cfg.ignore_keywords] holds under
      "tvshows" and "movies" (empty when the key is missing) *)
  output_dir : string;
  ignore_tvshows : list string;
  ignore_movies : list string
}.

Inductive PyExn := NameError (name : string).

(** How a run ends: [cache.replace_strm_cache(new_cache)] was reached and the
    run went on to the end, the run returned early on a shutdown request, or an
    exception left [run_pipeline]. *)
Inductive Outcome :=
| Completed (stored : gmap string CacheRecord)
| ShutdownExit
| Raised (ex : PyExn).

(** A run as seen from outside: its outcome, the calls it made on the
    progress tracker, and the argument lists the batch writer was called
    with (the only place pointer files are written). *)
Record RunResult := mkRun {
  outcome : Outcome;
  tracker_calls : list Tracker.Call;
  writer_calls : list (list (string * string))
}.

(** ** Name resolution in [main.py] *)

(** The names bound at module level: the imports of lines 1 to 32 and the
    three functions the module defines. *)
Definition main_globals : list string :=
  [ "logging"; "re"; "concurrent"; "argparse"; "Path"; "defaultdict";
    "requests"; "config";
    "SQLiteCache"; "build_existing_media_cache"; "canonical_movie_key";
    "canonical_tv_key"; "make_cache_key"; "sanitize_title"; "extract_year";
    "parse_m3u"; "split_by_market_filter"; "Category"; "VODEntry";
    "write_strm_file"; "cleanup_strm_tree"; "movie_strm_path"; "tv_strm_path";
    "doc_strm_path";
    "ProgressTracker"; "ProgressPhase"; "VerbosityLevel";
    "UserProgressDisplay"; "SimpleProgressDisplay";
    "touch_emby"; "write_excluded_report"; "run_pipeline" ].

(** The names [run_pipeline] assigns, its locals. *)
Definition run_pipeline_locals : list string :=
  [ "force_regenerate"; "cfg"; "verbosity"; "progress_tracker"; "progress_display";
    "logger"; "formatter"; "file_handler"; "console_handler"; "m3u_path";
    "output_dir"; "db_path"; "ignore_keywords"; "write_non_us_report";
    "cache"; "existing"; "d"; "existing_keys"; "entries";
    "movie_count"; "tv_count"; "doc_count"; "replay_count";
    "unique_entries"; "e"; "key"; "m"; "season"; "episode"; "base";
    "strm_cache"; "to_check"; "reused_allowed"; "reused_excluded"; "cached";
    "allowed"; "excluded"; "allowed_movies"; "allowed_tv"; "allowed_docs";
    "excluded_movies"; "excluded_tv"; "excluded_docs";
    "new_cache"; "written_count"; "skipped_count"; "process_entry";
    "file_operations"; "batch_size"; "rel_path"; "ex"; "i"; "batch";
    "batch_ops"; "batch_written"; "batch_skipped"; "abs_path"; "url"; "entry";
    "current_processed" ].

(** Looking a name up inside [run_pipeline]: locals, then module globals (no
    builtin has any of the names looked up here). *)
Definition resolves (name : string) : bool :=
  bool_decide (name ∈ (run_pipeline_locals ++ main_globals)%list).

(** ** Dictionaries in insertion order *)

(** [d[k] = v] on a dict kept as the list of its items: an existing key keeps
    its place and takes the new value, a new key goes last. *)
Fixpoint dict_set {V} (k : string) (v : V) (d : list (string * V)) : list (string * V) :=
  match d with
  | [] => [(k, v)]
  | (k', v') :: rest =>
      if decide (k' = k) then (k, v) :: rest else (k', v') :: dict_set k v rest
  end.

(** [d.get(k)] *)
Fixpoint dict_get {V} (k : string) (d : list (string * V)) : option V :=
  match d with
  | [] => None
  | (k', v') :: rest => if decide (k' = k) then Some v' else dict_get k rest
  end.

(** [range(0, len(l), n)] with [l[i:i+n]] at each [i]: the slices of [l], of
    length [n] but for the last. *)
Fixpoint slices_fuel {A} (fuel n : nat) (l : list A) : list (list A) :=
  match fuel with
  | O => []
  | S fuel' =>
      match l with
      | [] => []
      | _ :: _ => take n l :: slices_fuel fuel' n (drop n l)
      end
  end.

Definition slices {A} (n : nat) (l : list A) : list (list A) :=
  slices_fuel (length l) n l.

(** ** The pipeline ([main.py], [run_pipeline]) *)

(** Where the cache-reuse loop (lines 191 to 221) puts an entry. *)
Inductive Reuse := ToCheck | ReusedAllowed | ReusedExcluded.

#[global] Instance Reuse_eq_dec : EqDecision Reuse.
Proof. solve_decision. Defined.

(** What the first pass of the Creating-STRM phase does with an entry:
    [continue] without counting, count it as skipped, or queue a write. *)
Inductive Decision := Ignored | Skipped | Write (op : FileOp).

(** The variables of the Creating-STRM phase that its loops update. *)
Record SyncState := mkSync {
  written_count : Z;
  skipped_count : Z;
  new_cache : gmap string CacheRecord;
  calls : list Tracker.Call;
  writes : list (list (string * string))
}.

Section Pipeline.
Context `{Collaborators}.

(** The identity key of an entry, computed by the same branches in the
    deduplication loop (lines 166 to 180), the cache-reuse loop (192 to
    206) and the excluded-entries loop (463 to 474). *)
Definition entry_key (e : VODEntry) : string :=
  match category e with
  | MOVIE => canonical_movie_key (raw_title e)
  | TVSHOW =>
      match PyText.search_marker (raw_title e) with
      | Some (season, episode) =>
          let base := PyText.strip (PyText.sub_marker (raw_title e)) in
          canonical_tv_key base season episode
      | None => make_cache_key (raw_title e)
      end
  | DOCUMENTARY => canonical_movie_key (raw_title e)
  | _ => make_cache_key (raw_title e)
  end.

(** Lines 165 to 181: [unique_entries[key] = e] for each entry in file
    order. *)
Definition dedup_dict (entries : list VODEntry) : list (string * VODEntry) :=
  fold_left (fun d e => dict_set (entry_key e) e d) entries [].

(** Line 183: [list(unique_entries.values())]. *)
Definition dedup_entries (entries : list VODEntry) : list VODEntry :=
  (dedup_dict entries).*2.

(** [e] is the last entry of [l] in file order that has its key. *)
Definition last_occurrence (e : VODEntry) (l : list VODEntry) : Prop :=
  exists l1 l2,
    l = (l1 ++ e :: l2)%list /\ forall e', e' ∈ l2 -> entry_key e' ≠ entry_key e.

(** Lines 207 to 221, for one entry. *)
Definition cache_split (existing_keys : gset string)
    (strm_cache : gmap string CacheRecord) (e : VODEntry) : Reuse :=
  let key := entry_key e in
  if decide (key ∈ existing_keys) then ReusedAllowed
  else
    match strm_cache !! key with
    | Some cached =>
        match c_allowed cached with
        | Some a => if decide (a = 1) then ReusedAllowed else ReusedExcluded
        | None => ToCheck
        end
    | None => ToCheck
    end.

(** The three lists the loop appends to, each in the order of [entries]. *)
Definition split_list (r : Reuse) (existing_keys : gset string)
    (strm_cache : gmap string CacheRecord) (entries : list VODEntry) : list VODEntry :=
  filter (fun e => cache_split existing_keys strm_cache e = r) entries.

(** Modelled from the spec: [m3u_utils.split_by_market_filter], which is
    not among the sources; it partitions the entries it is given into
    (allowed, excluded), here by the verdict [market_allowed] on each. *)
Definition split_by_market_filter (l : list VODEntry) : list VODEntry * list VODEntry :=
  (filter (fun e => market_allowed e = true) l,
   filter (fun e => market_allowed e = false) l).

(** Lines 231 to 242: [allowed] and [excluded] after the reused entries are
    appended. *)
Definition allowed_entries (existing_keys : gset string)
    (strm_cache : gmap string CacheRecord) (entries : list VODEntry) : list VODEntry :=
  ((split_by_market_filter (split_list ToCheck existing_keys strm_cache entries)).1
     ++ split_list ReusedAllowed existing_keys strm_cache entries)%list.

Definition excluded_entries (existing_keys : gset string)
    (strm_cache : gmap string CacheRecord) (entries : list VODEntry) : list VODEntry :=
  ((split_by_market_filter (split_list ToCheck existing_keys strm_cache entries)).2
     ++ split_list ReusedExcluded existing_keys strm_cache entries)%list.

(** Lines 380 to 408: the key and target path of an entry in the first
    pass; [None] where the code runs [continue] on the category. *)
Definition first_pass_target (e : VODEntry) : option (string * string) :=
  match category e with
  | MOVIE => Some (canonical_movie_key (raw_title e), movie_strm_path output_dir e)
  | TVSHOW =>
      let base := PyText.strip (PyText.sub_marker (raw_title e)) in
      match PyText.search_marker (raw_title e) with
      | Some (season, episode) =>
          Some (canonical_tv_key base season episode,
                tv_strm_path output_dir
                  (mkEntry base (sanitize_title base) (url e) (category e) (year e))
                  season episode)
      | None => Some (make_cache_key (raw_title e), tv_strm_path output_dir e 1 1)
      end
  | DOCUMENTARY => Some (canonical_movie_key (raw_title e), doc_strm_path output_dir e)
  | _ => None
  end.

(** Lines 410 to 419.  The collaborators are total functions here, so the
    [except] branch of the loop body is never taken. *)
Definition first_pass_decision (force_regenerate : bool) (existing_keys : gset string)
    (strm_cache : gmap string CacheRecord) (e : VODEntry) : Decision :=
  match first_pass_target e with
  | None => Ignored
  | Some (key, rel_path) =>
      if decide (key = "") then Ignored
      else if bool_decide (key ∈ existing_keys)
              || (negb force_regenerate && bool_decide (is_Some (strm_cache !! key)))
      then Skipped
      else Write (mkOp rel_path (url e) key e)
  end.

(** Lines 376 to 422: [(file_operations, skipped_count)] after the loop. *)
Definition first_pass (force_regenerate : bool) (existing_keys : gset string)
    (strm_cache : gmap string CacheRecord) (allowed : list VODEntry) : list FileOp * Z :=
  fold_left
    (fun acc e =>
       match first_pass_decision force_regenerate existing_keys strm_cache e with
       | Ignored => acc
       | Skipped => (acc.1, acc.2 + 1)
       | Write op => ((acc.1 ++ [op])%list, acc.2)
       end)
    allowed ([], 0).

(** What [process_entry] (lines 272 to 363) updates: the nonlocal counters,
    [new_cache], and the pointer files written. *)
Record EntryState := mkEntryState {
  pe_written : Z;
  pe_skipped : Z;
  pe_cache : gmap string CacheRecord;
  pe_files : list (string * string)
}.

(** Truth value of an [Optional[str]] and of an [Optional[int]]. *)
Definition str_truthy (o : option string) : bool :=
  match o with
  | Some EmptyString | None => false
  | Some _ => true
  end.

Definition int_truthy (o : option Z) : bool :=
  match o with
  | Some z => negb (Z.eqb z 0)
  | None => false
  end.

(** [process_entry(e)], the closure defined at line 272; [run_pipeline] never
    calls it.  It reads [strm_cache], [existing_keys] and [force_regenerate]
    and updates [new_cache] and the two counters. *)
Definition process_entry (force_regenerate : bool) (existing_keys : gset string)
    (strm_cache : gmap string CacheRecord) (e0 : VODEntry) (st : EntryState) : EntryState :=
  let e := if int_truthy (year e0) then e0
           else mkEntry (raw_title e0) (safe_title e0) (url e0) (category e0)
                  (extract_year (raw_title e0)) in
  let ignore := if decide (category e = TVSHOW) then ignore_tvshows else ignore_movies in
  if existsb (fun word => PyText.contains (PyText.lower word) (PyText.lower (raw_title e)))
       ignore
  then st
  else
    let target :=
      match category e with
      | MOVIE => Some (canonical_movie_key (raw_title e), movie_strm_path output_dir e)
      | TVSHOW =>
          let base := PyText.strip (PyText.sub_marker (raw_title e)) in
          match PyText.search_marker (raw_title e) with
          | Some (season, episode) =>
              Some (canonical_tv_key base season episode,
                    tv_strm_path output_dir
                      (mkEntry base (sanitize_title base) (url e) (category e) (year e))
                      season episode)
          | None => Some (make_cache_key (raw_title e), tv_strm_path output_dir e 1 1)
          end
      | DOCUMENTARY => Some (canonical_movie_key (raw_title e), doc_strm_path output_dir e)
      | _ => None
      end in
    match target with
    | None => st
    | Some (key, rel_path) =>
        if decide (key = "") then st
        else if decide (key ∈ existing_keys) then
          mkEntryState (pe_written st) (pe_skipped st + 1)
            (<[key := mkRecord (url e) None (Some 1)]> (pe_cache st)) (pe_files st)
        else
          let unchanged :=
            if force_regenerate then None
            else
              match strm_cache !! key with
              | Some cached =>
                  match c_path cached with
                  | Some cached_path =>
                      if bool_decide (c_url cached = url e)
                         && str_truthy (c_path cached)
                         && bool_decide (path_resolve cached_path = path_resolve rel_path)
                      then Some cached else None
                  | None => None
                  end
              | None => None
              end in
          match unchanged with
          | Some cached =>
              mkEntryState (pe_written st) (pe_skipped st + 1)
                (<[key := mkRecord (c_url cached) (c_path cached) (c_allowed cached)]>
                   (pe_cache st))
                (pe_files st)
          | None =>
              if write_strm_file output_dir rel_path (url e) then
                mkEntryState (pe_written st + 1) (pe_skipped st)
                  (<[key := mkRecord (url e) (Some (path_resolve rel_path)) (Some 1)]>
                     (pe_cache st))
                  (pe_files st ++ [(rel_path, url e)])
              else st
          end
    end.

(** Line 439, for one written file. *)
Definition written_record (op : FileOp) : CacheRecord :=
  mkRecord (op_url op) (Some (path_resolve (path_join output_dir (op_path op)))) (Some 1).

(** Line 475. *)
Definition excluded_record (e : VODEntry) : CacheRecord :=
  mkRecord (url e) None (Some 0).

(** Lines 426 to 459: one iteration of the batch loop, for the batch that
    starts at index [i].  The call of line 432 first looks the name
    [batch_write_strm_files] up; when that fails the iteration ends there
    with the exception. *)
Definition batch_step (n_ops i : Z) (batch : list FileOp) (st : SyncState)
    : option PyExn * SyncState :=
  let batch_ops := map (fun op => (op_path op, op_url op)) batch in
  if resolves "batch_write_strm_files" then
    let '(batch_written, batch_skipped) := batch_write_strm_files output_dir batch_ops in
    let written := written_count st + batch_written in
    let skipped := skipped_count st + batch_skipped in
    let cache := fold_left (fun c op => <[op_key op := written_record op]> c)
                   batch (new_cache st) in
    let current_processed := Z.min (i + 50) n_ops in
    let label := "Batch " +:+ PyText.show_Z (i / 50 + 1) +:+ "/"
                 +:+ PyText.show_Z ((n_ops - 1) / 50 + 1) in
    (None,
     mkSync written skipped cache
       (calls st ++ [Tracker.BatchUpdate Tracker.CREATING_STRM (current_processed + skipped) label
                       batch_written 0 batch_skipped])
       (writes st ++ [batch_ops]))
  else (Some (NameError "batch_write_strm_files"), st).

(** Line 425: the loop over the batches, stopping at the first exception. *)
Fixpoint batch_loop (n_ops i : Z) (batches : list (list FileOp)) (st : SyncState)
    : option PyExn * SyncState :=
  match batches with
  | [] => (None, st)
  | batch :: rest =>
      match batch_step n_ops i batch st with
      | (Some ex, st') => (Some ex, st')
      | (None, st') => batch_loop n_ops (i + 50) rest st'
      end
  end.

(** Lines 461 to 475. *)
Definition record_excluded (excluded : list VODEntry) (cache : gmap string CacheRecord)
    : gmap string CacheRecord :=
  fold_left (fun c e => <[entry_key e := excluded_record e]> c) excluded cache.

(** Lines 366 to 478: the Creating-STRM phase, from [new_cache =
    strm_cache.copy()] on.  The context manager starts the phase, and
    completes it also when the body raises. *)
Definition creating_strm_phase (force_regenerate : bool) (existing_keys : gset string)
    (strm_cache : gmap string CacheRecord) (allowed excluded : list VODEntry)
    : option PyExn * SyncState :=
  let n_allowed := Z.of_nat (length allowed) in
  let '(file_operations, skipped) :=
    first_pass force_regenerate existing_keys strm_cache allowed in
  let st0 := mkSync 0 skipped strm_cache
               [Tracker.Start Tracker.CREATING_STRM 0; Tracker.Start Tracker.CREATING_STRM n_allowed] [] in
  match batch_loop (Z.of_nat (length file_operations)) 0 (slices 50 file_operations) st0 with
  | (Some ex, st) =>
      (Some ex,
       mkSync (written_count st) (skipped_count st) (new_cache st)
         (calls st ++ [Tracker.Complete Tracker.CREATING_STRM]) (writes st))
  | (None, st) =>
      let label := "Created " +:+ PyText.show_Z (written_count st)
                   +:+ " STRMs, skipped " +:+ PyText.show_Z (skipped_count st) in
      (None,
       mkSync (written_count st) (skipped_count st)
         (record_excluded excluded (new_cache st))
         (calls st ++ [Tracker.Update Tracker.CREATING_STRM n_allowed label true false;
                       Tracker.Complete Tracker.CREATING_STRM])
         (writes st))
  end.

(** [run_pipeline(force_regenerate)].  [shutdown ph] is what
    [is_shutdown_requested()] answers in phase [ph]; [existing] is the merged
    result of the local scan, [parsed] the entries of [parse_m3u] in file
    order, [strm_cache] the stored pointer cache the run finds. *)
Definition run_pipeline (force_regenerate : bool) (shutdown : Tracker.ProgressPhase -> bool)
    (existing : gmap string string) (parsed : list VODEntry)
    (strm_cache : gmap string CacheRecord) : RunResult :=
  let existing_keys : gset string := dom existing in
  let calls1 := [Tracker.Start Tracker.SCANNING_LOCAL 0; Tracker.Start Tracker.SCANNING_LOCAL 0] in
  if shutdown Tracker.SCANNING_LOCAL
  then mkRun ShutdownExit (calls1 ++ [Tracker.Complete Tracker.SCANNING_LOCAL]) []
  else
    let calls2 :=
      (calls1 ++ [Tracker.Complete Tracker.SCANNING_LOCAL; Tracker.Start Tracker.PARSING_M3U 0; Tracker.Start Tracker.PARSING_M3U 0])%list in
    if shutdown Tracker.PARSING_M3U
    then mkRun ShutdownExit (calls2 ++ [Tracker.Complete Tracker.PARSING_M3U]) []
    else
      let entries := dedup_entries parsed in
      let n_entries := Z.of_nat (length entries) in
      let to_check := split_list ToCheck existing_keys strm_cache entries in
      let calls3 :=
        (calls2 ++
         [Tracker.Update Tracker.PARSING_M3U n_entries
            ("Parsed " +:+ PyText.show_Z n_entries +:+ " unique entries") true false;
          Tracker.Complete Tracker.PARSING_M3U;
          Tracker.Start Tracker.FILTERING_TMDB 0;
          Tracker.Start Tracker.FILTERING_TMDB (Z.of_nat (length to_check))])%list in
      if shutdown Tracker.FILTERING_TMDB
      then mkRun ShutdownExit (calls3 ++ [Tracker.Complete Tracker.FILTERING_TMDB]) []
      else
        let allowed := allowed_entries existing_keys strm_cache entries in
        let excluded := excluded_entries existing_keys strm_cache entries in
        let calls4 :=
          (calls3 ++
           [Tracker.Update Tracker.FILTERING_TMDB (Z.of_nat (length to_check))
              ("Filtered " +:+ PyText.show_Z (Z.of_nat (length allowed))
               +:+ " allowed, " +:+ PyText.show_Z (Z.of_nat (length excluded))
               +:+ " excluded") true false;
            Tracker.Complete Tracker.FILTERING_TMDB])%list in
        match creating_strm_phase force_regenerate existing_keys strm_cache
                allowed excluded with
        | (Some ex, st) => mkRun (Raised ex) (calls4 ++ calls st) (writes st)
        | (None, st) =>
            mkRun (Completed (new_cache st))
              (calls4 ++ calls st ++
               [Tracker.Start Tracker.CLEANUP 0; Tracker.Start Tracker.CLEANUP 0;
                Tracker.Update Tracker.CLEANUP 1 "Cleanup completed" true false;
                Tracker.Complete Tracker.CLEANUP])
              (writes st)
        end.

(** The writes a run queues: [file_operations] after the first pass. *)
Definition planned_writes (force_regenerate : bool) (existing : gmap string string)
    (parsed : list VODEntry) (strm_cache : gmap string CacheRecord) : list FileOp :=
  (first_pass force_regenerate (dom existing) strm_cache
     (allowed_entries (dom existing) strm_cache (dedup_entries parsed))).1.

(** The pointer cache the database holds after a run that read [prior]:
    [cache.replace_strm_cache(new_cache)] (line 480) is the only statement of
    [run_pipeline] that writes it, so a run that does not get there leaves
    the prior cache in place. *)
Definition cache_after (prior : gmap string CacheRecord) (r : RunResult)
    : gmap string CacheRecord :=
  match outcome r with
  | Completed stored => stored
  | ShutdownExit | Raised _ => prior
  end.

End Pipeline.

(** ** Sample collaborators, for evaluating the pipeline on concrete inputs *)

Definition sample_collaborators : Collaborators := {|
  canonical_movie_key := fun t => "movie:" +:+ t;
  canonical_tv_key := fun base season episode =>
    "tv:" +:+ base +:+ ":" +:+ PyText.show_Z season +:+ ":" +:+ PyText.show_Z episode;
  make_cache_key := fun t => "raw:" +:+ t;
  sanitize_title := fun t => t;
  movie_strm_path := fun out e => out +:+ "/Movies/" +:+ safe_title e +:+ ".strm";
  tv_strm_path := fun out e season episode =>
    out +:+ "/TV/" +:+ safe_title e +:+ "/S" +:+ PyText.show_Z season
        +:+ "E" +:+ PyText.show_Z episode +:+ ".strm";
  doc_strm_path := fun out e => out +:+ "/Docs/" +:+ safe_title e +:+ ".strm";
  batch_write_strm_files := fun _ ops => (Z.of_nat (length ops), 0);
  path_join := fun _ rel => rel;
  path_resolve := fun p => p;
  market_allowed := fun e => negb (String.prefix "Foreign" (raw_title e));
  extract_year := fun _ => None;
  write_strm_file := fun _ _ _ => true;
  output_dir := "/out";
  ignore_tvshows := [];
  ignore_movies := ["trailer"]
|}.

Definition movie (title link : string) : VODEntry := mkEntry title title link MOVIE None.
Definition episode (title link : string) : VODEntry := mkEntry title title link TVSHOW None.
Definition documentary (title link : string) : VODEntry :=
  mkEntry title title link DOCUMENTARY None.

Definition no_shutdown : Tracker.ProgressPhase -> bool := fun _ => false.

(** ** Concrete inputs *)

Definition heat_old : CacheRecord :=
  mkRecord "http://old/heat" (Some "/out/Movies/Heat.strm") (Some 1).

Definition heat_new : VODEntry := movie "Heat" "http://new/heat".

Definition cache_heat : gmap string CacheRecord := {[ "movie:Heat" := heat_old ]}.

Definition local_heat : gmap string string := {[ "movie:Heat" := "MOVIE" ]}.

Definition gone_record : CacheRecord :=
  mkRecord "http://old/gone" (Some "/out/Movies/Gone.strm") (Some 1).

Definition cache_gone : gmap string CacheRecord := {[ "movie:Gone" := gone_record ]}.

Definition foreign_film : VODEntry := movie "Foreign Film" "http://cdn/foreign".

Definition entry_state0 (cache : gmap string CacheRecord) : EntryState :=
  mkEntryState 0 0 cache [].

Definition started_progress : Tracker.PhaseProgress :=
  Tracker.mkPhaseProgress Tracker.CREATING_STRM 5 0 (Some (10 # 1)%Q) None 0%Q "" 0 0 0.

Definition started_tracker : Tracker.ProgressTracker :=
  Tracker.start_phase (10 # 1)%Q Tracker.CREATING_STRM 5 Tracker.new_tracker.

Definition finished_progress : Tracker.PhaseProgress :=
  Tracker.mkPhaseProgress Tracker.CREATING_STRM 5 1 (Some (10 # 1)%Q) (Some (12 # 1)%Q)
    (1 # 1)%Q "item" 1 0 0.

Definition finished_tracker : Tracker.ProgressTracker :=
  Tracker.complete_phase (12 # 1)%Q Tracker.CREATING_STRM
    (Tracker.update_phase (11 # 1)%Q Tracker.CREATING_STRM 1 "item" true false
       started_tracker).

#[global] Instance FileOp_eq_dec : EqDecision FileOp.
Proof. solve_decision. Defined.

#[global] Instance Decision_eq_dec : EqDecision Decision.
Proof. solve_decision. Defined.

(** ** Parts of [process_entry] by name *)

Section EntrySteps.
Context `{Collaborators}.

(** Lines 284 to 287: the year is taken from the title when the entry has
    none (or has 0). *)
Definition backfill_year (e0 : VODEntry) : VODEntry :=
  if int_truthy (year e0) then e0
  else mkEntry (raw_title e0) (safe_title e0) (url e0) (category e0)
         (extract_year (raw_title e0)).

(** Lines 288 to 291: some ignore keyword occurs in the title, case
    ignored. *)
Definition ignored_by_keyword (e : VODEntry) : bool :=
  existsb (fun word => PyText.contains (PyText.lower word) (PyText.lower (raw_title e)))
    (if decide (category e = TVSHOW) then ignore_tvshows else ignore_movies).

(** [for e in entries: process_entry(e)], the way the closure is meant to be
    driven. *)
Definition process_entries (force_regenerate : bool) (existing_keys : gset string)
    (strm_cache : gmap string CacheRecord) (entries : list VODEntry) (st : EntryState)
    : EntryState :=
  fold_left (fun st e => process_entry force_regenerate existing_keys strm_cache e st)
    entries st.

End EntrySteps.

(** ** The read side of the tracker and its statistics
    ([progress_tracker.py]) *)

Module TrackerViews.
Import Tracker.

(** [PhaseProgress.is_complete] *)
Definition is_complete (p : PhaseProgress) : bool :=
  match completed_at p with
  | Some _ => true
  | None => false
  end.

(** [PhaseProgress.elapsed_time], read at time [now]:
    [end_time = self.completed_at or time.time()]. *)
Definition elapsed_time (now : Q) (p : PhaseProgress) : Q :=
  match started_at p with
  | None => 0%Q
  | Some s =>
      let end_time :=
        match completed_at p with
        | Some c => if truthy (Some c) then c else now
        | None => now
        end in
      (end_time - s)%Q
  end.

(** [min(a, b)] on two floats: [b] when [b < a], else [a]. *)
Definition py_min (a b : Q) : Q := if Qle_bool a b then a else b.

(** [max(a, b)]: [b] when [b > a], else [a]. *)
Definition py_max (a b : Q) : Q := if Qle_bool b a then a else b.

(** [PhaseProgress.progress_percent] *)
Definition progress_percent (p : PhaseProgress) : Q :=
  if Z.eqb (total p) 0 then (if is_complete p then 100%Q else 0%Q)
  else py_min 100%Q (inject_Z (processed p) / inject_Z (total p) * 100)%Q.

Definition all_phases : list ProgressPhase :=
  [SCANNING_LOCAL; PARSING_M3U; FILTERING_TMDB; CREATING_STRM; CLEANUP].

(** [self._phases.values()].  The dict is kept as a function of the phase, so
    the values come in the order of the enumeration rather than in the order
    the phases were first started; the sums below do not depend on it up to
    equality of rationals. *)
Definition tracked (t : ProgressTracker) : list PhaseProgress :=
  omap (phases t) all_phases.

(** [sum(xs)] of floats, starting from 0. *)
Definition py_sum (xs : list Q) : Q := fold_left Qplus xs 0%Q.

(** [get_overall_progress()] *)
Definition get_overall_progress (t : ProgressTracker) : Q :=
  match tracked t with
  | [] => 0%Q
  | ps => (py_sum (map progress_percent ps) / inject_Z (Z.of_nat (length ps)))%Q
  end.

(** [get_current_phase()] *)
Definition get_current_phase (t : ProgressTracker) : option PhaseProgress :=
  match current_phase t with
  | Some ph => phases t ph
  | None => None
  end.

(** The state after a sequence of calls made from state [t], the first at
    clock reading [clock i]. *)
Fixpoint run_calls (clock : nat -> Q) (i : nat) (t : ProgressTracker) (cs : list Call)
    : ProgressTracker :=
  match cs with
  | [] => t
  | c :: rest => run_calls clock (S i) (step (clock i) c t) rest
  end.

(** [ProcessingStats] *)
Record ProcessingStats := mkStats {
  movies_found : Z;
  movies_allowed : Z;
  movies_excluded : Z;
  tv_episodes_found : Z;
  tv_episodes_allowed : Z;
  tv_episodes_excluded : Z;
  documentaries_found : Z;
  documentaries_allowed : Z;
  documentaries_excluded : Z;
  strm_created : Z;
  strm_skipped : Z;
  strm_orphaned : Z;
  errors : list string
}.

(** [ProcessingStats()] *)
Definition new_stats : ProcessingStats := mkStats 0 0 0 0 0 0 0 0 0 0 0 0 [].

Definition total_found (s : ProcessingStats) : Z :=
  movies_found s + tv_episodes_found s + documentaries_found s.

Definition total_allowed (s : ProcessingStats) : Z :=
  movies_allowed s + tv_episodes_allowed s + documentaries_allowed s.

Definition total_excluded (s : ProcessingStats) : Z :=
  movies_excluded s + tv_episodes_excluded s + documentaries_excluded s.

(** The integer fields of the dataclass. *)
Inductive Counter :=
| MoviesFound
| MoviesAllowed
| MoviesExcluded
| TvEpisodesFound
| TvEpisodesAllowed
| TvEpisodesExcluded
| DocumentariesFound
| DocumentariesAllowed
| DocumentariesExcluded
| StrmCreated
| StrmSkipped
| StrmOrphaned.

#[global] Instance Counter_eq_dec : EqDecision Counter.
Proof. solve_decision. Defined.

Definition counter_named (key : string) : option Counter :=
  if String.eqb key "movies_found" then Some MoviesFound
  else if String.eqb key "movies_allowed" then Some MoviesAllowed
  else if String.eqb key "movies_excluded" then Some MoviesExcluded
  else if String.eqb key "tv_episodes_found" then Some TvEpisodesFound
  else if String.eqb key "tv_episodes_allowed" then Some TvEpisodesAllowed
  else if String.eqb key "tv_episodes_excluded" then Some TvEpisodesExcluded
  else if String.eqb key "documentaries_found" then Some DocumentariesFound
  else if String.eqb key "documentaries_allowed" then Some DocumentariesAllowed
  else if String.eqb key "documentaries_excluded" then Some DocumentariesExcluded
  else if String.eqb key "strm_created" then Some StrmCreated
  else if String.eqb key "strm_skipped" then Some StrmSkipped
  else if String.eqb key "strm_orphaned" then Some StrmOrphaned
  else None.

(** [getattr(self._stats, key)] on an integer field *)
Definition get_counter (c : Counter) (s : ProcessingStats) : Z :=
  match c with
  | MoviesFound => movies_found s
  | MoviesAllowed => movies_allowed s
  | MoviesExcluded => movies_excluded s
  | TvEpisodesFound => tv_episodes_found s
  | TvEpisodesAllowed => tv_episodes_allowed s
  | TvEpisodesExcluded => tv_episodes_excluded s
  | DocumentariesFound => documentaries_found s
  | DocumentariesAllowed => documentaries_allowed s
  | DocumentariesExcluded => documentaries_excluded s
  | StrmCreated => strm_created s
  | StrmSkipped => strm_skipped s
  | StrmOrphaned => strm_orphaned s
  end.

(** [setattr(self._stats, key, v)] on an integer field *)
Definition set_counter (c : Counter) (v : Z) (s : ProcessingStats) : ProcessingStats :=
  match c with
  | MoviesFound =>
      mkStats v (movies_allowed s) (movies_excluded s) (tv_episodes_found s) (tv_episodes_allowed s) (tv_episodes_excluded s) (documentaries_found s) (documentaries_allowed s) (documentaries_excluded s) (strm_created s) (strm_skipped s) (strm_orphaned s) (errors s)
  | MoviesAllowed =>
      mkStats (movies_found s) v (movies_excluded s) (tv_episodes_found s) (tv_episodes_allowed s) (tv_episodes_excluded s) (documentaries_found s) (documentaries_allowed s) (documentaries_excluded s) (strm_created s) (strm_skipped s) (strm_orphaned s) (errors s)
  | MoviesExcluded =>
      mkStats (movies_found s) (movies_allowed s) v (tv_episodes_found s) (tv_episodes_allowed s) (tv_episodes_excluded s) (documentaries_found s) (documentaries_allowed s) (documentaries_excluded s) (strm_created s) (strm_skipped s) (strm_orphaned s) (errors s)
  | TvEpisodesFound =>
      mkStats (movies_found s) (movies_allowed s) (movies_excluded s) v (tv_episodes_allowed s) (tv_episodes_excluded s) (documentaries_found s) (documentaries_allowed s) (documentaries_excluded s) (strm_created s) (strm_skipped s) (strm_orphaned s) (errors s)
  | TvEpisodesAllowed =>
      mkStats (movies_found s) (movies_allowed s) (movies_excluded s) (tv_episodes_found s) v (tv_episodes_excluded s) (documentaries_found s) (documentaries_allowed s) (documentaries_excluded s) (strm_created s) (strm_skipped s) (strm_orphaned s) (errors s)
  | TvEpisodesExcluded =>
      mkStats (movies_found s) (movies_allowed s) (movies_excluded s) (tv_episodes_found s) (tv_episodes_allowed s) v (documentaries_found s) (documentaries_allowed s) (documentaries_excluded s) (strm_created s) (strm_skipped s) (strm_orphaned s) (errors s)
  | DocumentariesFound =>
      mkStats (movies_found s) (movies_allowed s) (movies_excluded s) (tv_episodes_found s) (tv_episodes_allowed s) (tv_episodes_excluded s) v (documentaries_allowed s) (documentaries_excluded s) (strm_created s) (strm_skipped s) (strm_orphaned s) (errors s)
  | DocumentariesAllowed =>
      mkStats (movies_found s) (movies_allowed s) (movies_excluded s) (tv_episodes_found s) (tv_episodes_allowed s) (tv_episodes_excluded s) (documentaries_found s) v (documentaries_excluded s) (strm_created s) (strm_skipped s) (strm_orphaned s) (errors s)
  | DocumentariesExcluded =>
      mkStats (movies_found s) (movies_allowed s) (movies_excluded s) (tv_episodes_found s) (tv_episodes_allowed s) (tv_episodes_excluded s) (documentaries_found s) (documentaries_allowed s) v (strm_created s) (strm_skipped s) (strm_orphaned s) (errors s)
  | StrmCreated =>
      mkStats (movies_found s) (movies_allowed s) (movies_excluded s) (tv_episodes_found s) (tv_episodes_allowed s) (tv_episodes_excluded s) (documentaries_found s) (documentaries_allowed s) (documentaries_excluded s) v (strm_skipped s) (strm_orphaned s) (errors s)
  | StrmSkipped =>
      mkStats (movies_found s) (movies_allowed s) (movies_excluded s) (tv_episodes_found s) (tv_episodes_allowed s) (tv_episodes_excluded s) (documentaries_found s) (documentaries_allowed s) (documentaries_excluded s) (strm_created s) v (strm_orphaned s) (errors s)
  | StrmOrphaned =>
      mkStats (movies_found s) (movies_allowed s) (movies_excluded s) (tv_episodes_found s) (tv_episodes_allowed s) (tv_episodes_excluded s) (documentaries_found s) (documentaries_allowed s) (documentaries_excluded s) (strm_created s) (strm_skipped s) v (errors s)
  end.

Inductive StatsExn :=
| AttributeError (name : string)
| TypeError (name : string).

(** The read-only properties of the dataclass. *)
Definition is_property (key : string) : bool :=
  String.eqb key "total_found" || String.eqb key "total_allowed"
  || String.eqb key "total_excluded".

(** One round of the loop of [update_stats], for the keyword [key=value] with
    an integer value.  [inherited key] says whether [hasattr] finds [key]
    among the attributes the object has besides its fields and properties
    (the methods and dunder attributes of every dataclass instance); adding an
    integer to one of those, or to the list [errors], raises [TypeError], and
    assigning to a property raises [AttributeError]. *)
Definition update_stat (inherited : string -> bool) (key : string) (value : Z)
    (s : ProcessingStats) : option StatsExn * ProcessingStats :=
  match counter_named key with
  | Some c => (None, set_counter c (get_counter c s + value) s)
  | None =>
      if String.eqb key "errors" then (Some (TypeError key), s)
      else if is_property key then (Some (AttributeError key), s)
      else if inherited key then (Some (TypeError key), s)
      else (None, s)
  end.

(** [update_stats], given its keyword arguments in order: it stops at the
    first exception, with the earlier keywords applied. *)
Fixpoint update_stats (inherited : string -> bool) (kwargs : list (string * Z))
    (s : ProcessingStats) : option StatsExn * ProcessingStats :=
  match kwargs with
  | [] => (None, s)
  | (key, value) :: rest =>
      match update_stat inherited key value s with
      | (Some ex, s') => (Some ex, s')
      | (None, s') => update_stats inherited rest s'
      end
  end.

(** [add_error(error_msg)] *)
Definition add_error (error_msg : string) (s : ProcessingStats) : ProcessingStats :=
  mkStats (movies_found s) (movies_allowed s) (movies_excluded s)
    (tv_episodes_found s) (tv_episodes_allowed s) (tv_episodes_excluded s)
    (documentaries_found s) (documentaries_allowed s) (documentaries_excluded s)
    (strm_created s) (strm_skipped s) (strm_orphaned s) (errors s ++ [error_msg]).

(** The sum of the values given under the name of counter [c]. *)
Definition delta_for (c : Counter) (kwargs : list (string * Z)) : Z :=
  fold_right Z.add 0
    (omap (fun kv => if decide (counter_named kv.1 = Some c) then Some kv.2 else None)
       kwargs).

(** The arguments of one call of [update_phase] on a given phase. *)
Record ItemUpdate := mkItemUpdate {
  iu_processed : Z;
  iu_item : string;
  iu_success : bool;
  iu_skipped : bool
}.

Definition update_call (ph : ProgressPhase) (u : ItemUpdate) : Call :=
  Update ph (iu_processed u) (iu_item u) (iu_success u) (iu_skipped u).

End TrackerViews.

(** ** The statistics a run reports ([main.py], the [update_stats] calls) *)

Section RunStatistics.
Context `{Collaborators}.

(** [sum(1 for e in l if e.category == c)] *)
Definition count_category (c : Category) (l : list VODEntry) : Z :=
  Z.of_nat (length (filter (fun e => category e = c) l)).

(** [sum(1 for k, v in existing.items() if v == kind)] *)
Definition count_kind (kind : string) (existing : gmap string string) : Z :=
  Z.of_nat (length (filter (fun kv => kv.2 = kind) (map_to_list existing))).

(** Lines 456 to 459: the keywords of the [update_stats] call each batch of
    the batch loop ends with; the loop gets there only if the call of the
    batch writer before it went through. *)
Definition batch_stats (file_operations : list FileOp) : list (list (string * Z)) :=
  if resolves "batch_write_strm_files" then
    map (fun batch =>
           let '(batch_written, batch_skipped) :=
             batch_write_strm_files output_dir
               (map (fun op => (op_path op, op_url op)) batch) in
           [("strm_created", batch_written); ("strm_skipped", batch_skipped)])
      (slices 50 file_operations)
  else [].

(** The keyword lists of the [update_stats] calls of a run, in order: after
    the local scan (lines 129 to 133), after parsing (158 to 162, counted
    before deduplication), after filtering (253 to 260) and in the batch
    loop.  A phase left on a shutdown request makes no call. *)
Definition stats_calls (force_regenerate : bool) (shutdown : Tracker.ProgressPhase -> bool)
    (existing : gmap string string) (parsed : list VODEntry)
    (strm_cache : gmap string CacheRecord) : list (list (string * Z)) :=
  if shutdown Tracker.SCANNING_LOCAL then []
  else
    [("movies_found", count_kind "MOVIE" existing);
     ("tv_episodes_found", count_kind "TVEPISODE" existing);
     ("documentaries_found", count_kind "DOCUMENTARY" existing)]
    :: if shutdown Tracker.PARSING_M3U then []
       else
         [("movies_found", count_category MOVIE parsed);
          ("tv_episodes_found", count_category TVSHOW parsed);
          ("documentaries_found", count_category DOCUMENTARY parsed)]
         :: if shutdown Tracker.FILTERING_TMDB then []
            else
              let entries := dedup_entries parsed in
              let allowed := allowed_entries (dom existing) strm_cache entries in
              let excluded := excluded_entries (dom existing) strm_cache entries in
              [("movies_allowed", count_category MOVIE allowed);
               ("movies_excluded", count_category MOVIE excluded);
               ("tv_episodes_allowed", count_category TVSHOW allowed);
               ("tv_episodes_excluded", count_category TVSHOW excluded);
               ("documentaries_allowed", count_category DOCUMENTARY allowed);
               ("documentaries_excluded", count_category DOCUMENTARY excluded)]
              :: batch_stats
                   (first_pass force_regenerate (dom existing) strm_cache allowed).1.

(** The statistics at the end of a run, from [ProcessingStats()]. *)
Definition run_stats (inherited : string -> bool) (force_regenerate : bool)
    (shutdown : Tracker.ProgressPhase -> bool) (existing : gmap string string)
    (parsed : list VODEntry) (strm_cache : gmap string CacheRecord)
    : TrackerViews.ProcessingStats :=
  fold_left (fun s kwargs => (TrackerViews.update_stats inherited kwargs s).2)
    (stats_calls force_regenerate shutdown existing parsed strm_cache)
    TrackerViews.new_stats.

End RunStatistics.

(** ** The excluded-entries report ([main.py], [write_excluded_report]) *)

(** [sorted(l)]: Python's sort is stable and compares strings by code point,
    which on one-byte strings is the order of [String.compare].  An element
    goes in before the first one whose key is strictly greater.  Tuples
    [(key, value)] whose keys are distinct (the items of a dict) are ordered
    by their key. *)
Fixpoint insert_by {A} (key : A -> string) (x : A) (l : list A) : list A :=
  match l with
  | [] => [x]
  | y :: rest =>
      if String.ltb (key x) (key y) then x :: l else y :: insert_by key x rest
  end.

Definition sorted_by {A} (key : A -> string) (l : list A) : list A :=
  fold_left (fun acc x => insert_by key x acc) l [].

Definition py_sorted (l : list string) : list string := sorted_by id l.

Definition sorted_items {V} (d : list (string * V)) : list (string * V) :=
  sorted_by fst d.

Definition nl : string := String "010" EmptyString.

(** Line 53: the raw titles of the excluded movies. *)
Definition report_movies (excluded : list VODEntry) : list string :=
  raw_title <$> filter (fun e => category e = MOVIE) excluded.

(** Line 54 *)
Definition report_shows (excluded : list VODEntry) : list string :=
  raw_title <$> filter (fun e => category e = TVSHOW) excluded.

(** Line 57: the title up to its season and episode marker, stripped. *)
Definition show_base (title : string) : string :=
  PyText.strip (PyText.sub_marker title).

(** Lines 55 to 58: [grouped_shows[base].append(title)] on a
    [defaultdict(list)]. *)
Definition group_shows (shows : list string) : list (string * list string) :=
  fold_left
    (fun grouped title =>
       let base := show_base title in
       dict_set base (default [] (dict_get base grouped) ++ [title])%list grouped)
    shows [].

(** [write_excluded_report(path, excluded, allowed_count, enabled)]: [None]
    when the report is disabled and no file is opened, else the strings
    written to the file, in order.  The dash of the show lines (U+2014,
    beyond the code points a [string] holds) is stood for by the three bytes
    of its UTF-8 encoding, the encoding the file is opened with. *)
Definition write_excluded_report (excluded : list VODEntry) (allowed_count : Z)
    (enabled : bool) : option (list string) :=
  if negb enabled then None
  else
    let movies := report_movies excluded in
    let grouped_shows := group_shows (report_shows excluded) in
    Some
      (["=== Excluded Entries Report ===" +:+ nl +:+ nl;
        "Total allowed: " +:+ PyText.show_Z allowed_count +:+ nl;
        "Total excluded: " +:+ PyText.show_Z (Z.of_nat (length excluded)) +:+ nl +:+ nl;
        "--- Movies ---" +:+ nl]
       ++ ((fun m => m +:+ nl) <$> py_sorted movies)
       ++ [nl +:+ "Total movies excluded: " +:+ PyText.show_Z (Z.of_nat (length movies))
           +:+ nl +:+ nl;
           "--- TV Shows ---" +:+ nl]
       ++ ((fun item : string * list string =>
              item.1 +:+ " — " +:+ PyText.show_Z (Z.of_nat (length item.2))
              +:+ " episodes excluded" +:+ nl) <$> sorted_items grouped_shows)
       ++ [nl +:+ "Total shows excluded: "
           +:+ PyText.show_Z (Z.of_nat (length grouped_shows)) +:+ nl;
           "=== End of Report ===" +:+ nl])%list.

(** The number of episodes over the show lines of the report. *)
Definition episodes_listed (groups : list (string * list string)) : nat :=
  sum_list_with (fun item => length item.2) groups.

(** [a <= b] on strings *)
Definition str_le (a b : string) : Prop := String.leb a b = true.

(** ** Configuration helpers ([config.py]) *)

Module Config.

(** The values [json.loads] gives for the settings read below.  Arrays and
    objects are not looked into by these helpers. *)
Inductive Json :=
| JNull
| JBool (b : bool)
| JInt (z : Z)
| JFloat (q : Q)
| JStr (s : string)
| JArray
| JObject.

(** [_coerce_bool(val, default)] *)
Definition _coerce_bool (val : Json) (default : bool) : bool :=
  match val with
  | JBool b => b
  | JStr s => String.eqb (PyText.lower (PyText.strip s)) "true"
  | _ => default
  end.

(** [data.get(key, fallback)] on the parsed object: [None] stands for a key
    that is absent. *)
Definition data_get (entry : option Json) (fallback : Json) : Json :=
  default fallback entry.

(** Line 90: [dry_run=_coerce_bool(data.get("dry_run", False))]; the second
    argument of [_coerce_bool] is left at its default [False]. *)
Definition dry_run_setting (entry : option Json) : bool :=
  _coerce_bool (data_get entry (JBool false)) false.

(** Line 94: [write_non_us_report=_coerce_bool(data.get("write_non_us_report", True))] *)
Definition write_non_us_report_setting (entry : option Json) : bool :=
  _coerce_bool (data_get entry (JBool true)) false.

(** [_detect_storage_type(path)], from the anchor of the resolved path;
    [None] stands for a [resolve()] that raised. *)
Definition _detect_storage_type (anchor : option string) : string :=
  match anchor with
  | Some mount_point =>
      if String.prefix "/dev/nvme" mount_point || String.prefix "/dev/sda" mount_point
      then "ssd"
      else if String.prefix "/dev/sd" mount_point then "hdd"
      else "ssd"
  | None => "ssd"
  end.

(** [_optimize_max_workers(storage_type, cpu_count)] *)
Definition _optimize_max_workers (storage_type : string) (cpu_count : Z) : Z :=
  if String.eqb storage_type "ssd" then Z.min (cpu_count * 4) 32
  else Z.min (cpu_count * 2) 16.

(** Lines 66 to 75 of [load_config]: the [max_workers] the configuration
    ends with.  [mw] is [data.get("max_workers")] ([JNull] when the key is
    absent), [os_cpu_count] the reading of [os.cpu_count()], [anchor] as for
    [_detect_storage_type]. *)
Definition is_auto (mw : Json) : bool :=
  match mw with
  | JNull => true
  | JStr s => String.eqb (PyText.lower s) "auto" || String.eqb (PyText.lower s) "max"
  | _ => false
  end.

Definition load_max_workers (mw : Json) (os_cpu_count : option Z)
    (anchor : option string) : Json :=
  if is_auto mw then
    let cpu_count :=
      match os_cpu_count with
      | Some n => if Z.eqb n 0 then 8 else n
      | None => 8
      end in
    JInt (_optimize_max_workers (_detect_storage_type anchor) cpu_count)
  else mw.

End Config.

(** Every character of [s] is whitespace. *)
Fixpoint all_space (s : string) : bool :=
  match s with
  | String c r => PyText.is_space c && all_space r
  | EmptyString => true
  end.

(** ** The web progress tracker ([utils/web_progress_tracker.py]) *)

Module WebTracker.

Inductive WebProgressPhase :=
| IDLE | UPLOADING | CONFIGURING | PROCESSING | SCANNING_LOCAL | PARSING_M3U
| FILTERING_TMDB | CREATING_STRM | CLEANUP | COMPLETE | ERROR.

#[global] Instance WebProgressPhase_eq_dec : EqDecision WebProgressPhase.
Proof. solve_decision. Defined.

(** The members in definition order, the order [__init__] fills
    [_web_phases] in and so the order its items are iterated in. *)
Definition all_web_phases : list WebProgressPhase :=
  [IDLE; UPLOADING; CONFIGURING; PROCESSING; SCANNING_LOCAL; PARSING_M3U;
   FILTERING_TMDB; CREATING_STRM; CLEANUP; COMPLETE; ERROR].

(** [phase.value] *)
Definition value (ph : WebProgressPhase) : string :=
  match ph with
  | IDLE => "Idle"
  | UPLOADING => "Uploading File"
  | CONFIGURING => "Configuring"
  | PROCESSING => "Processing"
  | SCANNING_LOCAL => "Scanning Local Media"
  | PARSING_M3U => "Parsing M3U Playlist"
  | FILTERING_TMDB => "TMDb Filtering"
  | CREATING_STRM => "Creating STRM Files"
  | CLEANUP => "Cleanup & Finalization"
  | COMPLETE => "Complete"
  | ERROR => "Error"
  end.

Record WebPhaseProgress := mkWebPhase {
  phase : WebProgressPhase;
  progress : Q;
  processed : Z;
  total : Z;
  current_item : string;
  items_per_second : Q;
  elapsed_time : Q;
  started_at : option Q;
  completed_at : option Q;
  error_message : option string
}.

(** [WebPhaseProgress(phase=phase)] *)
Definition new_web_phase (ph : WebProgressPhase) : WebPhaseProgress :=
  mkWebPhase ph 0 0 0 "" 0 0 None None None.

(** The tracker's phase records, current phase, statistics and start time.
    [_web_phases] has a record for every member from [__init__] on and no
    key is ever removed, so it is kept as a function of the member.  The
    lock, the observers and the client queues hold no progress and are left
    out; what is sent to them is returned as events. *)
Record WebProgressTracker := mkWebTracker {
  _web_phases : WebProgressPhase -> WebPhaseProgress;
  _current_web_phase : WebProgressPhase;
  _stats : TrackerViews.ProcessingStats;
  _start_time : Q
}.

(** [WebProgressTracker()] at time [now] *)
Definition new_web_tracker (now : Q) : WebProgressTracker :=
  mkWebTracker new_web_phase IDLE TrackerViews.new_stats now.

(** [self._web_phases[ph]], updated in place *)
Definition set_web_phase (ph : WebProgressPhase) (p : WebPhaseProgress)
    (m : WebProgressPhase -> WebPhaseProgress) : WebProgressPhase -> WebPhaseProgress :=
  fun q => if decide (q = ph) then p else m q.

(** [phase_weights.get(phase, 1.0)] *)
Definition phase_weight (ph : WebProgressPhase) : Q :=
  match ph with
  | UPLOADING => 5
  | CONFIGURING => 5
  | SCANNING_LOCAL => 15
  | PARSING_M3U => 20
  | FILTERING_TMDB => 25
  | CREATING_STRM => 25
  | CLEANUP => 5
  | _ => 1
  end.

(** [sum(phase_weights.values())] *)
Definition total_weight : Q := TrackerViews.py_sum [5; 5; 15; 20; 25; 25; 5]%Q.

(** One turn of the loop of [_calculate_overall_progress]. *)
Definition add_weighted (w : WebProgressTracker) (weighted_progress : Q)
    (ph : WebProgressPhase) : Q :=
  let p := _web_phases w ph in
  let weight := phase_weight ph in
  if Tracker.truthy (completed_at p) then (weighted_progress + weight)%Q
  else if Tracker.truthy (started_at p)
       then (weighted_progress + progress p / 100 * weight)%Q
       else weighted_progress.

(** [_calculate_overall_progress()] *)
Definition _calculate_overall_progress (w : WebProgressTracker) : Q :=
  let weighted_progress := fold_left (add_weighted w) all_web_phases 0%Q in
  TrackerViews.py_min 100 (weighted_progress / total_weight * 100)%Q.

(** [l[-n:]] for [n > 0] *)
Definition last_items {A} (n : nat) (l : list A) : list A := drop (length l - n) l.

(** The dictionary [get_web_progress()] returns. *)
Record WebProgress := mkWebProgress {
  wp_current_phase : string;
  wp_phase_progress : Q;
  wp_overall_progress : Q;
  wp_processed : Z;
  wp_total : Z;
  wp_current_item : string;
  wp_items_per_second : Q;
  wp_elapsed_time : Q;
  wp_stats : TrackerViews.ProcessingStats;
  wp_error_message : option string;
  wp_is_complete : bool;
  wp_is_error : bool
}.

Definition get_web_progress (w : WebProgressTracker) : WebProgress :=
  let current_phase := _web_phases w (_current_web_phase w) in
  let s := _stats w in
  mkWebProgress
    (value (_current_web_phase w))
    (progress current_phase)
    (_calculate_overall_progress w)
    (processed current_phase)
    (total current_phase)
    (current_item current_phase)
    (items_per_second current_phase)
    (elapsed_time current_phase)
    (TrackerViews.mkStats
       (TrackerViews.movies_found s) (TrackerViews.movies_allowed s)
       (TrackerViews.movies_excluded s) (TrackerViews.tv_episodes_found s)
       (TrackerViews.tv_episodes_allowed s) (TrackerViews.tv_episodes_excluded s)
       (TrackerViews.documentaries_found s) (TrackerViews.documentaries_allowed s)
       (TrackerViews.documentaries_excluded s) (TrackerViews.strm_created s)
       (TrackerViews.strm_skipped s) (TrackerViews.strm_orphaned s)
       (last_items 10 (TrackerViews.errors s)))
    (error_message current_phase)
    (bool_decide (_current_web_phase w = COMPLETE))
    (bool_decide (_current_web_phase w = ERROR)).

Inductive PyError :=
| AttributeError (name : string)
| TypeError.

(** What a call lets out: the data [_broadcast_update] hands to the
    observers and the client queues, and the errors the bridge logs. *)
Inductive WebEvent :=
| Broadcast (data : WebProgress)
| ErrorLogged (e : PyError).

(** [start_web_phase(phase, total_items)] at time [now] *)
Definition start_web_phase (now : Q) (ph : WebProgressPhase) (total_items : Z)
    (w : WebProgressTracker) : WebProgressTracker * list WebEvent :=
  let p := _web_phases w ph in
  let p' := mkWebPhase (phase p) 0 0 total_items (current_item p) (items_per_second p)
              (elapsed_time p) (Some now) (completed_at p) None in
  let w' := mkWebTracker (set_web_phase ph p' (_web_phases w)) ph (_stats w)
              (_start_time w) in
  (w', [Broadcast (get_web_progress w')]).

(** [update_web_phase(phase, progress, processed, total, current_item,
    items_per_second)] at time [now]; [None] is an argument left at its
    default. *)
Definition update_web_phase (now : Q) (ph : WebProgressPhase) (progress_arg : option Q)
    (processed_arg total_arg : option Z) (item : string) (ips_arg : option Q)
    (w : WebProgressTracker) : WebProgressTracker * list WebEvent :=
  let p := _web_phases w ph in
  let p' :=
    mkWebPhase (phase p)
      (match progress_arg with
       | Some v => TrackerViews.py_min 100 (TrackerViews.py_max 0 v)
       | None => progress p
       end)
      (default (processed p) processed_arg)
      (default (total p) total_arg)
      (if decide (item = "") then current_item p else PyText.slice_to 100 item)
      (default (items_per_second p) ips_arg)
      (match started_at p with
       | Some s => if Tracker.truthy (Some s) then (now - s)%Q else elapsed_time p
       | None => elapsed_time p
       end)
      (started_at p) (completed_at p) (error_message p) in
  let w' := mkWebTracker (set_web_phase ph p' (_web_phases w)) (_current_web_phase w)
              (_stats w) (_start_time w) in
  (w', [Broadcast (get_web_progress w')]).

(** [complete_web_phase(phase, success, error_message)] at time [now];
    [success] only chooses the log line. *)
Definition complete_web_phase (now : Q) (ph : WebProgressPhase) (success : bool)
    (msg : option string) (w : WebProgressTracker) : WebProgressTracker * list WebEvent :=
  let p := _web_phases w ph in
  let p' := mkWebPhase (phase p) 100 (processed p) (total p) (current_item p)
              (items_per_second p) (elapsed_time p) (started_at p) (Some now) msg in
  let w' := mkWebTracker (set_web_phase ph p' (_web_phases w)) (_current_web_phase w)
              (_stats w) (_start_time w) in
  (w', [Broadcast (get_web_progress w')]).

(** [set_error(error_message)] *)
Definition set_error (msg : string) (w : WebProgressTracker)
    : WebProgressTracker * list WebEvent :=
  let w' :=
    mkWebTracker
      (fun q =>
         let p := _web_phases w q in
         mkWebPhase (phase p) (progress p) (processed p) (total p) (current_item p)
           (items_per_second p) (elapsed_time p) (started_at p) (completed_at p)
           (Some msg))
      ERROR (_stats w) (_start_time w) in
  (w', [Broadcast (get_web_progress w')]).

(** [reset()] at time [now] *)
Definition reset (now : Q) (w : WebProgressTracker) : WebProgressTracker * list WebEvent :=
  let w' :=
    mkWebTracker (fun q => mkWebPhase (phase (_web_phases w q)) 0 0 0 "" 0 0 None None None)
      IDLE TrackerViews.new_stats now in
  (w', [Broadcast (get_web_progress w')]).

(** The calls that write to the tracker, each naming its phase by a member
    of the enumeration (the only keys [_web_phases] has). *)
Inductive WebCall :=
| StartWeb (ph : WebProgressPhase) (total_items : Z)
| UpdateWeb (ph : WebProgressPhase) (progress_arg : option Q)
    (processed_arg total_arg : option Z) (item : string) (ips_arg : option Q)
| CompleteWeb (ph : WebProgressPhase) (success : bool) (msg : option string)
| SetError (msg : string)
| Reset.

Definition web_step (now : Q) (c : WebCall) (w : WebProgressTracker)
    : WebProgressTracker * list WebEvent :=
  match c with
  | StartWeb ph n => start_web_phase now ph n w
  | UpdateWeb ph pr n t item ips => update_web_phase now ph pr n t item ips w
  | CompleteWeb ph ok msg => complete_web_phase now ph ok msg w
  | SetError msg => set_error msg w
  | Reset => reset now w
  end.

(** The state after a sequence of calls, the [i]-th made at time [clock i],
    with everything they let out. *)
Fixpoint web_run (clock : nat -> Q) (i : nat) (w : WebProgressTracker) (cs : list WebCall)
    : WebProgressTracker * list WebEvent :=
  match cs with
  | [] => (w, [])
  | c :: rest =>
      let '(w1, out1) := web_step (clock i) c w in
      let '(w2, out2) := web_run clock (S i) w1 rest in
      (w2, (out1 ++ out2)%list)
  end.

(** The attributes of a [WebProgressTracker]: those [__init__] sets and the
    methods of the class. *)
Definition web_tracker_attributes : list string :=
  ["_lock"; "_web_phases"; "_current_web_phase"; "_stats"; "_start_time";
   "_callbacks"; "_websocket_clients"; "_shutdown_flag"; "_core_tracker";
   "_core_phase_mapping";
   "__init__"; "set_core_tracker"; "_on_core_progress_update"; "start_web_phase";
   "update_web_phase"; "complete_web_phase"; "set_error"; "get_web_progress";
   "_calculate_overall_progress"; "register_callback"; "_notify_callbacks";
   "_broadcast_update"; "add_websocket_client"; "remove_websocket_client";
   "reset"; "shutdown"].

(** [self._core_phase_mapping.get(phase)] *)
Definition _core_phase_mapping (ph : Tracker.ProgressPhase) : option WebProgressPhase :=
  match ph with
  | Tracker.SCANNING_LOCAL => Some SCANNING_LOCAL
  | Tracker.PARSING_M3U => Some PARSING_M3U
  | Tracker.FILTERING_TMDB => Some FILTERING_TMDB
  | Tracker.CREATING_STRM => Some CREATING_STRM
  | Tracker.CLEANUP => Some CLEANUP
  end.

(** [_on_core_progress_update(tracker)], the observer [set_core_tracker]
    registers with the core tracker; [core_stats] is the core tracker's
    [get_stats()].  The attribute [self._update_web_phase] is looked up
    before its arguments are evaluated; an attribute of the object called
    with the keyword [elapsed_time], which no method of the class takes,
    would raise as well.  Either error is caught and logged by the [except]
    clause, past the statistics and the broadcast. *)
Definition _on_core_progress_update (tracker : Tracker.ProgressTracker)
    (core_stats : TrackerViews.ProcessingStats) (w : WebProgressTracker)
    : WebProgressTracker * list WebEvent :=
  let finish :=
    let w' := mkWebTracker (_web_phases w) (_current_web_phase w) core_stats
                (_start_time w) in
    (w', [Broadcast (get_web_progress w')]) in
  match TrackerViews.get_current_phase tracker with
  | Some current_phase =>
      match _core_phase_mapping (Tracker.phase current_phase) with
      | Some web_phase =>
          if bool_decide ("_update_web_phase" ∈ web_tracker_attributes)
          then (w, [ErrorLogged TypeError])
          else (w, [ErrorLogged (AttributeError "_update_web_phase")])
      | None => finish
      end
  | None => finish
  end.

(** Every phase's percentage lies between 0 and 100. *)
Definition progress_in_range (w : WebProgressTracker) : Prop :=
  forall ph, (0 <= progress (_web_phases w ph) <= 100)%Q.

End WebTracker.

(** ** More concrete inputs *)

Definition heat_same : CacheRecord :=
  mkRecord "http://new/heat" (Some "/out/Movies/Heat.strm") (Some 1).

Definition cache_same : gmap string CacheRecord := {[ "movie:Heat" := heat_same ]}.

Definition two_updates : list TrackerViews.ItemUpdate :=
  [TrackerViews.mkItemUpdate 1 "a" true false; TrackerViews.mkItemUpdate 2 "b" false true].

Definition no_inherited : string -> bool := fun _ => false.

Definition tick_clock : nat -> Q := fun i => (inject_Z (Z.of_nat i) + 11)%Q.

(** * Properties *)

(** ** Text helpers on examples *)

Example search_marker_example :
  PyText.search_marker "Show.Name.S01E02.1080p" = Some (1, 2).
Proof. reflexivity. Qed.

Example sub_marker_example :
  PyText.strip (PyText.sub_marker "Show.Name.S01E02.1080p") = "Show.Name.".
Proof. reflexivity. Qed.

Example sub_marker_spaced :
  PyText.strip (PyText.sub_marker " The Show s1 e12 HD") = "The Show"
  /\ PyText.search_marker " The Show s1 e12 HD" = Some (1, 12).
Proof. split; reflexivity. Qed.

Example search_marker_none : PyText.search_marker "Some Show Special" = None.
Proof. reflexivity. Qed.

(** ** Dictionaries in insertion order *)

Section DictFacts.
Context {V : Type}.
Implicit Types (d : list (string * V)) (k : string) (v : V).

Lemma dict_get_set_eq k v d : dict_get k (dict_set k v d) = Some v.
Proof.
  induction d as [|[k' v'] d IH]; cbn [dict_set dict_get].
  - by destruct (decide (k = k)).
  - destruct (decide (k' = k)) as [->|Hne]; cbn [dict_get].
    + by destruct (decide (k = k)).
    + by destruct (decide (k' = k)).
Qed.

Lemma dict_get_set_ne k k' v d : k ≠ k' -> dict_get k' (dict_set k v d) = dict_get k' d.
Proof.
  intros Hne. induction d as [|[k0 v0] d IH]; cbn [dict_set dict_get].
  - by destruct (decide (k = k')).
  - destruct (decide (k0 = k)) as [->|Hk0]; cbn [dict_get].
    + by destruct (decide (k = k')).
    + destruct (decide (k0 = k')); [done | exact IH].
Qed.

Lemma dict_set_keys k v d :
  (dict_set k v d).*1 = if decide (k ∈ d.*1) then d.*1 else (d.*1 ++ [k])%list.
Proof.
  induction d as [|[k0 v0] d IH]; cbn [dict_set].
  - destruct (decide (k ∈ ([] : list (string * V)).*1)) as [Hin|Hin];
      [by inversion Hin | reflexivity].
  - destruct (decide (k0 = k)) as [->|Hk0]; rewrite !fmap_cons; cbn [fst].
    + destruct (decide (k ∈ k :: d.*1)) as [Hin|Hin]; [done |].
      exfalso. apply Hin. by left.
    + rewrite IH.
      destruct (decide (k ∈ d.*1)) as [Hin|Hin];
        destruct (decide (k ∈ k0 :: d.*1)) as [Hin'|Hin'].
      * done.
      * exfalso. apply Hin'. by right.
      * apply elem_of_cons in Hin' as [->|?]; [by exfalso; apply Hk0 | contradiction].
      * done.
Qed.

Lemma dict_set_NoDup k v d : NoDup d.*1 -> NoDup (dict_set k v d).*1.
Proof.
  intros Hnd. rewrite dict_set_keys. destruct (decide (k ∈ d.*1)); [done |].
  apply NoDup_app. split; [done |]. split; [| apply NoDup_singleton].
  intros x Hx Hx'. apply list_elem_of_singleton in Hx' as ->. contradiction.
Qed.

Lemma dict_get_elem k v d : dict_get k d = Some v -> (k, v) ∈ d.
Proof.
  induction d as [|[k0 v0] d IH]; cbn [dict_get]; [done |].
  destruct (decide (k0 = k)) as [->|Hk].
  - intros [= ->]. by left.
  - intros Hg. right. by apply IH.
Qed.

Lemma dict_elem_get k v d : NoDup d.*1 -> (k, v) ∈ d -> dict_get k d = Some v.
Proof.
  induction d as [|[k0 v0] d IH]; cbn [dict_get]; intros Hnd Hin.
  - by apply elem_of_nil in Hin.
  - rewrite fmap_cons in Hnd. apply NoDup_cons in Hnd as [Hk0 Hnd].
    destruct (decide (k0 = k)) as [->|Hk].
    + apply elem_of_cons in Hin as [[= ->]|Hin]; [done |].
      exfalso. apply Hk0. apply list_elem_of_fmap. by exists (k, v).
    + apply elem_of_cons in Hin as [[= -> ->]|Hin]; [done | by apply IH].
Qed.

Lemma dict_get_None k d : dict_get k d = None <-> k ∉ d.*1.
Proof.
  induction d as [|[k0 v0] d IH]; cbn [dict_get].
  - split; [intros _ Hin; inversion Hin | done].
  - rewrite fmap_cons. cbn [fst]. destruct (decide (k0 = k)) as [->|Hk].
    + split; [done |]. intros Hn. exfalso. apply Hn. by left.
    + rewrite IH, not_elem_of_cons. intuition congruence.
Qed.

Lemma dict_get_Some_key k d : is_Some (dict_get k d) <-> k ∈ d.*1.
Proof.
  rewrite <- not_eq_None_Some, dict_get_None.
  split; [apply dec_stable | auto].
Qed.

End DictFacts.

(** ** Deduplication *)

Section DedupFacts.
Context `{Collaborators}.
Implicit Types (e : VODEntry) (l : list VODEntry) (k : string).

Lemma dedup_dict_snoc l e :
  dedup_dict (l ++ [e]) = dict_set (entry_key e) e (dedup_dict l).
Proof. unfold dedup_dict. by rewrite fold_left_app. Qed.

Lemma dedup_dict_NoDup l : NoDup (dedup_dict l).*1.
Proof.
  induction l as [|e l IH] using rev_ind.
  - apply NoDup_nil_2.
  - rewrite dedup_dict_snoc. by apply dict_set_NoDup.
Qed.

Lemma dedup_dict_keys l k : k ∈ (dedup_dict l).*1 <-> k ∈ entry_key <$> l.
Proof.
  induction l as [|e l IH] using rev_ind.
  - done.
  - rewrite dedup_dict_snoc, dict_set_keys, fmap_app, elem_of_app, <- IH.
    cbn [fmap list_fmap]. rewrite list_elem_of_singleton.
    destruct (decide (entry_key e ∈ (dedup_dict l).*1)) as [Hin|Hin].
    + split; [by left |]. intros [?| ->]; done.
    + by rewrite elem_of_app, list_elem_of_singleton.
Qed.

Lemma dedup_dict_get l k e :
  dict_get k (dedup_dict l) = Some e <-> entry_key e = k /\ last_occurrence e l.
Proof.
  revert e. induction l as [|x l IH] using rev_ind; intros e.
  - split; [done |]. intros [_ (l1 & l2 & Hl & _)]. by destruct l1.
  - rewrite dedup_dict_snoc. destruct (decide (entry_key x = k)) as [<-|Hxk].
    + rewrite dict_get_set_eq. split.
      * intros [= <-]. split; [done |]. exists l, []. split; [done |].
        intros e' He'. by apply elem_of_nil in He'.
      * intros [Hk (l1 & l2 & Hl & Hlast)].
        destruct l2 as [|y l2 _] using rev_ind.
        -- apply app_inj_tail in Hl as [_ ->]. done.
        -- rewrite app_comm_cons, app_assoc in Hl.
           apply app_inj_tail in Hl as [_ <-].
           exfalso. apply (Hlast x); [| done].
           apply elem_of_app. right. by left.
    + rewrite dict_get_set_ne by done. rewrite IH. split.
      * intros [Hk (l1 & l2 & -> & Hlast)]. split; [done |].
        exists l1, (l2 ++ [x])%list. split; [by rewrite <- app_assoc |].
        intros e' [He'|He']%elem_of_app; [by apply Hlast |].
        apply list_elem_of_singleton in He' as ->. congruence.
      * intros [Hk (l1 & l2 & Hl & Hlast)]. split; [done |].
        destruct l2 as [|y l2 _] using rev_ind.
        -- apply app_inj_tail in Hl as [_ ->]. done.
        -- rewrite app_comm_cons, app_assoc in Hl.
           apply app_inj_tail in Hl as [-> <-].
           exists l1, l2. split; [done |].
           intros e' He'. apply Hlast, elem_of_app. by left.
Qed.

Lemma dedup_dict_keyed l k e : (k, e) ∈ dedup_dict l -> entry_key e = k.
Proof.
  intros Hin. apply (dict_elem_get _ _ _ (dedup_dict_NoDup l)) in Hin.
  by apply dedup_dict_get in Hin as [? _].
Qed.

Lemma dedup_entries_keys l : entry_key <$> dedup_entries l = (dedup_dict l).*1.
Proof.
  unfold dedup_entries. rewrite <- list_fmap_compose.
  apply list_fmap_ext. intros i [k e] Hin. simpl.
  apply list_elem_of_lookup_2 in Hin. by apply dedup_dict_keyed in Hin.
Qed.

Lemma dedup_entries_NoDup l : NoDup (entry_key <$> dedup_entries l).
Proof. rewrite dedup_entries_keys. apply dedup_dict_NoDup. Qed.

Lemma dedup_entries_elem l e : e ∈ dedup_entries l <-> last_occurrence e l.
Proof.
  unfold dedup_entries. rewrite list_elem_of_fmap. split.
  - intros [[k e'] [-> Hin]]. simpl.
    apply (dict_elem_get _ _ _ (dedup_dict_NoDup l)) in Hin.
    by apply dedup_dict_get in Hin as [_ ?].
  - intros Hlast. exists (entry_key e, e). split; [done |].
    apply dict_get_elem. by apply dedup_dict_get.
Qed.

Lemma dedup_entries_length l :
  length (dedup_entries l) = size (list_to_set (entry_key <$> l) : gset string).
Proof.
  rewrite <- (length_fmap entry_key), dedup_entries_keys.
  rewrite <- (size_list_to_set (C := gset string)) by apply dedup_dict_NoDup.
  f_equal. apply set_eq. intros k.
  by rewrite !elem_of_list_to_set, dedup_dict_keys.
Qed.

(** Among retained entries the key determines the entry. *)
Lemma dedup_entries_key_inj l e e' :
  e ∈ dedup_entries l -> e' ∈ dedup_entries l -> entry_key e = entry_key e' -> e = e'.
Proof.
  intros He He' Hk.
  apply dedup_entries_elem in He, He'.
  assert (dict_get (entry_key e) (dedup_dict l) = Some e) as H1
    by by apply dedup_dict_get.
  assert (dict_get (entry_key e) (dedup_dict l) = Some e') as H2
    by by apply dedup_dict_get.
  congruence.
Qed.

End DedupFacts.

(** ** The Creating-STRM phase and the run *)

Section PipelineFacts.
Context `{Collaborators}.

Lemma batch_writer_unbound : resolves "batch_write_strm_files" = false.
Proof. vm_compute. reflexivity. Qed.

Lemma batch_step_raises n_ops i batch st :
  batch_step n_ops i batch st = (Some (NameError "batch_write_strm_files"), st).
Proof. unfold batch_step. by rewrite batch_writer_unbound. Qed.

Lemma batch_loop_cases n_ops i batches st :
  batch_loop n_ops i batches st =
    match batches with
    | [] => (None, st)
    | _ :: _ => (Some (NameError "batch_write_strm_files"), st)
    end.
Proof. destruct batches; [done |]. cbn [batch_loop]. by rewrite batch_step_raises. Qed.

Lemma slices_cases {A} n (l : list A) :
  slices n l =
    match l with
    | [] => []
    | _ :: l' => take n l :: slices_fuel (length l') n (drop n l)
    end.
Proof. by destruct l. Qed.

Lemma creating_strm_phase_cases force ek sc allowed excluded :
  creating_strm_phase force ek sc allowed excluded =
    let n_allowed := Z.of_nat (length allowed) in
    let ops := (first_pass force ek sc allowed).1 in
    let skipped := (first_pass force ek sc allowed).2 in
    match ops with
    | [] =>
        (None,
         mkSync 0 skipped (record_excluded excluded sc)
           [Tracker.Start Tracker.CREATING_STRM 0;
            Tracker.Start Tracker.CREATING_STRM n_allowed;
            Tracker.Update Tracker.CREATING_STRM n_allowed
              ("Created " +:+ PyText.show_Z 0 +:+ " STRMs, skipped "
               +:+ PyText.show_Z skipped) true false;
            Tracker.Complete Tracker.CREATING_STRM] [])
    | _ :: _ =>
        (Some (NameError "batch_write_strm_files"),
         mkSync 0 skipped sc
           [Tracker.Start Tracker.CREATING_STRM 0;
            Tracker.Start Tracker.CREATING_STRM n_allowed;
            Tracker.Complete Tracker.CREATING_STRM] [])
    end.
Proof.
  unfold creating_strm_phase.
  destruct (first_pass force ek sc allowed) as [ops skipped]. cbn [fst snd].
  rewrite batch_loop_cases, slices_cases. by destruct ops.
Qed.
End PipelineFacts.

Section PipelineFacts2.
Context `{Collaborators}.
Implicit Types (e : VODEntry) (l : list VODEntry) (k : string)
  (sc : gmap string CacheRecord) (ek : gset string).

(** *** The first pass *)

Lemma first_pass_queue_acc force ek sc l (acc : list FileOp * Z) op :
  op ∈ (fold_left
          (fun acc e =>
             match first_pass_decision force ek sc e with
             | Ignored => acc
             | Skipped => (acc.1, acc.2 + 1)
             | Write op => ((acc.1 ++ [op])%list, acc.2)
             end) l acc).1
  <-> op ∈ acc.1 \/ exists e, e ∈ l /\ first_pass_decision force ek sc e = Write op.
Proof.
  revert acc. induction l as [|x l IH]; intros acc; cbn [fold_left].
  - split; [by left |]. intros [?|(e & He & _)]; [done | by apply elem_of_nil in He].
  - rewrite IH. split.
    + intros [Hacc|(e & He & Hd)].
      * destruct (first_pass_decision force ek sc x) as [| |op'] eqn:Hx;
          cbn [fst] in Hacc; [by left | by left |].
        apply elem_of_app in Hacc as [?|Hop]; [by left |].
        apply list_elem_of_singleton in Hop as ->.
        right. exists x. split; [by left | done].
      * right. exists e. split; [by right | done].
    + intros [Hacc|(e & He & Hd)].
      * left. destruct (first_pass_decision force ek sc x); cbn [fst]; [done | done |].
        apply elem_of_app. by left.
      * apply elem_of_cons in He as [->|He].
        -- left. rewrite Hd. cbn [fst]. apply elem_of_app. right. by left.
        -- right. by exists e.
Qed.

Lemma first_pass_queue force ek sc l op :
  op ∈ (first_pass force ek sc l).1
  <-> exists e, e ∈ l /\ first_pass_decision force ek sc e = Write op.
Proof.
  unfold first_pass. rewrite first_pass_queue_acc. cbn [fst].
  split; [intros [Hnil|?]; [by apply elem_of_nil in Hnil | done] | by right].
Qed.

Lemma first_pass_queue_nil force ek sc l :
  (first_pass force ek sc l).1 = []
  <-> forall e op, e ∈ l -> first_pass_decision force ek sc e ≠ Write op.
Proof.
  split.
  - intros Hnil e op He Hd.
    assert (op ∈ (first_pass force ek sc l).1) as Hin
      by (apply first_pass_queue; eauto).
    rewrite Hnil in Hin. by apply elem_of_nil in Hin.
  - intros Hno. destruct (first_pass force ek sc l).1 as [|op ops] eqn:Hops; [done |].
    assert (op ∈ (first_pass force ek sc l).1) as Hin by (rewrite Hops; by left).
    apply first_pass_queue in Hin as (e & He & Hd). by destruct (Hno e op He).
Qed.

(** An entry whose key is in the existing-media index is never queued. *)
Lemma existing_media_not_queued force ek sc l op :
  op ∈ (first_pass force ek sc l).1 -> op_key op ∉ ek.
Proof.
  intros (e & _ & Hd)%first_pass_queue. unfold first_pass_decision in Hd.
  destruct (first_pass_target e) as [[key rel]|]; [| done].
  destruct (decide (key = "")); [done |].
  destruct (bool_decide (key ∈ ek)) eqn:Hek; [done |].
  apply bool_decide_eq_false in Hek.
  destruct (negb force && bool_decide (is_Some (sc !! key))); [done |].
  by injection Hd as <-.
Qed.

(** What the first pass tests before it skips an entry: membership of the
    key in the existing-media index or, unless regeneration is forced, in the
    prior cache; the record found there is not looked at. *)
Lemma first_pass_skip_condition force ek sc e key rel :
  first_pass_target e = Some (key, rel) -> key ≠ "" ->
  first_pass_decision force ek sc e = Skipped
  <-> key ∈ ek \/ (force = false /\ is_Some (sc !! key)).
Proof.
  intros Ht Hk. unfold first_pass_decision. rewrite Ht.
  destruct (decide (key = "")) as [|_]; [done |].
  destruct (bool_decide (key ∈ ek)) eqn:Hek.
  - apply bool_decide_eq_true in Hek. cbn [orb]. tauto.
  - apply bool_decide_eq_false in Hek. cbn [orb].
    destruct force; cbn [negb andb].
    + split; [done |]. intros [?|[? _]]; done.
    + destruct (bool_decide (is_Some (sc !! key))) eqn:Hsc.
      * apply bool_decide_eq_true in Hsc. tauto.
      * apply bool_decide_eq_false in Hsc. split; [done |].
        intros [?|[_ ?]]; done.
Qed.
(** *** Recording the excluded entries *)

Lemma record_excluded_snoc l e sc :
  record_excluded (l ++ [e]) sc = <[entry_key e := excluded_record e]> (record_excluded l sc).
Proof. unfold record_excluded. by rewrite fold_left_app. Qed.

Lemma record_excluded_other l sc k :
  k ∉ entry_key <$> l -> record_excluded l sc !! k = sc !! k.
Proof.
  induction l as [|e l IH] using rev_ind; [done |].
  rewrite fmap_app, not_elem_of_app. intros [Hl He].
  rewrite record_excluded_snoc, lookup_insert_ne; [by apply IH |].
  intros <-. apply He. by left.
Qed.

Lemma record_excluded_keeps l sc k :
  is_Some (sc !! k) -> is_Some (record_excluded l sc !! k).
Proof.
  intros Hk. induction l as [|e l IH] using rev_ind; [done |].
  rewrite record_excluded_snoc.
  destruct (decide (entry_key e = k)) as [<-|Hne].
  - rewrite lookup_insert_eq. eauto.
  - by rewrite lookup_insert_ne.
Qed.

Lemma record_excluded_entry l sc e :
  e ∈ l -> (forall e', e' ∈ l -> entry_key e' = entry_key e -> e' = e) ->
  record_excluded l sc !! entry_key e = Some (excluded_record e).
Proof.
  induction l as [|x l IH] using rev_ind; intros Hin Hinj.
  - by apply elem_of_nil in Hin.
  - rewrite record_excluded_snoc.
    destruct (decide (entry_key x = entry_key e)) as [Hk|Hk].
    + rewrite (Hinj x); [by rewrite lookup_insert_eq | | done].
      apply elem_of_app. right. by left.
    + rewrite lookup_insert_ne by done.
      apply elem_of_app in Hin as [Hin|Hx].
      * apply IH; [done |]. intros e' He'. apply Hinj, elem_of_app. by left.
      * apply list_elem_of_singleton in Hx as ->. done.
Qed.

Lemma record_excluded_fixed l sc :
  (forall e, e ∈ l -> sc !! entry_key e = Some (excluded_record e)) ->
  record_excluded l sc = sc.
Proof.
  induction l as [|x l IH] using rev_ind; intros Hall; [done |].
  rewrite record_excluded_snoc, IH.
  - apply insert_id, Hall, elem_of_app. right. by left.
  - intros e He. apply Hall, elem_of_app. by left.
Qed.

(** *** The run as a whole *)

Lemma run_completed force shutdown existing parsed sc stored :
  outcome (run_pipeline force shutdown existing parsed sc) = Completed stored ->
  shutdown Tracker.SCANNING_LOCAL = false
  /\ shutdown Tracker.PARSING_M3U = false
  /\ shutdown Tracker.FILTERING_TMDB = false
  /\ planned_writes force existing parsed sc = []
  /\ stored = record_excluded
                (excluded_entries (dom existing) sc (dedup_entries parsed)) sc.
Proof.
  unfold run_pipeline, planned_writes.
  destruct (shutdown Tracker.SCANNING_LOCAL); [done |].
  destruct (shutdown Tracker.PARSING_M3U); [done |].
  destruct (shutdown Tracker.FILTERING_TMDB); [done |].
  rewrite creating_strm_phase_cases. cbv zeta.
  destruct (first_pass _ _ _ _).1; cbn [outcome new_cache]; [| done].
  intros [= <-]. done.
Qed.

Lemma run_completes force shutdown existing parsed sc :
  shutdown Tracker.SCANNING_LOCAL = false ->
  shutdown Tracker.PARSING_M3U = false ->
  shutdown Tracker.FILTERING_TMDB = false ->
  planned_writes force existing parsed sc = [] ->
  outcome (run_pipeline force shutdown existing parsed sc)
  = Completed (record_excluded
                 (excluded_entries (dom existing) sc (dedup_entries parsed)) sc).
Proof.
  unfold run_pipeline, planned_writes. intros -> -> -> Hops.
  rewrite creating_strm_phase_cases. cbv zeta. by rewrite Hops.
Qed.

End PipelineFacts2.

(** ** A second run on the cache the first one stored *)

Section Idempotence.
Context `{Collaborators}.
Implicit Types (e : VODEntry) (l : list VODEntry) (k : string)
  (sc : gmap string CacheRecord) (ek : gset string).

Lemma allowed_entries_elem ek sc l e :
  e ∈ allowed_entries ek sc l <->
  e ∈ l /\ (cache_split ek sc e = ReusedAllowed
            \/ (cache_split ek sc e = ToCheck /\ market_allowed e = true)).
Proof.
  unfold allowed_entries, split_by_market_filter, split_list. cbn [fst].
  rewrite elem_of_app, !list_elem_of_filter. tauto.
Qed.

Lemma excluded_entries_elem ek sc l e :
  e ∈ excluded_entries ek sc l <->
  e ∈ l /\ (cache_split ek sc e = ReusedExcluded
            \/ (cache_split ek sc e = ToCheck /\ market_allowed e = false)).
Proof.
  unfold excluded_entries, split_by_market_filter, split_list. cbn [snd].
  rewrite elem_of_app, !list_elem_of_filter. tauto.
Qed.

(** Every entry ends up allowed or excluded. *)
Lemma allowed_or_excluded ek sc l e :
  e ∈ l -> e ∈ allowed_entries ek sc l \/ e ∈ excluded_entries ek sc l.
Proof.
  intros He. rewrite allowed_entries_elem, excluded_entries_elem.
  destruct (cache_split ek sc e), (market_allowed e); naive_solver.
Qed.

Lemma excluded_not_existing ek sc l e :
  e ∈ excluded_entries ek sc l -> entry_key e ∉ ek.
Proof.
  intros [_ Hs]%excluded_entries_elem. unfold cache_split in Hs.
  destruct (decide (entry_key e ∈ ek)); [| done].
  destruct Hs as [Hs|[Hs _]]; discriminate.
Qed.

(** [cache_split] reads the cache only at the entry's key. *)
Lemma cache_split_ext ek sc sc' e :
  sc' !! entry_key e = sc !! entry_key e -> cache_split ek sc' e = cache_split ek sc e.
Proof. unfold cache_split. by intros ->. Qed.

Lemma cache_split_recorded ek sc e :
  entry_key e ∉ ek -> sc !! entry_key e = Some (excluded_record e) ->
  cache_split ek sc e = ReusedExcluded.
Proof.
  intros Hk Hsc. unfold cache_split. rewrite decide_False by done.
  by rewrite Hsc.
Qed.

Section SecondRun.
Variables (force : bool) (existing : gmap string string) (parsed : list VODEntry)
  (sc : gmap string CacheRecord).

Let ek : gset string := dom existing.
Let entries := dedup_entries parsed.
Let sc1 := record_excluded (excluded_entries ek sc entries) sc.

Lemma stored_excluded e :
  e ∈ excluded_entries ek sc entries -> sc1 !! entry_key e = Some (excluded_record e).
Proof.
  intros He. apply record_excluded_entry; [done |].
  intros e' [He' _]%excluded_entries_elem Hk.
  apply excluded_entries_elem in He as [He _].
  by apply (dedup_entries_key_inj parsed).
Qed.

Lemma stored_other e :
  e ∈ entries -> e ∉ excluded_entries ek sc entries ->
  sc1 !! entry_key e = sc !! entry_key e.
Proof.
  intros He Hne. apply record_excluded_other.
  intros (e' & Hk & He')%list_elem_of_fmap. apply Hne.
  assert (e' ∈ entries) by by apply excluded_entries_elem in He' as [? _].
  by rewrite (dedup_entries_key_inj parsed e e').
Qed.

Lemma second_excluded e :
  e ∈ excluded_entries ek sc1 entries -> e ∈ excluded_entries ek sc entries.
Proof.
  intros He2. destruct (decide (e ∈ excluded_entries ek sc entries)) as [|Hne]; [done |].
  apply excluded_entries_elem in He2 as [He Hs].
  rewrite (cache_split_ext ek sc sc1) in Hs by by apply stored_other.
  by apply excluded_entries_elem.
Qed.

Lemma second_allowed e :
  e ∈ allowed_entries ek sc1 entries -> e ∈ allowed_entries ek sc entries.
Proof.
  intros [He Hs]%allowed_entries_elem.
  destruct (decide (e ∈ excluded_entries ek sc entries)) as [Hex|Hne].
  - rewrite (cache_split_recorded ek sc1 e) in Hs.
    + destruct Hs as [Hs|[Hs _]]; discriminate.
    + by eapply excluded_not_existing.
    + by apply stored_excluded.
  - rewrite (cache_split_ext ek sc sc1) in Hs by by apply stored_other.
    by apply allowed_entries_elem.
Qed.

Lemma second_pass_no_write e op :
  first_pass_decision force ek sc e ≠ Write op ->
  first_pass_decision force ek sc1 e ≠ Write op.
Proof.
  unfold first_pass_decision.
  destruct (first_pass_target e) as [[key rel]|]; [| done].
  destruct (decide (key = "")); [done |].
  destruct (bool_decide (key ∈ ek)); [done |]. cbn [orb].
  destruct force; cbn [negb andb]; [done |].
  destruct (bool_decide (is_Some (sc !! key))) eqn:Hsc;
    [| by intros ?; destruct (bool_decide (is_Some (sc1 !! key)))].
  apply bool_decide_eq_true in Hsc.
  rewrite bool_decide_eq_true_2; [done |]. by apply record_excluded_keeps.
Qed.

Lemma second_run_plans_nothing :
  planned_writes force existing parsed sc = [] ->
  planned_writes force existing parsed sc1 = [].
Proof.
  unfold planned_writes. rewrite !first_pass_queue_nil.
  intros Hno e op He. apply second_pass_no_write, Hno. by apply second_allowed.
Qed.

Lemma second_run_stores_same :
  record_excluded (excluded_entries ek sc1 entries) sc1 = sc1.
Proof.
  apply record_excluded_fixed. intros e He. by apply stored_excluded, second_excluded.
Qed.

End SecondRun.
End Idempotence.
(** ** The progress tracker *)

Section TrackerFacts.
Import Tracker.

Lemma set_phase_eq ph p m : set_phase ph p m ph = Some p.
Proof. unfold set_phase. by destruct (decide (ph = ph)). Qed.

Lemma set_phase_ne ph q p m : q ≠ ph -> set_phase ph p m q = m q.
Proof. unfold set_phase. intros Hne. by destruct (decide (q = ph)). Qed.

Lemma throughput_started now p n s :
  started_at p = Some s -> ~ (s == 0)%Q -> (0 < now - s)%Q ->
  throughput now p n = (inject_Z n / (now - s))%Q.
Proof.
  intros Hs Hnz Hpos. unfold throughput, truthy. rewrite Hs.
  destruct (Qeq_bool s 0) eqn:Heq.
  - apply Qeq_bool_iff in Heq. contradiction.
  - cbn [negb]. destruct (Qle_bool (now - s) 0) eqn:Hle; [| done].
    apply Qle_bool_iff in Hle. exfalso. by apply (Qlt_not_le _ _ Hpos).
Qed.

Lemma throughput_kept now p n :
  started_at p = None
  \/ (exists s, started_at p = Some s /\ ((s == 0)%Q \/ (now - s <= 0)%Q)) ->
  throughput now p n = items_per_second p.
Proof.
  unfold throughput, truthy. intros [Hs|(s & Hs & Hcase)]; rewrite Hs; [done |].
  destruct (Qeq_bool s 0) eqn:Heq; [done |]. cbn [negb].
  destruct Hcase as [Hz|Hle].
  - apply Qeq_bool_iff in Hz. congruence.
  - apply Qle_bool_iff in Hle. by rewrite Hle.
Qed.

(** C7, as amended: on a started phase (one the tracker tracks), whatever
    its start time and the clock, a per-item update sets [processed] and adds
    one to exactly one of the three outcome counters, unless it is called
    with both [success] and [skipped] true, in which case it adds one to the
    success counter and one to the skipped counter.  The throughput is set to
    processed divided by elapsed when the start time is non-zero and the time
    elapsed since the start is positive, and is left as it was otherwise. *)
Theorem update_phase_counts now t ph n item success skipped p :
  phases t ph = Some p ->
  exists p',
    phases (update_phase now ph n item success skipped t) ph = Some p'
    /\ processed p' = n
    /\ (success && skipped = false -> adds_exactly_one p p')
    /\ (success && skipped = true ->
        success_count p' = success_count p + 1
        /\ failure_count p' = failure_count p
        /\ skipped_count p' = skipped_count p + 1)
    /\ (forall s, started_at p = Some s -> ~ (s == 0)%Q -> (0 < now - s)%Q ->
        items_per_second p' = (inject_Z n / (now - s))%Q)
    /\ (started_at p = None
        \/ (exists s, started_at p = Some s /\ ((s == 0)%Q \/ (now - s <= 0)%Q)) ->
        items_per_second p' = items_per_second p).
Proof.
  intros Hp. unfold update_phase. rewrite Hp. cbn [phases].
  rewrite set_phase_eq. eexists. split; [reflexivity |].
  cbn [processed success_count failure_count skipped_count items_per_second].
  split; [done |]. split; [| split; [| split]].
  - unfold adds_exactly_one.
    cbn [success_count failure_count skipped_count].
    destruct success, skipped; cbn [andb negb]; intros; try done; auto.
  - destruct success, skipped; cbn [andb]; done.
  - intros s Hs Hnz Hpos. by apply throughput_started.
  - apply throughput_kept.
Qed.

(** C8, as amended: starting a phase that is already tracked sets its
    [processed] to zero, its total to the given one, clears the current item
    and takes a new start time; its success, failure and skipped counts, its
    completion timestamp and its throughput are kept as they were; no other
    phase changes. *)
Theorem start_phase_again now t ph total_items p :
  phases t ph = Some p ->
  exists p',
    phases (start_phase now ph total_items t) ph = Some p'
    /\ processed p' = 0 /\ total p' = total_items
    /\ current_item p' = "" /\ started_at p' = Some now
    /\ success_count p' = success_count p
    /\ failure_count p' = failure_count p
    /\ skipped_count p' = skipped_count p
    /\ completed_at p' = completed_at p
    /\ items_per_second p' = items_per_second p
    /\ forall q, q ≠ ph -> phases (start_phase now ph total_items t) q = phases t q.
Proof.
  intros Hp. unfold start_phase. rewrite Hp. cbn [phases].
  rewrite set_phase_eq. eexists. split; [reflexivity |].
  repeat split. intros q Hq. by apply set_phase_ne.
Qed.

End TrackerFacts.

(** ** The tracker calls of a run *)

Section TraceFacts.
Import Tracker.

(** A call leaves every phase but its own as it was. *)
Lemma step_frame now c t q :
  q ≠ call_phase c -> phases (step now c t) q = phases t q.
Proof.
  intros Hq. destruct c as [ph n|ph n item s k|ph n item a b d|ph]; cbn [step call_phase] in *.
  - unfold start_phase. cbn [phases]. by apply set_phase_ne.
  - unfold update_phase. destruct (phases t ph); [| done]. cbn [phases]. by apply set_phase_ne.
  - unfold batch_update_phase. destruct (phases t ph); [| done]. cbn [phases].
    by apply set_phase_ne.
  - unfold complete_phase. destruct (phases t ph); [| done]. cbn [phases].
    by apply set_phase_ne.
Qed.

Lemma start_frame now ph n t q :
  q ≠ ph -> phases (start_phase now ph n t) q = phases t q.
Proof. exact (step_frame now (Start ph n) t q). Qed.

Lemma update_frame now ph n item s k t q :
  q ≠ ph -> phases (update_phase now ph n item s k t) q = phases t q.
Proof. exact (step_frame now (Update ph n item s k) t q). Qed.

Lemma complete_frame now ph t q :
  q ≠ ph -> phases (complete_phase now ph t) q = phases t q.
Proof. exact (step_frame now (Complete ph) t q). Qed.

Lemma start_fresh now ph n t :
  phases t ph = None ->
  phases (start_phase now ph n t) ph
  = Some (mkPhaseProgress ph n 0 (Some now) None 0%Q "" 0 0 0).
Proof. intros Hp. unfold start_phase. rewrite Hp. cbn. by rewrite set_phase_eq. Qed.

Lemma start_started now ph n t p :
  phases t ph = Some p ->
  phases (start_phase now ph n t) ph
  = Some (mkPhaseProgress (phase p) n 0 (Some now) (completed_at p) (items_per_second p)
            "" (success_count p) (failure_count p) (skipped_count p)).
Proof. intros Hp. unfold start_phase. rewrite Hp. cbn. by rewrite set_phase_eq. Qed.

Lemma update_tracked now ph n item success skipped t p :
  phases t ph = Some p ->
  processed_of (update_phase now ph n item success skipped t) ph = n.
Proof.
  intros Hp. unfold processed_of, update_phase. rewrite Hp. cbn [phases].
  by rewrite set_phase_eq.
Qed.

Lemma complete_keeps_processed now ph t :
  processed_of (complete_phase now ph t) ph = processed_of t ph.
Proof.
  unfold processed_of, complete_phase. destruct (phases t ph) as [p|] eqn:Hp.
  - cbn [phases]. by rewrite set_phase_eq.
  - by rewrite Hp.
Qed.

(** It is enough to look at the phase the call is about. *)
Lemma call_respects_own now c t :
  (in_progress t (call_phase c) ->
   processed_of t (call_phase c) <= processed_of (step now c t) (call_phase c)) ->
  (forall ph, updated_phase c = Some ph -> in_progress t ph) ->
  call_respects now c t.
Proof.
  intros Hown Hupd. split; [| exact Hupd]. intros ph Hph.
  destruct (decide (ph = call_phase c)) as [->|Hne]; [by apply Hown |].
  unfold processed_of. rewrite step_frame by done. lia.
Qed.

Lemma start_respects_fresh now ph n t :
  phases t ph = None -> call_respects now (Start ph n) t.
Proof.
  intros Hfresh. apply call_respects_own; [| done].
  intros (p & Hp & _). cbn [call_phase] in Hp. congruence.
Qed.

Lemma start_respects_zero now ph n t p :
  phases t ph = Some p -> processed p = 0 -> call_respects now (Start ph n) t.
Proof.
  intros Hp Hzero. apply call_respects_own; [| done]. intros _.
  cbn [call_phase step]. unfold processed_of.
  rewrite (start_started _ _ _ _ _ Hp), Hp. cbn [processed]. lia.
Qed.

Lemma update_respects now ph m item s k t p :
  phases t ph = Some p -> is_Some (started_at p) -> completed_at p = None ->
  processed p <= m ->
  call_respects now (Update ph m item s k) t.
Proof.
  intros Hp Hs Hc Hm. apply call_respects_own.
  - intros _. cbn [call_phase step]. rewrite (update_tracked _ _ _ _ _ _ _ _ Hp).
    unfold processed_of. by rewrite Hp.
  - intros ph' [= <-]. by exists p.
Qed.

Lemma complete_respects now ph t : call_respects now (Complete ph) t.
Proof.
  apply call_respects_own; [| done]. intros _.
  cbn [call_phase step]. rewrite complete_keeps_processed. lia.
Qed.

(** A phase entered for the first time, updated once and completed: the
    shape of the phases 2 to 5 of a run. *)
Lemma segment_updated clock i t ph n m item rest :
  phases t ph = None -> 0 <= m ->
  (forall t', (forall q, q ≠ ph -> phases t' q = phases t q) ->
              processed_monotone clock (4 + i) t' rest) ->
  processed_monotone clock i t
    (Start ph 0 :: Start ph n :: Update ph m item true false :: Complete ph :: rest).
Proof.
  intros Hfresh Hm Hrest.
  cbn [processed_monotone step].
  pose proof (start_fresh (clock i) ph 0 t Hfresh) as H1.
  pose proof (start_started (clock (S i)) ph n _ _ H1) as H2.
  cbn [phase completed_at items_per_second success_count failure_count skipped_count] in H2.
  split; [by apply start_respects_fresh |].
  split; [by apply (start_respects_zero _ _ _ _ _ H1) |].
  split; [by apply (update_respects _ _ _ _ _ _ _ _ H2); [eexists | |] |].
  split; [apply complete_respects |].
  apply Hrest. intros q Hq.
  by rewrite complete_frame, update_frame, !start_frame.
Qed.

(** A phase entered for the first time and completed without an update:
    the shape of the first phase, and of a phase left early. *)
Lemma segment_silent clock i t ph n rest :
  phases t ph = None ->
  (forall t', (forall q, q ≠ ph -> phases t' q = phases t q) ->
              processed_monotone clock (3 + i) t' rest) ->
  processed_monotone clock i t (Start ph 0 :: Start ph n :: Complete ph :: rest).
Proof.
  intros Hfresh Hrest. cbn [processed_monotone step].
  pose proof (start_fresh (clock i) ph 0 t Hfresh) as H1.
  split; [by apply start_respects_fresh |].
  split; [by apply (start_respects_zero _ _ _ _ _ H1) |].
  split; [apply complete_respects |].
  apply Hrest. intros q Hq.
  by rewrite complete_frame, !start_frame.
Qed.

End TraceFacts.

Section RunTrace.
Context `{Collaborators}.
Import Tracker.

Ltac fresh_phase :=
  repeat match goal with
    | Hf : forall q, q ≠ _ -> phases ?t q = _ |- phases ?t _ = _ =>
        rewrite Hf by discriminate
    end;
  reflexivity.

(** C9: over the calls a run makes on the tracker, in order, no phase that
    is started and not yet completed ever loses [processed], whatever the
    call, and every per-item or batch update is made on a phase between its
    start and its completion. *)
Theorem pipeline_processed_monotone (clock : nat -> Q) force shutdown existing parsed sc :
  processed_monotone clock 0 new_tracker
    (tracker_calls (run_pipeline force shutdown existing parsed sc)).
Proof.
  unfold run_pipeline.
  destruct (shutdown SCANNING_LOCAL).
  { cbn [tracker_calls app]. apply segment_silent; [fresh_phase |]. intros; exact I. }
  destruct (shutdown PARSING_M3U).
  { cbn [tracker_calls app]. apply segment_silent; [fresh_phase |]. intros t1 H1.
    apply segment_silent; [fresh_phase |]. intros; exact I. }
  destruct (shutdown FILTERING_TMDB).
  { cbn [tracker_calls app]. apply segment_silent; [fresh_phase |]. intros t1 H1.
    apply segment_updated; [fresh_phase | lia |]. intros t2 H2.
    apply segment_silent; [fresh_phase |]. intros; exact I. }
  rewrite creating_strm_phase_cases. cbv zeta.
  destruct (first_pass _ _ _ _).1; cbn [tracker_calls calls app].
  - apply segment_silent; [fresh_phase |]. intros t1 H1.
    apply segment_updated; [fresh_phase | lia |]. intros t2 H2.
    apply segment_updated; [fresh_phase | lia |]. intros t3 H3.
    apply segment_updated; [fresh_phase | lia |]. intros t4 H4.
    apply segment_updated; [fresh_phase | lia |]. intros; exact I.
  - apply segment_silent; [fresh_phase |]. intros t1 H1.
    apply segment_updated; [fresh_phase | lia |]. intros t2 H2.
    apply segment_updated; [fresh_phase | lia |]. intros t3 H3.
    apply segment_silent; [fresh_phase |]. intros; exact I.
Qed.
End RunTrace.

(** ** The claims about the pipeline *)

Section PipelineClaims.
Context `{Collaborators}.
Implicit Types (e : VODEntry) (sc : gmap string CacheRecord) (ek : gset string).

(** C1: in the Creating-STRM phase the name [batch_write_strm_files] is
    bound neither in [run_pipeline] nor at module level, so the phase raises
    [NameError] as soon as the first pass has queued one entry, and with
    nothing queued it completes; in both cases the batch writer is never
    called.  A run that reaches the phase ends the same way. *)
Theorem creating_strm_raises_name_error force ek sc allowed excluded :
  resolves "batch_write_strm_files" = false
  /\ ((first_pass force ek sc allowed).1 ≠ [] ->
      (creating_strm_phase force ek sc allowed excluded).1
      = Some (NameError "batch_write_strm_files"))
  /\ ((first_pass force ek sc allowed).1 = [] ->
      (creating_strm_phase force ek sc allowed excluded).1 = None)
  /\ writes (creating_strm_phase force ek sc allowed excluded).2 = []
  /\ forall shutdown existing parsed,
      shutdown Tracker.SCANNING_LOCAL = false ->
      shutdown Tracker.PARSING_M3U = false ->
      shutdown Tracker.FILTERING_TMDB = false ->
      writer_calls (run_pipeline force shutdown existing parsed sc) = []
      /\ (planned_writes force existing parsed sc ≠ [] ->
          outcome (run_pipeline force shutdown existing parsed sc)
          = Raised (NameError "batch_write_strm_files"))
      /\ (planned_writes force existing parsed sc = [] ->
          exists stored,
            outcome (run_pipeline force shutdown existing parsed sc) = Completed stored).
Proof.
  split; [apply batch_writer_unbound |].
  rewrite creating_strm_phase_cases. cbv zeta.
  split; [| split; [| split]].
  - by destruct (first_pass force ek sc allowed).1.
  - by intros ->.
  - by destruct (first_pass force ek sc allowed).1.
  - intros shutdown existing parsed H1 H2 H3.
    unfold run_pipeline, planned_writes. rewrite H1, H2, H3.
    rewrite creating_strm_phase_cases. cbv zeta.
    destruct (first_pass _ _ _ _).1; cbn [outcome writer_calls writes].
    + split; [done |]. split; [done |]. eauto.
    + split; [done |]. split; [done |]. done.
Qed.

(** C3 (corrected form): the cache a completed run stores is the pre-run
    cache with this run's exclusion records written over it.  Every key of
    the pre-run cache is still present, and a key that no excluded entry of
    this run has, in particular a key of no playlist entry at all, keeps its
    prior record. *)
Theorem stored_cache_keeps_prior_records force shutdown existing parsed sc stored :
  outcome (run_pipeline force shutdown existing parsed sc) = Completed stored ->
  stored = record_excluded (excluded_entries (dom existing) sc (dedup_entries parsed)) sc
  /\ (forall k, is_Some (sc !! k) -> is_Some (stored !! k))
  /\ (forall k,
        k ∉ entry_key <$> excluded_entries (dom existing) sc (dedup_entries parsed) ->
        stored !! k = sc !! k)
  /\ (forall k, k ∉ entry_key <$> parsed -> stored !! k = sc !! k)
  /\ (forall e,
        e ∈ excluded_entries (dom existing) sc (dedup_entries parsed) ->
        stored !! entry_key e = Some (excluded_record e)).
Proof.
  intros (_ & _ & _ & _ & ->)%run_completed.
  split; [done |]. split; [| split; [| split]].
  - intros k. apply record_excluded_keeps.
  - intros k. apply record_excluded_other.
  - intros k Hk. apply record_excluded_other.
    intros (e & -> & [He _]%excluded_entries_elem)%list_elem_of_fmap.
    apply Hk, dedup_dict_keys. rewrite <- dedup_entries_keys.
    apply list_elem_of_fmap. by exists e.
  - intros e He. by apply stored_excluded.
Qed.

(** When a run has stored a pointer cache, running again on the same
    playlist, the same existing-media index and the cache just stored queues
    no write and stores that same cache.  Only a run that queued no write
    stores one. *)
Lemma rerun_is_idempotent force shutdown existing parsed sc stored :
  outcome (run_pipeline force shutdown existing parsed sc) = Completed stored ->
  planned_writes force existing parsed stored = []
  /\ outcome (run_pipeline force shutdown existing parsed stored) = Completed stored.
Proof.
  intros (H1 & H2 & H3 & Hops & ->)%run_completed.
  pose proof (second_run_plans_nothing force existing parsed sc Hops) as Hops2.
  split; [exact Hops2 |].
  rewrite run_completes by done. f_equal. apply second_run_stores_same.
Qed.

(** A run that queues a write never gets to store a cache: it raises at the
    unbound batch writer, the database keeps the prior cache, and a re-run on
    the same inputs queues the same writes again. *)
Lemma writing_run_repeats force shutdown existing parsed sc :
  shutdown Tracker.SCANNING_LOCAL = false ->
  shutdown Tracker.PARSING_M3U = false ->
  shutdown Tracker.FILTERING_TMDB = false ->
  planned_writes force existing parsed sc ≠ [] ->
  outcome (run_pipeline force shutdown existing parsed sc)
  = Raised (NameError "batch_write_strm_files")
  /\ cache_after sc (run_pipeline force shutdown existing parsed sc) = sc
  /\ planned_writes force existing parsed
       (cache_after sc (run_pipeline force shutdown existing parsed sc))
     = planned_writes force existing parsed sc.
Proof.
  intros H1 H2 H3 Hops.
  assert (outcome (run_pipeline force shutdown existing parsed sc)
          = Raised (NameError "batch_write_strm_files")) as Hout.
  { revert Hops. unfold run_pipeline, planned_writes. rewrite H1, H2, H3.
    rewrite creating_strm_phase_cases. cbv zeta.
    by destruct (first_pass _ _ _ _).1. }
  unfold cache_after. by rewrite Hout.
Qed.

(** C6: deduplication keeps one entry per identity key, as many as there
    are distinct keys, and the entry kept is the last one in file order with
    its key; "Show.Name.S01E02.1080p" followed by "Show.Name.S01E02.720p"
    have one TV key and only the second is kept. *)
Theorem dedup_keeps_last_occurrence (parsed : list VODEntry) :
  length (dedup_entries parsed) = size (list_to_set (entry_key <$> parsed) : gset string)
  /\ NoDup (entry_key <$> dedup_entries parsed)
  /\ (forall e, e ∈ dedup_entries parsed <-> last_occurrence e parsed)
  /\ forall s1 s2 u1 u2 y1 y2,
       let hd := mkEntry "Show.Name.S01E02.1080p" s1 u1 TVSHOW y1 in
       let sd := mkEntry "Show.Name.S01E02.720p" s2 u2 TVSHOW y2 in
       entry_key hd = canonical_tv_key "Show.Name." 1 2
       /\ entry_key sd = canonical_tv_key "Show.Name." 1 2
       /\ dedup_entries [hd; sd] = [sd].
Proof.
  split; [apply dedup_entries_length |].
  split; [apply dedup_entries_NoDup |].
  split; [apply dedup_entries_elem |].
  intros s1 s2 u1 u2 y1 y2 hd sd.
  assert (entry_key hd = canonical_tv_key "Show.Name." 1 2) as Hhd by reflexivity.
  assert (entry_key sd = canonical_tv_key "Show.Name." 1 2) as Hsd by reflexivity.
  clearbody hd sd.
  split; [exact Hhd |]. split; [exact Hsd |].
  unfold dedup_entries, dedup_dict. cbn [fold_left dict_set].
  rewrite Hhd, Hsd.
  destruct (decide (canonical_tv_key "Show.Name." 1 2 = canonical_tv_key "Show.Name." 1 2));
    [reflexivity | contradiction].
Qed.

(** C10: a MOVIE entry and a DOCUMENTARY entry with the same raw title have
    the same identity key, the canonical movie key of that title; so
    deduplication keeps a single entry for the two, and both address one
    record of the cache. *)
Theorem movie_and_documentary_share_key (m d : VODEntry) :
  category m = MOVIE -> category d = DOCUMENTARY -> raw_title m = raw_title d ->
  entry_key m = canonical_movie_key (raw_title m)
  /\ entry_key d = canonical_movie_key (raw_title m)
  /\ dedup_entries [m; d] = [d]
  /\ (forall parsed, m ∈ parsed -> d ∈ parsed ->
        exists kept,
          kept ∈ dedup_entries parsed /\ entry_key kept = entry_key m
          /\ forall e, e ∈ dedup_entries parsed -> entry_key e = entry_key m -> e = kept)
  /\ (forall parsed, ~ (m ∈ dedup_entries parsed /\ d ∈ dedup_entries parsed))
  /\ (forall sc, sc !! entry_key m = sc !! entry_key d)
  /\ (forall sc r, <[entry_key m := r]> sc !! entry_key d = Some r).
Proof.
  intros Hm Hd Ht.
  assert (entry_key m = canonical_movie_key (raw_title m)) as Hkm
    by (unfold entry_key; by rewrite Hm).
  assert (entry_key d = canonical_movie_key (raw_title m)) as Hkd
    by (unfold entry_key; by rewrite Hd, Ht).
  split; [done |]. split; [done |]. split; [| split; [| split; [| split]]].
  - unfold dedup_entries, dedup_dict. cbn [fold_left dict_set].
    rewrite Hkm, Hkd. by destruct (decide _).
  - intros parsed Hmin _.
    assert (entry_key m ∈ (dedup_dict parsed).*1) as Hin.
    { apply dedup_dict_keys, list_elem_of_fmap. by exists m. }
    apply dict_get_Some_key in Hin as [kept Hkept].
    exists kept. pose proof Hkept as Hget.
    apply dedup_dict_get in Hkept as [Hk Hlast].
    split; [by apply dedup_entries_elem |]. split; [done |].
    intros e He Hke. apply (dedup_entries_key_inj parsed); [done | | congruence].
    by apply dedup_entries_elem.
  - intros parsed [Hmin Hdin].
    assert (m = d) as Heq
      by (apply (dedup_entries_key_inj parsed); [done | done | congruence]).
    rewrite Heq in Hm. congruence.
  - intros sc. by rewrite Hkm, Hkd.
  - intros sc r. rewrite Hkm, Hkd. apply lookup_insert_eq.
Qed.

End PipelineClaims.

(** ** The claims on concrete inputs *)

(** * Further properties of the code *)

Section EntryFacts.
Context `{Collaborators}.
Implicit Types (e : VODEntry) (sc : gmap string CacheRecord) (ek : gset string)
  (st : EntryState).

Lemma first_pass_target_key e key rel :
  first_pass_target e = Some (key, rel) -> key = entry_key e.
Proof.
  unfold first_pass_target, entry_key.
  destruct (category e); try discriminate.
  - by intros [= <- _].
  - destruct (PyText.search_marker (raw_title e)) as [[season episode]|]; by intros [= <- _].
  - by intros [= <- _].
Qed.

Lemma backfill_year_fields e :
  raw_title (backfill_year e) = raw_title e
  /\ url (backfill_year e) = url e
  /\ category (backfill_year e) = category e
  /\ entry_key (backfill_year e) = entry_key e.
Proof.
  unfold backfill_year. destruct (int_truthy (year e)); [done |].
  unfold entry_key. by cbn [raw_title url category].
Qed.

Lemma process_entry_unfold force ek sc e0 st :
  process_entry force ek sc e0 st =
    let e := backfill_year e0 in
    if ignored_by_keyword e then st
    else
      match first_pass_target e with
      | None => st
      | Some (key, rel_path) =>
          if decide (key = "") then st
          else if decide (key ∈ ek) then
            mkEntryState (pe_written st) (pe_skipped st + 1)
              (<[key := mkRecord (url e) None (Some 1)]> (pe_cache st)) (pe_files st)
          else
            let unchanged :=
              if force then None
              else
                match sc !! key with
                | Some cached =>
                    match c_path cached with
                    | Some cached_path =>
                        if bool_decide (c_url cached = url e)
                           && str_truthy (c_path cached)
                           && bool_decide (path_resolve cached_path = path_resolve rel_path)
                        then Some cached else None
                    | None => None
                    end
                | None => None
                end in
            match unchanged with
            | Some cached =>
                mkEntryState (pe_written st) (pe_skipped st + 1)
                  (<[key := mkRecord (c_url cached) (c_path cached) (c_allowed cached)]>
                     (pe_cache st))
                  (pe_files st)
            | None =>
                if write_strm_file output_dir rel_path (url e) then
                  mkEntryState (pe_written st + 1) (pe_skipped st)
                    (<[key := mkRecord (url e) (Some (path_resolve rel_path)) (Some 1)]>
                       (pe_cache st))
                    (pe_files st ++ [(rel_path, url e)])
                else st
            end
      end.
Proof. reflexivity. Qed.

End EntryFacts.

Section EntryClaims.
Context `{Collaborators}.
Implicit Types (e : VODEntry) (sc : gmap string CacheRecord) (ek : gset string)
  (st : EntryState).

Lemma first_pass_target_category e :
  category e = MOVIE \/ category e = TVSHOW \/ category e = DOCUMENTARY ->
  exists rel, first_pass_target e = Some (entry_key e, rel).
Proof.
  unfold first_pass_target, entry_key. intros [Hc|[Hc|Hc]]; rewrite Hc.
  - eauto.
  - destruct (PyText.search_marker (raw_title e)) as [[season episode]|]; eauto.
  - eauto.
Qed.

(** The three ways a call of [process_entry] can end: nothing changes; the
    entry is counted as skipped and a record is stored under its key; or its
    pointer file is written and recorded. *)
Lemma process_entry_cases force ek sc e0 st :
  process_entry force ek sc e0 st = st
  \/ (exists r,
        process_entry force ek sc e0 st
        = mkEntryState (pe_written st) (pe_skipped st + 1)
            (<[entry_key e0 := r]> (pe_cache st)) (pe_files st))
  \/ (exists rel,
        process_entry force ek sc e0 st
        = mkEntryState (pe_written st + 1) (pe_skipped st)
            (<[entry_key e0 := mkRecord (url e0) (Some (path_resolve rel)) (Some 1)]>
               (pe_cache st))
            (pe_files st ++ [(rel, url e0)])).
Proof.
  rewrite process_entry_unfold. cbv zeta.
  destruct (backfill_year_fields e0) as (_ & Hurl & _ & Hkey).
  destruct (ignored_by_keyword (backfill_year e0)); [by left |].
  destruct (first_pass_target (backfill_year e0)) as [[key rel]|] eqn:Ht; [| by left].
  apply first_pass_target_key in Ht. rewrite Hkey in Ht. subst key. rewrite Hurl.
  destruct (decide (entry_key e0 = "")); [by left |].
  destruct (decide (entry_key e0 ∈ ek)); [right; left; eauto |].
  match goal with
  | |- context [match ?u with Some _ => _ | None => _ end = st] =>
      destruct u as [cached|]
  end.
  - right; left; eauto.
  - destruct (write_strm_file output_dir rel (url e0)); [right; right; eauto | by left].
Qed.

(** X1: one call of [process_entry] changes the cache at the entry's own
    key at most, and does exactly one of three things: nothing; count the
    entry as skipped, leaving a record under its key and writing no file; or
    write one pointer file, with the entry's URL, and record that file's
    resolved path under the key with [allowed = 1]. *)
Theorem process_entry_effect force ek sc e0 st :
  (forall k, k ≠ entry_key e0 ->
     pe_cache (process_entry force ek sc e0 st) !! k = pe_cache st !! k)
  /\ (process_entry force ek sc e0 st = st
      \/ (pe_written (process_entry force ek sc e0 st) = pe_written st
          /\ pe_skipped (process_entry force ek sc e0 st) = pe_skipped st + 1
          /\ pe_files (process_entry force ek sc e0 st) = pe_files st
          /\ is_Some (pe_cache (process_entry force ek sc e0 st) !! entry_key e0))
      \/ (pe_written (process_entry force ek sc e0 st) = pe_written st + 1
          /\ pe_skipped (process_entry force ek sc e0 st) = pe_skipped st
          /\ exists rel,
               pe_files (process_entry force ek sc e0 st) = (pe_files st ++ [(rel, url e0)])%list
               /\ pe_cache (process_entry force ek sc e0 st) !! entry_key e0
                  = Some (mkRecord (url e0) (Some (path_resolve rel)) (Some 1)))).
Proof.
  destruct (process_entry_cases force ek sc e0 st) as [->|[[r ->]|[rel ->]]];
    cbn [pe_written pe_skipped pe_cache pe_files].
  - split; [done | by left].
  - split; [intros k Hk; by rewrite lookup_insert_ne |].
    right; left. rewrite lookup_insert_eq. eauto.
  - split; [intros k Hk; by rewrite lookup_insert_ne |].
    right; right. split; [done |]. split; [done |]. exists rel.
    by rewrite lookup_insert_eq.
Qed.

(** X2: over any list of entries, [process_entry] keeps the counters and the
    files in step: the written counter grows by exactly the number of pointer
    files written, neither counter ever decreases, together they grow by at
    most the number of entries, and a cache key that no entry of the list has
    keeps its record. *)
Theorem process_entries_accounting force ek sc entries st :
  Z.of_nat (length (pe_files (process_entries force ek sc entries st)))
  = Z.of_nat (length (pe_files st))
    + (pe_written (process_entries force ek sc entries st) - pe_written st)
  /\ pe_written st <= pe_written (process_entries force ek sc entries st)
  /\ pe_skipped st <= pe_skipped (process_entries force ek sc entries st)
  /\ (pe_written (process_entries force ek sc entries st) - pe_written st)
     + (pe_skipped (process_entries force ek sc entries st) - pe_skipped st)
     <= Z.of_nat (length entries)
  /\ forall k, k ∉ entry_key <$> entries ->
       pe_cache (process_entries force ek sc entries st) !! k = pe_cache st !! k.
Proof.
  unfold process_entries. revert st.
  induction entries as [|e entries IH]; intros st; cbn [fold_left].
  - repeat split; try lia. 
  - destruct (IH (process_entry force ek sc e st)) as (Hf & Hw & Hs & Hsum & Hframe).
    assert (forall k, k ≠ entry_key e ->
              pe_cache (process_entry force ek sc e st) !! k = pe_cache st !! k) as Hone.
    { intros k Hk.
      destruct (process_entry_cases force ek sc e st) as [->|[[r ->]|[rel ->]]];
        cbn [pe_cache]; [done | by rewrite lookup_insert_ne | by rewrite lookup_insert_ne]. }
    assert (Hfr : forall k, k ∉ entry_key <$> e :: entries ->
              pe_cache (fold_left (fun st e => process_entry force ek sc e st) entries
                          (process_entry force ek sc e st)) !! k = pe_cache st !! k).
    { intros k Hk. rewrite fmap_cons, not_elem_of_cons in Hk. destruct Hk as [Hk1 Hk2].
      rewrite Hframe by done. by apply Hone. }
    destruct (process_entry_cases force ek sc e st) as [Heq|[[r Heq]|[rel Heq]]];
      rewrite Heq in *; cbn [pe_written pe_skipped pe_files length] in *;
      try rewrite length_app in *; cbn [length] in *; repeat split; try lia; exact Hfr.
Qed.

End EntryClaims.

Section EntryDecisions.
Context `{Collaborators}.
Implicit Types (e : VODEntry) (sc : gmap string CacheRecord) (ek : gset string)
  (st : EntryState).

(** [process_entry] past the keyword filter, for an entry with a target. *)
Lemma process_entry_target force ek sc e0 st rel :
  ignored_by_keyword (backfill_year e0) = false ->
  first_pass_target (backfill_year e0) = Some (entry_key e0, rel) ->
  entry_key e0 ≠ "" ->
  process_entry force ek sc e0 st =
    if decide (entry_key e0 ∈ ek) then
      mkEntryState (pe_written st) (pe_skipped st + 1)
        (<[entry_key e0 := mkRecord (url e0) None (Some 1)]> (pe_cache st)) (pe_files st)
    else
      match
        (if force then None
         else
           match sc !! entry_key e0 with
           | Some cached =>
               match c_path cached with
               | Some cached_path =>
                   if bool_decide (c_url cached = url e0)
                      && str_truthy (c_path cached)
                      && bool_decide (path_resolve cached_path = path_resolve rel)
                   then Some cached else None
               | None => None
               end
           | None => None
           end)
      with
      | Some cached =>
          mkEntryState (pe_written st) (pe_skipped st + 1)
            (<[entry_key e0 := mkRecord (c_url cached) (c_path cached) (c_allowed cached)]>
               (pe_cache st))
            (pe_files st)
      | None =>
          if write_strm_file output_dir rel (url e0) then
            mkEntryState (pe_written st + 1) (pe_skipped st)
              (<[entry_key e0 := mkRecord (url e0) (Some (path_resolve rel)) (Some 1)]>
                 (pe_cache st))
              (pe_files st ++ [(rel, url e0)])
          else st
      end.
Proof.
  intros Hign Ht Hk. rewrite process_entry_unfold. cbv zeta.
  destruct (backfill_year_fields e0) as (_ & Hurl & _ & _).
  rewrite Hign, Ht, Hurl. by destruct (decide (entry_key e0 = "")).
Qed.

(** The test of lines 341 and 342 on a prior record. *)
Lemma unchanged_test cached link rel :
  (match c_path cached with
   | Some cached_path =>
       if bool_decide (c_url cached = link)
          && str_truthy (c_path cached)
          && bool_decide (path_resolve cached_path = path_resolve rel)
       then Some cached else None
   | None => None
   end) = Some cached
  <-> c_url cached = link
      /\ exists p, c_path cached = Some p /\ p ≠ "" /\ path_resolve p = path_resolve rel.
Proof.
  destruct (c_path cached) as [p|] eqn:Hp.
  - destruct (bool_decide (c_url cached = link)) eqn:Hu;
      [apply bool_decide_eq_true in Hu | apply bool_decide_eq_false in Hu]; cbn [andb].
    + destruct (bool_decide (path_resolve p = path_resolve rel)) eqn:Hr;
        [apply bool_decide_eq_true in Hr | apply bool_decide_eq_false in Hr].
      * destruct p as [|c p]; cbn [str_truthy andb].
        -- split; [done |]. intros (_ & q & [= <-] & Hq & _). done.
        -- split; [| done]. intros _. split; [done |]. eexists. split; [done |]. done.
      * rewrite andb_false_r. split; [done |].
        intros (_ & q & [= <-] & _ & Hq). done.
    + split; [done |]. intros [? _]. done.
  - split; [done |]. intros (_ & q & ? & _). done.
Qed.

(** The unchanged path: the prior record is stored again, no file written. *)
Lemma process_entry_keeps_record ek sc e0 st rel cached p :
  ignored_by_keyword (backfill_year e0) = false ->
  first_pass_target (backfill_year e0) = Some (entry_key e0, rel) ->
  entry_key e0 ≠ "" ->
  entry_key e0 ∉ ek ->
  sc !! entry_key e0 = Some cached -> c_url cached = url e0 ->
  c_path cached = Some p -> p ≠ "" -> path_resolve p = path_resolve rel ->
  process_entry false ek sc e0 st
  = mkEntryState (pe_written st) (pe_skipped st + 1)
      (<[entry_key e0 := cached]> (pe_cache st)) (pe_files st).
Proof.
  intros Hign Ht Hk Hek Hsc Hu Hp Hne Hr.
  rewrite (process_entry_target false ek sc e0 st rel) by done.
  destruct (decide (entry_key e0 ∈ ek)); [done |]. rewrite Hsc.
  assert (Htest := proj2 (unchanged_test cached (url e0) rel)
                     (conj Hu (ex_intro _ p (conj Hp (conj Hne Hr))))).
  rewrite Htest. by destruct cached.
Qed.

(** X3: existing local media wins in [process_entry]: for an entry that the
    keyword filter lets through, of category MOVIE, TVSHOW or DOCUMENTARY and
    with a non-empty key found in the existing-media index, the call writes
    no file, counts the entry as skipped and stores the record
    [{url: e.url, path: None, allowed: 1}], whatever the prior cache holds and
    whether or not regeneration is forced. *)
Theorem process_entry_existing_media force ek sc e0 st :
  ignored_by_keyword (backfill_year e0) = false ->
  category e0 = MOVIE \/ category e0 = TVSHOW \/ category e0 = DOCUMENTARY ->
  entry_key e0 ≠ "" ->
  entry_key e0 ∈ ek ->
  process_entry force ek sc e0 st
  = mkEntryState (pe_written st) (pe_skipped st + 1)
      (<[entry_key e0 := mkRecord (url e0) None (Some 1)]> (pe_cache st)) (pe_files st).
Proof.
  intros Hign Hcat Hk Hek.
  destruct (backfill_year_fields e0) as (_ & _ & Hc & Hkey).
  destruct (first_pass_target_category (backfill_year e0)) as [rel Ht];
    [by rewrite Hc |].
  rewrite Hkey in Ht.
  rewrite (process_entry_target force ek sc e0 st rel) by done.
  by destruct (decide (entry_key e0 ∈ ek)).
Qed.

(** X4: forced regeneration disables the unchanged test of [process_entry]:
    an entry past the keyword filter, with a non-empty key outside the
    existing-media index, has its pointer file written and recorded whatever
    the prior cache holds, the same URL and the same resolved path included. *)
Theorem process_entry_forced ek sc e0 st rel :
  ignored_by_keyword (backfill_year e0) = false ->
  first_pass_target (backfill_year e0) = Some (entry_key e0, rel) ->
  entry_key e0 ≠ "" ->
  entry_key e0 ∉ ek ->
  write_strm_file output_dir rel (url e0) = true ->
  process_entry true ek sc e0 st
  = mkEntryState (pe_written st + 1) (pe_skipped st)
      (<[entry_key e0 := mkRecord (url e0) (Some (path_resolve rel)) (Some 1)]> (pe_cache st))
      (pe_files st ++ [(rel, url e0)]).
Proof.
  intros Hign Ht Hk Hek Hw.
  rewrite (process_entry_target true ek sc e0 st rel) by done.
  destruct (decide (entry_key e0 ∈ ek)); [done |]. by rewrite Hw.
Qed.

(** X5: without forced regeneration, [process_entry] skips an entry as
    unchanged exactly when the prior cache has a record for its key with the
    entry's URL and a non-empty path that resolves to the entry's resolved
    target path (the record's [allowed] field is not looked at); it then
    stores that prior record again and writes no file.  In every other case
    it calls the writer. *)
Theorem process_entry_unchanged_iff ek sc e0 st rel :
  ignored_by_keyword (backfill_year e0) = false ->
  first_pass_target (backfill_year e0) = Some (entry_key e0, rel) ->
  entry_key e0 ≠ "" ->
  entry_key e0 ∉ ek ->
  ((exists cached p,
      sc !! entry_key e0 = Some cached /\ c_url cached = url e0
      /\ c_path cached = Some p /\ p ≠ "" /\ path_resolve p = path_resolve rel)
   -> exists cached,
        sc !! entry_key e0 = Some cached
        /\ process_entry false ek sc e0 st
           = mkEntryState (pe_written st) (pe_skipped st + 1)
               (<[entry_key e0 := cached]> (pe_cache st)) (pe_files st))
  /\ (~ (exists cached p,
           sc !! entry_key e0 = Some cached /\ c_url cached = url e0
           /\ c_path cached = Some p /\ p ≠ "" /\ path_resolve p = path_resolve rel)
      -> process_entry false ek sc e0 st
         = if write_strm_file output_dir rel (url e0) then
             mkEntryState (pe_written st + 1) (pe_skipped st)
               (<[entry_key e0 := mkRecord (url e0) (Some (path_resolve rel)) (Some 1)]>
                  (pe_cache st))
               (pe_files st ++ [(rel, url e0)])
           else st).
Proof.
  intros Hign Ht Hk Hek.
  split.
  - intros (cached & p & Hsc & Hu & Hp & Hne & Hr).
    exists cached. split; [done |]. by eapply process_entry_keeps_record.
  - rewrite (process_entry_target false ek sc e0 st rel) by done.
    destruct (decide (entry_key e0 ∈ ek)); [done |].
    intros Hno. destruct (sc !! entry_key e0) as [cached|] eqn:Hsc; [| done].
    match goal with
    | |- context [match ?t with Some _ => _ | None => _ end = _] =>
        destruct t as [c|] eqn:Htest; [| done]
    end.
    exfalso. apply Hno.
    assert (c = cached) as ->.
    { destruct (c_path cached); [| done].
      destruct (_ && _); [by injection Htest | done]. }
    apply unchanged_test in Htest as (Hu & p & Hp & Hne & Hr).
    by exists cached, p.
Qed.

(** X6: a second call of [process_entry] on the same entry, reading the
    cache the first call left, writes nothing: when the first call wrote the
    pointer file (or skipped the entry as unchanged), the second skips it as
    unchanged and leaves the cache as it is.  The resolved target path must
    be non-empty and resolving must be idempotent, as it is for
    [Path.resolve]. *)
Theorem process_entry_twice force ek sc e0 st rel :
  ignored_by_keyword (backfill_year e0) = false ->
  first_pass_target (backfill_year e0) = Some (entry_key e0, rel) ->
  entry_key e0 ≠ "" ->
  entry_key e0 ∉ ek ->
  write_strm_file output_dir rel (url e0) = true ->
  path_resolve rel ≠ "" ->
  path_resolve (path_resolve rel) = path_resolve rel ->
  process_entry false ek (pe_cache (process_entry force ek sc e0 st)) e0
    (process_entry force ek sc e0 st)
  = mkEntryState (pe_written (process_entry force ek sc e0 st))
      (pe_skipped (process_entry force ek sc e0 st) + 1)
      (pe_cache (process_entry force ek sc e0 st))
      (pe_files (process_entry force ek sc e0 st)).
Proof.
  intros Hign Ht Hk Hek Hw Hne Hidem.
  set (st1 := process_entry force ek sc e0 st).
  assert (exists r p, pe_cache st1 !! entry_key e0 = Some r /\ c_url r = url e0
            /\ c_path r = Some p /\ p ≠ "" /\ path_resolve p = path_resolve rel)
    as (r & p & Hr & Hru & Hrp & Hpne & Hpr).
  { subst st1. rewrite (process_entry_target force ek sc e0 st rel) by done.
    destruct (decide (entry_key e0 ∈ ek)); [done |].
    match goal with
    | |- context [match ?t with Some _ => _ | None => _ end] =>
        destruct t as [c|] eqn:Htest
    end.
    - assert (sc !! entry_key e0 = Some c /\ c_url c = url e0
              /\ exists q, c_path c = Some q /\ q ≠ "" /\ path_resolve q = path_resolve rel)
        as (Hsc & Hu & q & Hq & Hqne & Hqr).
      { destruct force; [done |].
        destruct (sc !! entry_key e0) as [cached|]; [| done].
        assert (c = cached) as ->.
        { destruct (c_path cached); [| done].
          destruct (_ && _); [by injection Htest | done]. }
        apply unchanged_test in Htest as (? & ?). done. }
      cbn [pe_cache]. rewrite lookup_insert_eq.
      eexists _, q. cbn [c_url c_path]. done.
    - rewrite Hw. cbn [pe_cache]. rewrite lookup_insert_eq.
      eexists _, (path_resolve rel). cbn [c_url c_path]. done. }
  rewrite (process_entry_keeps_record ek (pe_cache st1) e0 st1 rel r p) by done.
  f_equal. by apply insert_id.
Qed.

End EntryDecisions.

Section SplitFacts.
Context `{Collaborators}.
Implicit Types (e : VODEntry) (l : list VODEntry) (sc : gmap string CacheRecord)
  (ek : gset string).

Lemma split_lists_cons ek sc e l :
  allowed_entries ek sc (e :: l) ++ excluded_entries ek sc (e :: l)
  ≡ₚ e :: (allowed_entries ek sc l ++ excluded_entries ek sc l).
Proof.
  unfold allowed_entries, excluded_entries, split_by_market_filter, split_list.
  cbn [fst snd].
  destruct (cache_split ek sc e) eqn:Hs; destruct (market_allowed e) eqn:Hm;
    repeat (rewrite ?(filter_cons _ e); case_decide; try congruence);
    solve_Permutation.
Qed.

(** The allowed and the excluded list together hold each entry once. *)
Lemma allowed_excluded_perm ek sc l :
  allowed_entries ek sc l ++ excluded_entries ek sc l ≡ₚ l.
Proof.
  induction l as [|e l IH]; [done |].
  rewrite split_lists_cons. by rewrite IH.
Qed.

End SplitFacts.

Section SplitClaims.
Context `{Collaborators}.
Implicit Types (e : VODEntry) (l : list VODEntry) (sc : gmap string CacheRecord)
  (ek : gset string).

(** X7: the cache-reuse loop and the market filter together put every
    deduplicated entry in exactly one of the lists [allowed] and [excluded]:
    the two lists together are a rearrangement of the entries, and no entry
    is in both. *)
Theorem allowed_excluded_partition ek sc l :
  allowed_entries ek sc l ++ excluded_entries ek sc l ≡ₚ l
  /\ (length (allowed_entries ek sc l) + length (excluded_entries ek sc l) = length l)%nat
  /\ forall e, ~ (e ∈ allowed_entries ek sc l /\ e ∈ excluded_entries ek sc l).
Proof.
  split; [apply allowed_excluded_perm |]. split.
  - rewrite <- length_app. by rewrite allowed_excluded_perm.
  - intros e [[_ Ha]%allowed_entries_elem [_ He]%excluded_entries_elem].
    destruct Ha as [Ha|[Ha Hm]], He as [He|[He Hm']]; congruence.
Qed.

(** X8: verdicts are reused instead of asking the market classifier again.
    An entry whose key is in the existing-media index is allowed; otherwise an
    entry whose cached record has [allowed = 1] is allowed and one whose
    cached record has any other non-null [allowed] is excluded, in each case
    whatever the classifier would say; only entries with no local media and
    no cached verdict are handed to the classifier. *)
Theorem cached_verdicts_are_reused ek sc l e :
  e ∈ l ->
  (entry_key e ∈ ek -> e ∈ allowed_entries ek sc l)
  /\ (forall r a,
        entry_key e ∉ ek -> sc !! entry_key e = Some r -> c_allowed r = Some a ->
        (a = 1 -> e ∈ allowed_entries ek sc l)
        /\ (a ≠ 1 -> e ∈ excluded_entries ek sc l))
  /\ (e ∈ split_list ToCheck ek sc l
      <-> (entry_key e ∉ ek)
          /\ (sc !! entry_key e = None
              \/ exists r, sc !! entry_key e = Some r /\ c_allowed r = None)).
Proof.
  intros He. split; [| split].
  - intros Hek. apply allowed_entries_elem. split; [done |]. left.
    unfold cache_split. by rewrite decide_True.
  - intros r a Hek Hsc Ha. split; intros Ha1.
    + apply allowed_entries_elem. split; [done |]. left.
      unfold cache_split. rewrite decide_False, Hsc, Ha by done. by rewrite decide_True.
    + apply excluded_entries_elem. split; [done |]. left.
      unfold cache_split. rewrite decide_False, Hsc, Ha by done. by rewrite decide_False.
  - unfold split_list. rewrite list_elem_of_filter. unfold cache_split.
    destruct (decide (entry_key e ∈ ek)) as [Hek|Hek].
    + split; [intros [? _]; done | intros [? _]; done].
    + destruct (sc !! entry_key e) as [r|] eqn:Hsc.
      * destruct (c_allowed r) as [a|] eqn:Ha.
        -- split.
           ++ intros [Hs _]. by destruct (decide (a = 1)).
           ++ intros [_ [?|(r' & [= <-] & ?)]]; congruence.
        -- split; [| done]. intros _. split; [done |]. right. by exists r.
      * split; [| done]. intros _. split; [done |]. by left.
Qed.

End SplitClaims.

Section FirstPassClaims.
Context `{Collaborators}.
Implicit Types (e : VODEntry) (l : list VODEntry) (sc : gmap string CacheRecord)
  (ek : gset string).

(** The first pass as a filter: the queue is made of the entries decided
    [Write], in order, and the counter counts the entries decided
    [Skipped]. *)
Lemma first_pass_acc force ek sc l (acc : list FileOp * Z) :
  fold_left
    (fun acc e =>
       match first_pass_decision force ek sc e with
       | Ignored => acc
       | Skipped => (acc.1, acc.2 + 1)
       | Write op => ((acc.1 ++ [op])%list, acc.2)
       end) l acc
  = ((acc.1 ++ omap (fun e => match first_pass_decision force ek sc e with
                              | Write op => Some op
                              | _ => None
                              end) l)%list,
     acc.2 + Z.of_nat (length (filter (fun e => first_pass_decision force ek sc e = Skipped) l))).
Proof.
  revert acc. induction l as [|e l IH]; intros [ops n]; cbn [fold_left omap list_omap].
  - cbn. rewrite app_nil_r. f_equal. lia.
  - rewrite IH. rewrite filter_cons.
    destruct (first_pass_decision force ek sc e) as [| |op] eqn:Hd; cbn [fst snd].
    + rewrite decide_False by done. done.
    + rewrite decide_True by done. cbn [length]. f_equal. lia.
    + rewrite decide_False by done. by rewrite <- app_assoc.
Qed.

(** X9: the first pass of the Creating-STRM phase accounts for every allowed
    entry once: the queued writes, the skipped counter and the entries it
    passes over (category outside MOVIE, TVSHOW and DOCUMENTARY, or empty key)
    add up to the number of allowed entries, so queue length plus skipped
    count never exceeds it. *)
Theorem first_pass_accounting force ek sc l :
  (first_pass force ek sc l).2
  = Z.of_nat (length (filter (fun e => first_pass_decision force ek sc e = Skipped) l))
  /\ Z.of_nat (length (first_pass force ek sc l).1) + (first_pass force ek sc l).2
     + Z.of_nat (length (filter (fun e => first_pass_decision force ek sc e = Ignored) l))
     = Z.of_nat (length l)
  /\ 0 <= (first_pass force ek sc l).2
  /\ Z.of_nat (length (first_pass force ek sc l).1) + (first_pass force ek sc l).2
     <= Z.of_nat (length l).
Proof.
  unfold first_pass. rewrite first_pass_acc. cbn [fst snd app].
  assert (length (omap (fun e => match first_pass_decision force ek sc e with
                                 | Write op => Some op
                                 | _ => None
                                 end) l)
          + length (filter (fun e => first_pass_decision force ek sc e = Skipped) l)
          + length (filter (fun e => first_pass_decision force ek sc e = Ignored) l)
          = length l)%nat as Hsum.
  { induction l as [|e l IH]; [done |]. cbn [omap list_omap]. rewrite !filter_cons.
    destruct (first_pass_decision force ek sc e) eqn:Hd.
    - rewrite decide_False, decide_True by done. cbn [length]. lia.
    - rewrite decide_True, decide_False by done. cbn [length]. lia.
    - rewrite !decide_False by done. cbn [length]. lia. }
  repeat split; lia.
Qed.

End FirstPassClaims.

Section QueueClaims.
Context `{Collaborators}.
Implicit Types (e : VODEntry) (l : list VODEntry) (sc : gmap string CacheRecord)
  (ek : gset string).

Lemma write_decision force ek sc e op :
  first_pass_decision force ek sc e = Write op ->
  op_entry op = e /\ op_url op = url e /\ op_key op = entry_key e
  /\ first_pass_target e = Some (op_key op, op_path op)
  /\ op_key op ≠ "" /\ (op_key op ∉ ek)
  /\ (force = false -> sc !! op_key op = None).
Proof.
  unfold first_pass_decision.
  destruct (first_pass_target e) as [[key rel]|] eqn:Ht; [| done].
  destruct (decide (key = "")) as [|Hk]; [done |].
  destruct (bool_decide (key ∈ ek)) eqn:Hek; [done |].
  apply bool_decide_eq_false in Hek. cbn [orb].
  destruct (negb force && bool_decide (is_Some (sc !! key))) eqn:Hc; [done |].
  intros [= <-]. cbn [op_entry op_url op_key op_path].
  pose proof (first_pass_target_key _ _ _ Ht) as Hkey.
  repeat split; try done.
  intros ->. cbn [negb andb] in Hc. apply bool_decide_eq_false in Hc.
  by apply eq_None_not_Some.
Qed.

Lemma queue_keys_sublist force ek sc l :
  op_key <$> omap (fun e => match first_pass_decision force ek sc e with
                            | Write op => Some op
                            | _ => None
                            end) l
  `sublist_of` entry_key <$> l.
Proof.
  induction l as [|e l IH]; [done |]. cbn [omap list_omap]. rewrite fmap_cons.
  destruct (first_pass_decision force ek sc e) as [| |op] eqn:Hd.
  - by apply sublist_cons.
  - by apply sublist_cons.
  - cbn. apply write_decision in Hd as (_ & _ & -> & _). by apply sublist_skip.
Qed.

Lemma allowed_keys_NoDup (existing : gmap string string) sc parsed :
  NoDup (entry_key <$> allowed_entries (dom existing) sc (dedup_entries parsed)).
Proof.
  pose proof (dedup_entries_NoDup parsed) as Hnd.
  rewrite <- (allowed_excluded_perm (dom existing) sc (dedup_entries parsed)) in Hnd.
  rewrite fmap_app in Hnd. by apply NoDup_app in Hnd as [? _].
Qed.

(** X10: what a run queues for writing.  Every queued operation comes from
    an allowed entry of the deduplicated playlist, carries that entry's URL and
    key, and its key is non-empty, not in the existing-media index and, unless
    regeneration is forced, not in the prior cache; no two queued operations
    have the same key. *)
Theorem planned_writes_sound force (existing : gmap string string) parsed sc :
  NoDup (op_key <$> planned_writes force existing parsed sc)
  /\ forall op, op ∈ planned_writes force existing parsed sc ->
       op_entry op ∈ allowed_entries (dom existing) sc (dedup_entries parsed)
       /\ op_entry op ∈ dedup_entries parsed
       /\ op_url op = url (op_entry op)
       /\ op_key op = entry_key (op_entry op)
       /\ first_pass_target (op_entry op) = Some (op_key op, op_path op)
       /\ op_key op ≠ "" /\ (op_key op ∉ dom existing)
       /\ (force = false -> sc !! op_key op = None).
Proof.
  unfold planned_writes. split.
  - unfold first_pass. rewrite first_pass_acc. cbn [fst app].
    eapply sublist_NoDup; [apply allowed_keys_NoDup | apply queue_keys_sublist].
  - intros op (e & He & Hd)%first_pass_queue.
    apply write_decision in Hd as (<- & ? & ? & ? & ? & ? & ?).
    repeat split; try done.
    by apply allowed_entries_elem in He as [? _].
Qed.

End QueueClaims.

Section SliceFacts.
Context {A : Type}.
Implicit Types (l : list A) (n fuel : nat).

Lemma div_below_zero (n : Z) : 0 < n -> (Z.of_nat 0 - 1) / n = -1.
Proof.
  intros Hn. change (Z.of_nat 0 - 1) with (-1).
  symmetry. apply (Z.div_unique _ _ _ (n - 1)); lia.
Qed.

Lemma slices_fuel_spec n fuel l :
  (0 < n)%nat -> (length l <= fuel)%nat ->
  concat (slices_fuel fuel n l) = l
  /\ Forall (fun b => (1 <= length b <= n)%nat) (slices_fuel fuel n l)
  /\ Z.of_nat (length (slices_fuel fuel n l))
     = (Z.of_nat (length l) - 1) / Z.of_nat n + 1.
Proof.
  intros Hn. revert l. induction fuel as [|fuel IH]; intros l Hl.
  - destruct l; [| cbn in Hl; lia]. cbn [slices_fuel concat length].
    split; [done |]. split; [constructor |].
    rewrite div_below_zero by lia. done.
  - destruct l as [|x l']; cbn [slices_fuel].
    + cbn [concat length]. split; [done |]. split; [constructor |].
      rewrite div_below_zero by lia. done.
    + set (l := x :: l') in *.
      assert (length (drop n l) <= fuel)%nat as Hd.
      { rewrite length_drop. subst l. cbn [length] in *. lia. }
      destruct (IH (drop n l) Hd) as (Hc & Hf & Hlen).
      cbn [concat length]. split; [by rewrite Hc, take_drop |]. split.
      * constructor; [| done]. rewrite length_take. subst l. cbn [length]. lia.
      * rewrite Nat2Z.inj_succ, Hlen, length_drop.
        destruct (decide (length l <= n)%nat) as [Hle|Hgt].
        -- replace (length l - n)%nat with 0%nat by lia.
           rewrite div_below_zero by lia.
           assert ((Z.of_nat (length l) - 1) / Z.of_nat n = 0) as ->; [| lia].
           apply Z.div_small. subst l. cbn [length] in *. lia.
        -- rewrite Nat2Z.inj_sub by lia.
           replace (Z.of_nat (length l) - 1)
             with ((Z.of_nat (length l) - Z.of_nat n - 1) + 1 * Z.of_nat n) by lia.
           rewrite Z.div_add by lia. lia.
Qed.

End SliceFacts.

(** X11: the batch loop cuts [file_operations] into consecutive batches that
    put together give the list back, each batch holding between 1 and 50
    operations; the number of batches is [(len(file_operations) - 1) // 50 + 1],
    the total that the batch label prints. *)
Theorem batches_partition (file_operations : list FileOp) :
  concat (slices 50 file_operations) = file_operations
  /\ Forall (fun batch => (1 <= length batch <= 50)%nat) (slices 50 file_operations)
  /\ Z.of_nat (length (slices 50 file_operations))
     = (Z.of_nat (length file_operations) - 1) / 50 + 1.
Proof. apply (slices_fuel_spec 50); lia. Qed.

Section ViewFacts.
Import Tracker TrackerViews.

Lemma py_min_le a b : (py_min a b <= a)%Q.
Proof.
  unfold py_min. destruct (Qle_bool a b) eqn:Hle; [apply Qle_refl |].
  apply Qlt_le_weak, Qnot_le_lt. intros Hab. apply Qle_bool_iff in Hab. congruence.
Qed.

Lemma ratio_nonneg (a b : Z) : 0 <= a -> 0 < b -> (0 <= inject_Z a / inject_Z b * 100)%Q.
Proof.
  intros Ha Hb. destruct b as [|pb|pb]; try lia.
  unfold Qle, Qdiv, Qmult, Qinv, inject_Z. cbn. nia.
Qed.

Lemma ratio_full (n : Z) : n ≠ 0 -> (100 <= inject_Z n / inject_Z n * 100)%Q.
Proof.
  intros Hn. destruct n as [|pn|pn]; try lia;
    unfold Qle, Qdiv, Qmult, Qinv, inject_Z; cbn; nia.
Qed.

Lemma progress_percent_full p :
  is_complete p = true -> total p = 0 \/ processed p = total p ->
  progress_percent p = 100%Q.
Proof.
  intros Hc Hfull. unfold progress_percent.
  destruct (Z.eqb (total p) 0) eqn:Ht; [by rewrite Hc |].
  apply Z.eqb_neq in Ht. destruct Hfull as [?|Heq]; [done |]. rewrite Heq.
  unfold py_min. pose proof (ratio_full (total p) Ht) as Hle.
  apply Qle_bool_iff in Hle. by rewrite Hle.
Qed.

(** X12: the percentage [progress_percent] reports never exceeds 100; it is
    at least 0 when neither [processed] nor [total] is negative; with a total
    of 0 it is 0 until the phase is complete and 100 from then on, whatever
    [processed] says; and a complete phase with [processed = total] is at 100
    exactly. *)
Theorem progress_percent_bounds p :
  (progress_percent p <= 100)%Q
  /\ (0 <= processed p -> 0 <= total p -> (0 <= progress_percent p)%Q)
  /\ (total p = 0 -> progress_percent p = if is_complete p then 100%Q else 0%Q)
  /\ (is_complete p = true -> processed p = total p -> progress_percent p = 100%Q).
Proof.
  split; [| split; [| split]].
  - unfold progress_percent. destruct (Z.eqb (total p) 0).
    + by destruct (is_complete p).
    + apply py_min_le.
  - intros Hp Ht. unfold progress_percent.
    destruct (Z.eqb (total p) 0) eqn:Hz.
    + by destruct (is_complete p).
    + apply Z.eqb_neq in Hz. unfold py_min.
      destruct (Qle_bool 100 _); [done |]. apply ratio_nonneg; lia.
  - intros Ht. unfold progress_percent. by rewrite Ht.
  - intros Hc Hpt. apply progress_percent_full; auto.
Qed.

(** X13: once a phase that was started is completed at a time [c] (other
    than 0.0), [is_complete] holds and [elapsed_time] is [c] minus the start
    time, however late it is read. *)
Theorem elapsed_time_frozen c ph t p s :
  phases t ph = Some p -> started_at p = Some s -> ~ (c == 0)%Q ->
  exists p',
    phases (complete_phase c ph t) ph = Some p'
    /\ is_complete p' = true
    /\ forall now, elapsed_time now p' = (c - s)%Q.
Proof.
  intros Hp Hs Hc. unfold complete_phase. rewrite Hp. cbn [phases].
  eexists. split; [apply set_phase_eq |]. split; [done |].
  intros now. unfold elapsed_time, truthy. cbn [started_at completed_at]. rewrite Hs.
  destruct (Qeq_bool c 0) eqn:Heq; [| done].
  apply Qeq_bool_iff in Heq. contradiction.
Qed.

End ViewFacts.

Section RunStateFacts.
Import Tracker TrackerViews.

(** After the four calls of a phase that is updated once, the phase's record
    is complete, with the total of its second start and the processed count
    of its update; the other phases are as before. *)
Lemma run_segment_updated (P : ProgressTracker -> Prop) clock i t ph a n m item s k rest :
  (forall t',
      (forall q, q ≠ ph -> phases t' q = phases t q) ->
      (exists p, phases t' ph = Some p /\ total p = n /\ processed p = m
                 /\ is_complete p = true) ->
      P (run_calls clock (4 + i) t' rest)) ->
  P (run_calls clock i t
       (Start ph a :: Start ph n :: Update ph m item s k :: Complete ph :: rest)).
Proof.
  intros Hrest. cbn [run_calls step]. apply Hrest.
  - intros q Hq. by rewrite complete_frame, update_frame, !start_frame.
  - set (t1 := start_phase (clock i) ph a t).
    assert (exists p1, phases t1 ph = Some p1) as [p1 H1].
    { subst t1. unfold start_phase. cbn [phases]. rewrite set_phase_eq. eauto. }
    pose proof (start_started (clock (S i)) ph n t1 p1 H1) as H2.
    set (t2 := start_phase (clock (S i)) ph n t1) in *.
    unfold complete_phase, update_phase. rewrite H2. cbn [phases].
    rewrite set_phase_eq. cbn [phases]. rewrite set_phase_eq.
    eexists. split; [reflexivity |]. done.
Qed.

Lemma run_segment_silent (P : ProgressTracker -> Prop) clock i t ph a n rest :
  (forall t',
      (forall q, q ≠ ph -> phases t' q = phases t q) ->
      (exists p, phases t' ph = Some p /\ total p = n /\ processed p = 0
                 /\ is_complete p = true) ->
      P (run_calls clock (3 + i) t' rest)) ->
  P (run_calls clock i t (Start ph a :: Start ph n :: Complete ph :: rest)).
Proof.
  intros Hrest. cbn [run_calls step]. apply Hrest.
  - intros q Hq. by rewrite complete_frame, !start_frame.
  - set (t1 := start_phase (clock i) ph a t).
    assert (exists p1, phases t1 ph = Some p1) as [p1 H1].
    { subst t1. unfold start_phase. cbn [phases]. rewrite set_phase_eq. eauto. }
    pose proof (start_started (clock (S i)) ph n t1 p1 H1) as H2.
    set (t2 := start_phase (clock (S i)) ph n t1) in *.
    unfold complete_phase. rewrite H2. cbn [phases].
    rewrite set_phase_eq.
    eexists. split; [reflexivity |]. done.
Qed.

Lemma tracked_Forall (Q : PhaseProgress -> Prop) t :
  (forall ph p, phases t ph = Some p -> Q p) -> Forall Q (tracked t).
Proof.
  intros Hall. apply Forall_forall. intros p Hp.
  unfold tracked in Hp. apply list_elem_of_omap in Hp as (ph & _ & Hph). eauto.
Qed.

End RunStateFacts.

Section RunState.
Context `{Collaborators}.
Import Tracker TrackerViews.

Ltac chase_phase :=
  repeat match goal with
    | Hf : forall q, q ≠ _ -> phases ?t q = _, Hp : phases ?t _ = Some _ |- _ =>
        rewrite Hf in Hp by discriminate
    end.

Ltac phase_complete :=
  intros ph p Hp; destruct ph; chase_phase;
  repeat match goal with
    | Hd : exists _, phases ?t ?ph = Some _ /\ _, Hp : phases ?t ?ph = Some _ |- _ =>
        destruct Hd as (? & Hd & _ & _ & ?); rewrite Hd in Hp; by injection Hp as <-
    end;
  try done.

(** X14: however a run ends (to the end, early on a shutdown request, or
    with the [NameError] of the batch loop), every phase it started is
    completed when it ends: the context manager of each phase runs
    [complete_phase] on the way out. *)
Theorem run_completes_started_phases (clock : nat -> Q) force shutdown existing parsed sc :
  Forall (fun p => is_complete p = true)
    (tracked (run_calls clock 0 new_tracker
                (tracker_calls (run_pipeline force shutdown existing parsed sc)))).
Proof.
  apply tracked_Forall. unfold run_pipeline.
  destruct (shutdown SCANNING_LOCAL).
  { cbn [tracker_calls app]. apply run_segment_silent. intros t1 F1 D1.
    cbn [run_calls]. phase_complete. }
  destruct (shutdown PARSING_M3U).
  { cbn [tracker_calls app]. apply run_segment_silent. intros t1 F1 D1.
    apply run_segment_silent. intros t2 F2 D2.
    cbn [run_calls]. phase_complete. }
  destruct (shutdown FILTERING_TMDB).
  { cbn [tracker_calls app]. apply run_segment_silent. intros t1 F1 D1.
    apply run_segment_updated. intros t2 F2 D2.
    apply run_segment_silent. intros t3 F3 D3.
    cbn [run_calls]. phase_complete. }
  rewrite creating_strm_phase_cases. cbv zeta.
  destruct (first_pass _ _ _ _).1; cbn [tracker_calls calls app].
  - apply run_segment_silent. intros t1 F1 D1.
    apply run_segment_updated. intros t2 F2 D2.
    apply run_segment_updated. intros t3 F3 D3.
    apply run_segment_updated. intros t4 F4 D4.
    apply run_segment_updated. intros t5 F5 D5.
    cbn [run_calls]. phase_complete.
  - apply run_segment_silent. intros t1 F1 D1.
    apply run_segment_updated. intros t2 F2 D2.
    apply run_segment_updated. intros t3 F3 D3.
    apply run_segment_silent. intros t4 F4 D4.
    cbn [run_calls]. phase_complete.
Qed.

End RunState.

Section RunProgress.
Context `{Collaborators}.
Import Tracker TrackerViews.

(** X15: after a run that ran to the end, all five phases are tracked and
    [get_overall_progress] is 100 percent. *)
Theorem completed_run_overall_progress (clock : nat -> Q) force shutdown existing parsed sc
    stored :
  outcome (run_pipeline force shutdown existing parsed sc) = Completed stored ->
  length (tracked (run_calls clock 0 new_tracker
                     (tracker_calls (run_pipeline force shutdown existing parsed sc)))) = 5%nat
  /\ (get_overall_progress
        (run_calls clock 0 new_tracker
           (tracker_calls (run_pipeline force shutdown existing parsed sc))) == 100)%Q.
Proof.
  intros (H1 & H2 & H3 & Hops & _)%run_completed.
  unfold run_pipeline. rewrite H1, H2, H3.
  rewrite creating_strm_phase_cases. cbv zeta.
  unfold planned_writes in Hops. rewrite Hops. cbn [tracker_calls calls app].
  apply run_segment_silent. intros t1 F1 (p1 & P1 & T1 & N1 & C1).
  apply run_segment_updated. intros t2 F2 (p2 & P2 & T2 & N2 & C2).
  apply run_segment_updated. intros t3 F3 (p3 & P3 & T3 & N3 & C3).
  apply run_segment_updated. intros t4 F4 (p4 & P4 & T4 & N4 & C4).
  apply run_segment_updated. intros t5 F5 (p5 & P5 & T5 & N5 & C5).
  cbn [run_calls].
  assert (phases t5 SCANNING_LOCAL = Some p1) as Q1
    by (rewrite F5, F4, F3, F2 by discriminate; exact P1).
  assert (phases t5 PARSING_M3U = Some p2) as Q2
    by (rewrite F5, F4, F3 by discriminate; exact P2).
  assert (phases t5 FILTERING_TMDB = Some p3) as Q3
    by (rewrite F5, F4 by discriminate; exact P3).
  assert (phases t5 CREATING_STRM = Some p4) as Q4
    by (rewrite F5 by discriminate; exact P4).
  unfold get_overall_progress, tracked, all_phases. cbn [omap list_omap].
  rewrite Q1, Q2, Q3, Q4, P5. cbn [mbind option_bind app length map].
  split; [reflexivity |].
  rewrite !progress_percent_full; try done; [| | | | ]; try (by left); try (right; congruence).
Qed.

End RunProgress.

Section CounterFacts.
Import Tracker TrackerViews.

Lemma update_phase_record now ph n item s k t p :
  phases t ph = Some p ->
  exists p',
    phases (update_phase now ph n item s k t) ph = Some p'
    /\ processed p' = n
    /\ success_count p' = success_count p + (if s then 1 else 0)
    /\ failure_count p' = failure_count p + (if s || k then 0 else 1)
    /\ skipped_count p' = skipped_count p + (if k then 1 else 0)
    /\ total p' = total p /\ started_at p' = started_at p
    /\ completed_at p' = completed_at p.
Proof.
  intros Hp. unfold update_phase. rewrite Hp. cbn [phases]. rewrite set_phase_eq.
  eexists. split; [reflexivity |].
  cbn [processed success_count failure_count skipped_count total started_at completed_at].
  destruct s, k; cbn [orb negb]; repeat split; lia.
Qed.

Lemma updates_counters clock ph (us : list ItemUpdate) :
  forall i t p,
    phases t ph = Some p ->
    exists p',
      phases (run_calls clock i t (update_call ph <$> us)) ph = Some p'
      /\ success_count p'
         = success_count p + Z.of_nat (length (filter (fun u => iu_success u = true) us))
      /\ failure_count p'
         = failure_count p
           + Z.of_nat (length (filter (fun u => iu_success u = false /\ iu_skipped u = false) us))
      /\ skipped_count p'
         = skipped_count p + Z.of_nat (length (filter (fun u => iu_skipped u = true) us))
      /\ processed p' = default (processed p) (last (iu_processed <$> us))
      /\ total p' = total p /\ started_at p' = started_at p
      /\ completed_at p' = completed_at p.
Proof.
  induction us as [|u us IH]; intros i t p Hp.
  - exists p. cbn. repeat split; try done; lia.
  - rewrite !fmap_cons. cbn [run_calls update_call step].
    destruct (update_phase_record (clock i) ph (iu_processed u) (iu_item u)
                (iu_success u) (iu_skipped u) t p Hp)
      as (p1 & Hp1 & Hn & Hs & Hf & Hk & Ht & Hst & Hc).
    destruct (IH (S i) _ p1 Hp1) as (p' & Hp' & Hs' & Hf' & Hk' & Hn' & Ht' & Hst' & Hc').
    exists p'. split; [exact Hp' |].
    rewrite !filter_cons.
    assert (default (processed p) (last (iu_processed u :: (iu_processed <$> us)))
            = default (processed p1) (last (iu_processed <$> us))) as Hlast.
    { destruct us as [|u' us']; [cbn; by rewrite Hn |].
      rewrite fmap_cons. change (last (iu_processed u :: iu_processed u' :: (iu_processed <$> us')))
        with (last (iu_processed u' :: (iu_processed <$> us'))).
      destruct (last (iu_processed u' :: (iu_processed <$> us'))) eqn:Hl; [done |].
      by apply last_None in Hl. }
    rewrite Hlast.
    destruct (iu_success u), (iu_skipped u); cbn [orb] in *;
      repeat (case_decide; try (exfalso; (tauto || congruence || (by intuition congruence))));
      cbn [length]; repeat split; try congruence; try lia.
Qed.

(** X16: a run of per-item updates on a tracked phase adds to the success
    counter the number of updates made with [success] true, to the skipped
    counter the number made with [skipped] true, and to the failure counter the
    number made with both false; [processed] ends at the last value given.
    The three counters together grow by the number of updates plus the number
    of updates made with both flags true. *)
Theorem item_updates_count clock i ph (us : list ItemUpdate) t p :
  phases t ph = Some p ->
  exists p',
    phases (run_calls clock i t (update_call ph <$> us)) ph = Some p'
    /\ success_count p'
       = success_count p + Z.of_nat (length (filter (fun u => iu_success u = true) us))
    /\ failure_count p'
       = failure_count p
         + Z.of_nat (length (filter (fun u => iu_success u = false /\ iu_skipped u = false) us))
    /\ skipped_count p'
       = skipped_count p + Z.of_nat (length (filter (fun u => iu_skipped u = true) us))
    /\ processed p' = default (processed p) (last (iu_processed <$> us))
    /\ success_count p' + failure_count p' + skipped_count p'
       = success_count p + failure_count p + skipped_count p
         + Z.of_nat (length us)
         + Z.of_nat (length (filter (fun u => iu_success u = true /\ iu_skipped u = true) us)).
Proof.
  intros Hp.
  destruct (updates_counters clock ph us i t p Hp)
    as (p' & Hp' & Hs & Hf & Hk & Hn & _).
  exists p'. repeat split; try done.
  rewrite Hs, Hf, Hk.
  assert (length (filter (fun u => iu_success u = true) us)
          + length (filter (fun u => iu_success u = false /\ iu_skipped u = false) us)
          + length (filter (fun u => iu_skipped u = true) us)
          = length us
            + length (filter (fun u => iu_success u = true /\ iu_skipped u = true) us))%nat.
  { clear. induction us as [|u us IH]; [done |]. rewrite !filter_cons.
    destruct (iu_success u), (iu_skipped u);
      repeat (case_decide; try (exfalso; (tauto || congruence || (by intuition congruence))));
      cbn [length]; lia. }
  lia.
Qed.

(** X17: one batch update stands for the per-item updates it aggregates: on
    a tracked phase, a non-empty run of per-item updates and a single
    [batch_update_phase] carrying the last processed value and the numbers of
    successes, failures and skips of that run leave the same processed count
    and the same three counters. *)
Theorem batch_update_stands_for_items clock i now ph (us : list ItemUpdate) item t p :
  phases t ph = Some p ->
  us ≠ [] ->
  exists p1 p2,
    phases (run_calls clock i t (update_call ph <$> us)) ph = Some p1
    /\ phases
         (batch_update_phase now ph
            (default 0 (last (iu_processed <$> us))) item
            (Z.of_nat (length (filter (fun u => iu_success u = true) us)))
            (Z.of_nat (length (filter (fun u => iu_success u = false /\ iu_skipped u = false) us)))
            (Z.of_nat (length (filter (fun u => iu_skipped u = true) us))) t) ph = Some p2
    /\ processed p1 = processed p2
    /\ success_count p1 = success_count p2
    /\ failure_count p1 = failure_count p2
    /\ skipped_count p1 = skipped_count p2
    /\ total p1 = total p2.
Proof.
  intros Hp Hne.
  destruct (updates_counters clock ph us i t p Hp)
    as (p1 & Hp1 & Hs & Hf & Hk & Hn & Ht & _).
  exists p1. unfold batch_update_phase. rewrite Hp. cbn [phases]. rewrite set_phase_eq.
  eexists. split; [exact Hp1 |]. split; [reflexivity |].
  cbn [processed success_count failure_count skipped_count total].
  repeat split; try done.
  rewrite Hn. destruct (last (iu_processed <$> us)) eqn:Hl; [done |].
  apply last_None in Hl. by apply fmap_nil_inv in Hl.
Qed.

(** X18: updates and completions of a phase that was never started are
    dropped: a sequence of calls none of which is a start, each on a phase the
    tracker does not track, leaves the tracker exactly as it was. *)
Theorem calls_on_untracked_phase_are_dropped clock i t (cs : list Call) :
  Forall (fun c => (forall ph n, c ≠ Start ph n) /\ phases t (call_phase c) = None) cs ->
  run_calls clock i t cs = t.
Proof.
  revert i. induction cs as [|c cs IH]; intros i Hall; [done |].
  apply Forall_cons in Hall as [[Hns Hc] Hall]. cbn [run_calls].
  assert (step (clock i) c t = t) as ->; [| by apply IH].
  destruct c as [ph n|ph n item s k|ph n item a b d|ph]; cbn [step call_phase] in *.
  - by destruct (Hns ph n).
  - unfold update_phase. by rewrite Hc.
  - unfold batch_update_phase. by rewrite Hc.
  - unfold complete_phase. by rewrite Hc.
Qed.

End CounterFacts.

Section StatsFacts.
Import TrackerViews.
Implicit Types (s : ProcessingStats) (c : Counter) (kwargs : list (string * Z)).

Lemma get_set_counter c c' v s :
  get_counter c' (set_counter c v s) = if decide (c' = c) then v else get_counter c' s.
Proof. destruct c, c'; reflexivity. Qed.

Lemma errors_set_counter c v s : errors (set_counter c v s) = errors s.
Proof. by destruct c. Qed.

Lemma update_stat_counter inherited key c v s :
  counter_named key = Some c ->
  update_stat inherited key v s = (None, set_counter c (get_counter c s + v) s).
Proof. unfold update_stat. by intros ->. Qed.

Lemma update_stats_counters inherited kwargs s :
  Forall (fun kv => is_Some (counter_named kv.1)) kwargs ->
  (update_stats inherited kwargs s).1 = None
  /\ (forall c, get_counter c (update_stats inherited kwargs s).2
                = get_counter c s + delta_for c kwargs)
  /\ errors (update_stats inherited kwargs s).2 = errors s.
Proof.
  revert s. induction kwargs as [|[key v] kwargs IH]; intros s Hall.
  - cbn. split; [done |]. split; [intros c; lia | done].
  - apply Forall_cons in Hall as [[c0 Hc0] Hall]. cbn [fst] in Hc0.
    cbn [update_stats]. rewrite (update_stat_counter _ _ _ _ _ Hc0).
    destruct (IH (set_counter c0 (get_counter c0 s + v) s) Hall) as (Hex & Hget & Herr).
    split; [exact Hex |]. split.
    + intros c. rewrite Hget, get_set_counter. unfold delta_for.
      cbn [omap list_omap fst snd]. rewrite Hc0.
      destruct (decide (c = c0)) as [->|Hne].
      * rewrite decide_True by done. cbn [fold_right app]. lia.
      * rewrite decide_False by congruence. cbn [fold_right app]. lia.
    + by rewrite Herr, errors_set_counter.
Qed.

(** X19: [update_stats] called with names of integer fields only never
    raises, leaves the error list alone and adds: each counter ends at its
    old value plus the sum of the values given under its name, so repeated
    calls accumulate and the totals follow. *)
Theorem update_stats_accumulates inherited kwargs s :
  Forall (fun kv => is_Some (counter_named kv.1)) kwargs ->
  (update_stats inherited kwargs s).1 = None
  /\ (forall c, get_counter c (update_stats inherited kwargs s).2
                = get_counter c s + delta_for c kwargs)
  /\ errors (update_stats inherited kwargs s).2 = errors s
  /\ total_found (update_stats inherited kwargs s).2
     = total_found s + delta_for MoviesFound kwargs + delta_for TvEpisodesFound kwargs
       + delta_for DocumentariesFound kwargs.
Proof.
  intros Hall. destruct (update_stats_counters inherited kwargs s Hall) as (Hex & Hget & Herr).
  split; [done |]. split; [done |]. split; [done |].
  unfold total_found.
  pose proof (Hget MoviesFound) as H1. pose proof (Hget TvEpisodesFound) as H2.
  pose proof (Hget DocumentariesFound) as H3. cbn [get_counter] in H1, H2, H3. lia.
Qed.

Lemma update_stats_app inherited before after s :
  Forall (fun kv => is_Some (counter_named kv.1)) before ->
  update_stats inherited (before ++ after) s
  = update_stats inherited after (update_stats inherited before s).2.
Proof.
  revert s. induction before as [|[key v] before IH]; intros s Hall; [done |].
  apply Forall_cons in Hall as [[c0 Hc0] Hall]. cbn [fst] in Hc0.
  cbn [app update_stats]. rewrite (update_stat_counter _ _ _ _ _ Hc0). by apply IH.
Qed.

(** X20: what [update_stats] does with a name that is not an integer field,
    met after keywords that are.  A name the statistics object has no
    attribute for is skipped without a trace; the name of one of the read-only
    totals raises [AttributeError] and the name [errors] raises [TypeError],
    in both cases with the earlier keywords applied and the later ones
    not. *)
Theorem update_stats_other_names inherited before key v after s :
  Forall (fun kv => is_Some (counter_named kv.1)) before ->
  counter_named key = None ->
  (key ≠ "errors" -> is_property key = false -> inherited key = false ->
   update_stats inherited (before ++ (key, v) :: after) s
   = update_stats inherited (before ++ after) s)
  /\ (is_property key = true ->
      update_stats inherited (before ++ (key, v) :: after) s
      = (Some (AttributeError key), (update_stats inherited before s).2))
  /\ (key = "errors" ->
      update_stats inherited (before ++ (key, v) :: after) s
      = (Some (TypeError key), (update_stats inherited before s).2)).
Proof.
  intros Hall Hkey. rewrite !update_stats_app by done.
  cbn [update_stats]. unfold update_stat. rewrite Hkey.
  split; [| split].
  - intros Hne Hprop Hinh.
    destruct (String.eqb key "errors") eqn:He; [by apply String.eqb_eq in He |].
    by rewrite Hprop, Hinh.
  - intros Hprop.
    destruct (String.eqb key "errors") eqn:He.
    + apply String.eqb_eq in He. subst key. discriminate.
    + by rewrite Hprop.
  - intros ->. done.
Qed.

Lemma delta_for_cons c key v kwargs :
  delta_for c ((key, v) :: kwargs)
  = (if decide (counter_named key = Some c) then v else 0) + delta_for c kwargs.
Proof.
  unfold delta_for. cbn [omap list_omap fst snd].
  by destruct (decide (counter_named key = Some c)).
Qed.

Lemma delta_for_nil c : delta_for c [] = 0.
Proof. reflexivity. Qed.

End StatsFacts.

Section RunStatsFacts.
Context `{Collaborators}.
Import TrackerViews.

Ltac eval_delta :=
  rewrite ?fmap_cons, ?fmap_nil, ?delta_for_cons, ?delta_for_nil;
  repeat match goal with
    | |- context [decide (counter_named ?k = Some ?c)] =>
        destruct (decide (counter_named k = Some c)) as [Heq|Hne];
        [ first [ vm_compute in Heq; discriminate | clear Heq ]
        | first [ exfalso; apply Hne; reflexivity | clear Hne ] ]
    end;
  cbn [fold_right].

Ltac eval_delta_in F :=
  rewrite ?fmap_cons, ?fmap_nil, ?delta_for_cons, ?delta_for_nil in F;
  repeat match type of F with
    | context [decide (counter_named ?k = Some ?c)] =>
        destruct (decide (counter_named k = Some c)) as [Heq|Hne];
        [ first [ vm_compute in Heq; discriminate | clear Heq ]
        | first [ exfalso; apply Hne; reflexivity | clear Hne ] ]
    end;
  cbn [fold_right] in F.

Lemma fold_stats_counters inherited (calls : list (list (string * Z))) s c :
  Forall (Forall (fun kv => is_Some (counter_named kv.1))) calls ->
  get_counter c (fold_left (fun s kwargs => (update_stats inherited kwargs s).2) calls s)
  = get_counter c s + fold_right Z.add 0 (delta_for c <$> calls).
Proof.
  revert s. induction calls as [|kwargs calls IH]; intros s Hall; cbn [fold_left].
  - rewrite fmap_nil. cbn [fold_right]. lia.
  - apply Forall_cons in Hall as [Hk Hall]. rewrite IH by done.
    destruct (update_stats_counters inherited kwargs s Hk) as (_ & Hget & _).
    rewrite Hget, fmap_cons. cbn [fold_right]. lia.
Qed.

Lemma batch_stats_nil ops : batch_stats ops = [].
Proof. unfold batch_stats. by rewrite batch_writer_unbound. Qed.

Lemma stats_calls_counters force shutdown existing parsed sc :
  Forall (Forall (fun kv => is_Some (counter_named kv.1)))
    (stats_calls force shutdown existing parsed sc).
Proof.
  unfold stats_calls. rewrite batch_stats_nil.
  destruct (shutdown Tracker.SCANNING_LOCAL); [constructor |].
  constructor; [repeat constructor; by eexists |].
  destruct (shutdown Tracker.PARSING_M3U); [constructor |].
  constructor; [repeat constructor; by eexists |].
  destruct (shutdown Tracker.FILTERING_TMDB); [constructor |].
  constructor; [repeat constructor; by eexists | constructor].
Qed.

Lemma count_category_split (c : Category) ek sc l :
  count_category c (allowed_entries ek sc l) + count_category c (excluded_entries ek sc l)
  = count_category c l.
Proof.
  unfold count_category.
  rewrite <- (allowed_excluded_perm ek sc l) at 3.
  rewrite filter_app, length_app. lia.
Qed.

Lemma dedup_entries_in_parsed parsed e : e ∈ dedup_entries parsed -> e ∈ parsed.
Proof.
  intros (l1 & l2 & -> & _)%dedup_entries_elem. apply elem_of_app. right. by left.
Qed.

Lemma count_category_dedup (c : Category) parsed :
  count_category c (dedup_entries parsed) <= count_category c parsed.
Proof.
  unfold count_category. apply inj_le, submseteq_length, NoDup_submseteq.
  - apply NoDup_filter. eapply NoDup_fmap_1, dedup_entries_NoDup.
  - intros e [Hc He]%list_elem_of_filter. apply list_elem_of_filter.
    split; [done | by apply dedup_entries_in_parsed].
Qed.

(** X21: in every run the statistics end with zero pointer files created,
    zero skipped and zero orphaned: the only [update_stats] call that reports
    them sits in the batch loop behind the call of the unbound batch writer,
    and the entries the first pass skips are never reported. *)
Theorem run_reports_no_strm_counts inherited force shutdown existing parsed sc :
  strm_created (run_stats inherited force shutdown existing parsed sc) = 0
  /\ strm_skipped (run_stats inherited force shutdown existing parsed sc) = 0
  /\ strm_orphaned (run_stats inherited force shutdown existing parsed sc) = 0.
Proof.
  pose proof (stats_calls_counters force shutdown existing parsed sc) as Hall.
  pose proof (fold_stats_counters inherited _ new_stats StrmCreated Hall) as H1.
  pose proof (fold_stats_counters inherited _ new_stats StrmSkipped Hall) as H2.
  pose proof (fold_stats_counters inherited _ new_stats StrmOrphaned Hall) as H3.
  unfold run_stats. cbn [get_counter] in H1, H2, H3. rewrite H1, H2, H3.
  unfold stats_calls. rewrite batch_stats_nil.
  destruct (shutdown Tracker.SCANNING_LOCAL); [done |].
  destruct (shutdown Tracker.PARSING_M3U); [repeat split; eval_delta; lia |].
  destruct (shutdown Tracker.FILTERING_TMDB); repeat split; cbv zeta; eval_delta; lia.
Qed.

(** X22: in a run that gets past filtering, the statistics count every
    deduplicated playlist entry of the three categories once, as allowed or as
    excluded, while the found counters add the local titles to the playlist
    entries counted before deduplication; so allowed plus excluded never
    exceeds found. *)
Theorem run_stats_balance inherited force shutdown existing parsed sc :
  shutdown Tracker.SCANNING_LOCAL = false ->
  shutdown Tracker.PARSING_M3U = false ->
  shutdown Tracker.FILTERING_TMDB = false ->
  let s := run_stats inherited force shutdown existing parsed sc in
  movies_allowed s + movies_excluded s = count_category MOVIE (dedup_entries parsed)
  /\ tv_episodes_allowed s + tv_episodes_excluded s
     = count_category TVSHOW (dedup_entries parsed)
  /\ documentaries_allowed s + documentaries_excluded s
     = count_category DOCUMENTARY (dedup_entries parsed)
  /\ movies_found s = count_kind "MOVIE" existing + count_category MOVIE parsed
  /\ tv_episodes_found s = count_kind "TVEPISODE" existing + count_category TVSHOW parsed
  /\ documentaries_found s
     = count_kind "DOCUMENTARY" existing + count_category DOCUMENTARY parsed
  /\ total_allowed s + total_excluded s <= total_found s.
Proof.
  intros Hs1 Hs2 Hs3 s.
  pose proof (stats_calls_counters force shutdown existing parsed sc) as Hall.
  assert (forall c, get_counter c s
            = fold_right Z.add 0
                (delta_for c <$> stats_calls force shutdown existing parsed sc)) as Hget.
  { intros c. subst s. unfold run_stats. rewrite fold_stats_counters by done.
    by destruct c. }
  clearbody s.
  unfold stats_calls in Hget. rewrite batch_stats_nil, Hs1, Hs2, Hs3 in Hget.
  cbv zeta in Hget.
  pose proof (Hget MoviesFound) as F1. pose proof (Hget TvEpisodesFound) as F2.
  pose proof (Hget DocumentariesFound) as F3.
  pose proof (Hget MoviesAllowed) as A1. pose proof (Hget TvEpisodesAllowed) as A2.
  pose proof (Hget DocumentariesAllowed) as A3.
  pose proof (Hget MoviesExcluded) as E1. pose proof (Hget TvEpisodesExcluded) as E2.
  pose proof (Hget DocumentariesExcluded) as E3.
  clear Hget.
  cbn [get_counter] in F1, F2, F3, A1, A2, A3, E1, E2, E3.
  eval_delta_in F1. eval_delta_in F2. eval_delta_in F3.
  eval_delta_in A1. eval_delta_in A2. eval_delta_in A3.
  eval_delta_in E1. eval_delta_in E2. eval_delta_in E3.
  pose proof (count_category_split MOVIE (dom existing) sc (dedup_entries parsed)) as S1.
  pose proof (count_category_split TVSHOW (dom existing) sc (dedup_entries parsed)) as S2.
  pose proof (count_category_split DOCUMENTARY (dom existing) sc (dedup_entries parsed)) as S3.
  pose proof (count_category_dedup MOVIE parsed) as D1.
  pose proof (count_category_dedup TVSHOW parsed) as D2.
  pose proof (count_category_dedup DOCUMENTARY parsed) as D3.
  assert (0 <= count_kind "MOVIE" existing /\ 0 <= count_kind "TVEPISODE" existing
          /\ 0 <= count_kind "DOCUMENTARY" existing) as (K1 & K2 & K3)
    by (unfold count_kind; lia).
  unfold total_allowed, total_excluded, total_found.
  repeat split; lia.
Qed.

End RunStatsFacts.

Example report_example :
  write_excluded_report
    [episode "Show.Name.S01E02.1080p" "u1"; movie "Zulu" "u2"; movie "Alien" "u3";
     episode "Show.Name.S01E03" "u4"; documentary "Oceans" "u5"] 7 true
  = Some ["=== Excluded Entries Report ===" +:+ nl +:+ nl;
          "Total allowed: 7" +:+ nl;
          "Total excluded: 5" +:+ nl +:+ nl;
          "--- Movies ---" +:+ nl;
          "Alien" +:+ nl; "Zulu" +:+ nl;
          nl +:+ "Total movies excluded: 2" +:+ nl +:+ nl;
          "--- TV Shows ---" +:+ nl;
          "Show.Name. — 2 episodes excluded" +:+ nl;
          nl +:+ "Total shows excluded: 1" +:+ nl;
          "=== End of Report ===" +:+ nl].
Proof. vm_compute. reflexivity. Qed.

Section ReportFacts.

Lemma ltb_false_leb a b : String.ltb a b = false -> str_le b a.
Proof.
  unfold String.ltb, str_le, String.leb. rewrite (String.compare_antisym b a).
  destruct (String.compare a b); cbn; congruence.
Qed.

Lemma ltb_true_leb a b : String.ltb a b = true -> str_le a b.
Proof.
  unfold String.ltb, str_le, String.leb. destruct (String.compare a b); congruence.
Qed.

Lemma insert_by_perm {A} (key : A -> string) x l : insert_by key x l ≡ₚ x :: l.
Proof.
  induction l as [|y l IH]; cbn [insert_by]; [done |].
  destruct (String.ltb (key x) (key y)); [done |].
  rewrite IH. apply Permutation_swap.
Qed.

Lemma sorted_by_acc_perm {A} (key : A -> string) l acc :
  fold_left (fun acc x => insert_by key x acc) l acc ≡ₚ (acc ++ l)%list.
Proof.
  revert acc. induction l as [|x l IH]; intros acc; cbn [fold_left].
  - by rewrite app_nil_r.
  - rewrite IH, insert_by_perm. solve_Permutation.
Qed.

Lemma sorted_by_perm {A} (key : A -> string) l : sorted_by key l ≡ₚ l.
Proof. unfold sorted_by. by rewrite sorted_by_acc_perm. Qed.

Lemma insert_by_Sorted {A} (key : A -> string) x l :
  Sorted (fun a b => str_le (key a) (key b)) l ->
  Sorted (fun a b => str_le (key a) (key b)) (insert_by key x l).
Proof.
  induction 1 as [|y l Hs IH Hhd]; cbn [insert_by].
  - repeat constructor.
  - destruct (String.ltb (key x) (key y)) eqn:Hlt.
    + constructor; [by constructor |]. constructor. by apply ltb_true_leb.
    + constructor; [exact IH |].
      destruct Hhd as [|z l' Hyz]; cbn [insert_by].
      * constructor. by apply ltb_false_leb.
      * destruct (String.ltb (key x) (key z)); constructor;
          [by apply ltb_false_leb | exact Hyz].
Qed.

Lemma sorted_by_Sorted {A} (key : A -> string) l :
  Sorted (fun a b => str_le (key a) (key b)) (sorted_by key l).
Proof.
  unfold sorted_by.
  assert (Hacc : forall acc, Sorted (fun a b => str_le (key a) (key b)) acc ->
    Sorted (fun a b => str_le (key a) (key b))
      (fold_left (fun acc x => insert_by key x acc) l acc)).
  { induction l as [|x l IH]; intros acc Hs; cbn [fold_left]; [done |].
    apply IH. by apply insert_by_Sorted. }
  apply Hacc. constructor.
Qed.

Lemma group_shows_snoc shows t :
  group_shows (shows ++ [t]) =
  dict_set (show_base t)
    (default [] (dict_get (show_base t) (group_shows shows)) ++ [t])%list
    (group_shows shows).
Proof. unfold group_shows. by rewrite fold_left_app. Qed.

Lemma group_shows_NoDup shows : NoDup (group_shows shows).*1.
Proof.
  induction shows as [|t shows IH] using rev_ind; [constructor |].
  rewrite group_shows_snoc. by apply dict_set_NoDup.
Qed.

Lemma dict_append_episodes b t (d : list (string * list string)) :
  episodes_listed (dict_set b (default [] (dict_get b d) ++ [t])%list d)
  = S (episodes_listed d).
Proof.
  unfold episodes_listed.
  induction d as [|[k v] d IH]; cbn [dict_set dict_get sum_list_with]; [done |].
  destruct (decide (k = b)) as [->|Hne]; cbn [sum_list_with default from_option fst snd].
  - rewrite length_app. cbn. lia.
  - rewrite IH. lia.
Qed.

Lemma group_shows_episodes shows : episodes_listed (group_shows shows) = length shows.
Proof.
  induction shows as [|t shows IH] using rev_ind; [done |].
  rewrite group_shows_snoc, dict_append_episodes, IH, length_app. cbn. lia.
Qed.

(** The group of a base is the titles with that base, in file order. *)
Lemma group_shows_get shows b :
  dict_get b (group_shows shows) =
  match filter (fun t => show_base t = b) shows with
  | [] => None
  | eps => Some eps
  end.
Proof.
  induction shows as [|t shows IH] using rev_ind; [done |].
  rewrite group_shows_snoc, filter_app.
  destruct (decide (show_base t = b)) as [Hb|Hb].
  - rewrite Hb, dict_get_set_eq, IH.
    rewrite (filter_cons_True _ t []) by exact Hb. rewrite filter_nil.
    destruct (filter _ shows); reflexivity.
  - rewrite dict_get_set_ne by exact Hb. rewrite IH.
    rewrite (filter_cons_False _ t []) by exact Hb. rewrite filter_nil, app_nil_r.
    reflexivity.
Qed.

Lemma group_shows_length shows :
  (length (group_shows shows) <= episodes_listed (group_shows shows))%nat.
Proof.
  assert (Hpos : Forall (fun item : string * list string => item.2 <> [])
                   (group_shows shows)).
  { apply Forall_forall. intros [b eps] Hin.
    apply dict_elem_get in Hin; [| apply group_shows_NoDup].
    rewrite group_shows_get in Hin. destruct (filter _ _); [discriminate |].
    injection Hin as <-. discriminate. }
  unfold episodes_listed.
  induction Hpos as [|[b eps] l Hne _ IH]; cbn [length sum_list_with]; [lia |].
  cbn [snd] in Hne |- *. destruct eps; [contradiction |]. cbn [length]. lia.
Qed.

Lemma filter_category_length (excluded : list VODEntry) :
  length excluded =
  (length (filter (fun e => category e = MOVIE) excluded)
   + length (filter (fun e => category e = TVSHOW) excluded)
   + length (filter (fun e => category e <> MOVIE /\ category e <> TVSHOW) excluded))%nat.
Proof.
  induction excluded as [|e l IH]; [done |].
  rewrite !filter_cons.
  destruct (category e) eqn:Hc;
    repeat (match goal with
            | |- context [decide ?P] => destruct (decide P) as [?|?]
            end; try congruence; try tauto);
    cbn [length]; try lia;
    exfalso; intuition congruence.
Qed.

End ReportFacts.

(** X23 ([write_excluded_report], lines 55 to 58).  The show section of the
    report has one group per distinct base title: a base has a group exactly
    when some excluded episode title reduces to it, and the group holds those
    titles, all of them and in the order of the excluded list. *)
Theorem report_groups_by_base (excluded : list VODEntry) :
  let shows := report_shows excluded in
  let groups := group_shows shows in
  NoDup groups.*1 /\
  forall b eps,
    (b, eps) ∈ groups <->
    eps <> [] /\ eps = filter (fun t => show_base t = b) shows.
Proof.
  intros shows groups. split; [apply group_shows_NoDup |].
  intros b eps. split.
  - intros Hin. apply dict_elem_get in Hin; [| apply group_shows_NoDup].
    unfold groups in Hin. rewrite group_shows_get in Hin.
    destruct (filter _ shows) eqn:Hf; [discriminate |].
    injection Hin as <-. split; [discriminate | reflexivity].
  - intros [Hne ->]. apply dict_get_elem. unfold groups. rewrite group_shows_get.
    destruct (filter _ shows); [contradiction | reflexivity].
Qed.

(** X24 ([write_excluded_report], lines 53 to 70).  The total the report
    prints counts every excluded entry; the movies it lists and the episodes
    its show lines add up to fall short of it by the entries that are neither
    movies nor TV shows (documentaries, replays, unknown), which the report
    lists nowhere.  There are at most as many show lines as excluded
    episodes. *)
Theorem report_totals (excluded : list VODEntry) :
  let groups := sorted_items (group_shows (report_shows excluded)) in
  length excluded =
    (length (py_sorted (report_movies excluded)) + episodes_listed groups
     + length (filter (fun e => category e <> MOVIE /\ category e <> TVSHOW) excluded))%nat
  /\ (length groups <= episodes_listed groups)%nat.
Proof.
  intros groups.
  assert (Hperm : groups ≡ₚ group_shows (report_shows excluded))
    by apply sorted_by_perm.
  assert (Hep : episodes_listed groups = length (report_shows excluded)).
  { unfold episodes_listed. rewrite Hperm. apply group_shows_episodes. }
  split.
  - rewrite Hep. unfold py_sorted. rewrite sorted_by_perm.
    unfold report_movies, report_shows. rewrite !length_fmap.
    apply filter_category_length.
  - rewrite Hep, (Permutation_length Hperm), <- group_shows_episodes.
    apply group_shows_length.
Qed.

(** X25 ([write_excluded_report], lines 64 to 69).  The movie lines are the
    excluded movies' titles, each as often as it is excluded, in ascending
    order; the show lines are the groups in ascending order of their base
    title. *)
Theorem report_lines_sorted (excluded : list VODEntry) :
  let movies := py_sorted (report_movies excluded) in
  let groups := sorted_items (group_shows (report_shows excluded)) in
  movies ≡ₚ report_movies excluded /\
  Sorted str_le movies /\
  groups ≡ₚ group_shows (report_shows excluded) /\
  Sorted (fun a b => str_le a.1 b.1) groups.
Proof.
  intros movies groups. repeat split.
  - apply sorted_by_perm.
  - apply (sorted_by_Sorted id).
  - apply sorted_by_perm.
  - apply (sorted_by_Sorted fst).
Qed.

Section TextFacts.
Import PyText.

Lemma append_cons c r s : String c r +:+ s = String c (r +:+ s).
Proof. reflexivity. Qed.

Lemma lstrip_split s : exists pre, s = pre +:+ lstrip s /\ all_space pre = true.
Proof.
  induction s as [|c r IH]; [by exists "" |]. cbn [lstrip].
  destruct (is_space c) eqn:Hc; [| by exists ""].
  destruct IH as (pre & Hr & Hpre). exists (String c pre). split.
  - change (String c pre +:+ lstrip r) with (String c (pre +:+ lstrip r)). by f_equal.
  - cbn [all_space]. by rewrite Hc, Hpre.
Qed.

Lemma lstrip_pad pre s : all_space pre = true -> lstrip (pre +:+ s) = lstrip s.
Proof.
  induction pre as [|c r IH]; [done |]. cbn [all_space].
  intros [Hc Hr]%andb_true_iff.
  change (String c r +:+ s) with (String c (r +:+ s)). cbn [lstrip].
  rewrite Hc. by apply IH.
Qed.

Lemma list_of_string_app a b :
  list_ascii_of_string (a +:+ b) = (list_ascii_of_string a ++ list_ascii_of_string b)%list.
Proof.
  induction a as [|c r IH]; [done |].
  rewrite append_cons. cbn [list_ascii_of_string app]. by rewrite IH.
Qed.

Lemma string_of_list_app l1 l2 :
  string_of_list_ascii (l1 ++ l2)%list = string_of_list_ascii l1 +:+ string_of_list_ascii l2.
Proof.
  induction l1 as [|c r IH]; [done |].
  cbn [app string_of_list_ascii]. by rewrite IH, append_cons.
Qed.

Lemma reverse_string_app a b :
  reverse_string (a +:+ b) = reverse_string b +:+ reverse_string a.
Proof.
  unfold reverse_string. by rewrite list_of_string_app, rev_app_distr, string_of_list_app.
Qed.

Lemma reverse_string_involutive s : reverse_string (reverse_string s) = s.
Proof.
  unfold reverse_string.
  by rewrite list_ascii_of_string_of_list_ascii, rev_involutive, string_of_list_ascii_of_string.
Qed.

Lemma all_space_app a b : all_space (a +:+ b) = all_space a && all_space b.
Proof.
  induction a as [|c r IH]; [done |]. rewrite append_cons. cbn [all_space].
  by rewrite IH, andb_assoc.
Qed.

Lemma all_space_reverse s : all_space (reverse_string s) = all_space s.
Proof.
  induction s as [|c r IH]; [done |].
  change (String c r) with (String c "" +:+ r) at 1.
  rewrite reverse_string_app, all_space_app, IH. cbn [all_space].
  change (reverse_string (String c "")) with (String c ""). cbn [all_space].
  by rewrite andb_true_r, andb_comm.
Qed.

(** [s.strip()] takes whitespace off both ends and nothing else. *)
Lemma strip_split s :
  exists pre post,
    s = pre +:+ strip s +:+ post /\ all_space pre = true /\ all_space post = true.
Proof.
  destruct (lstrip_split s) as (pre & Hs & Hpre).
  destruct (lstrip_split (reverse_string (lstrip s))) as (q & Hq & Hqs).
  exists pre, (reverse_string q). split; [| split; [done |]].
  - rewrite Hs at 1. f_equal. unfold strip.
    rewrite <- reverse_string_app, <- Hq. by rewrite reverse_string_involutive.
  - by rewrite all_space_reverse.
Qed.

Lemma is_space_lower_char c : is_space (lower_char c) = is_space c.
Proof. by destruct c as [[] [] [] [] [] [] [] []]. Qed.

(** Whitespace around a word that neither begins nor ends with whitespace is
    all that [strip] removes. *)
Lemma strip_padded pre c w d post :
  all_space pre = true -> all_space post = true ->
  is_space c = false -> is_space d = false ->
  strip (pre +:+ String c (w +:+ String d "") +:+ post) = String c (w +:+ String d "").
Proof.
  intros Hpre Hpost Hc Hd. unfold strip.
  rewrite lstrip_pad by done. rewrite append_cons. cbn [lstrip]. rewrite Hc.
  change (String c ((w +:+ String d "") +:+ post))
    with ((String c (w +:+ String d "")) +:+ post).
  rewrite reverse_string_app, lstrip_pad by (by rewrite all_space_reverse).
  change (String c (w +:+ String d "")) with (String c w +:+ String d "").
  rewrite reverse_string_app.
  change (reverse_string (String d "")) with (String d "").
  rewrite append_cons. cbn [lstrip]. rewrite Hd.
  change (String d ("" +:+ reverse_string (String c w)))
    with (String d "" +:+ reverse_string (String c w)).
  rewrite reverse_string_app, reverse_string_involutive. reflexivity.
Qed.

Lemma lower_true_shape w :
  lower w = "true" ->
  exists c m d, w = String c (m +:+ String d "") /\ is_space c = false /\ is_space d = false.
Proof.
  destruct w as [|c1 [|c2 [|c3 [|c4 [|c5 r]]]]]; cbn [lower]; try discriminate.
  intros Heq. injection Heq as H1 H2 H3 H4.
  exists c1, (String c2 (String c3 "")), c4. split; [done |].
  split.
  - rewrite <- is_space_lower_char, H1. reflexivity.
  - rewrite <- is_space_lower_char, H4. reflexivity.
Qed.

(** The strings [_coerce_bool] reads as true: the word [true] in any mix of
    upper and lower case, with any whitespace before and after it. *)
Lemma coerce_string_true s default :
  Config._coerce_bool (Config.JStr s) default = true <->
  exists pre w post,
    s = pre +:+ w +:+ post /\ all_space pre = true /\ all_space post = true
    /\ lower w = "true".
Proof.
  cbn [Config._coerce_bool]. rewrite String.eqb_eq. split.
  - intros Hs. destruct (strip_split s) as (pre & post & Heq & Hpre & Hpost).
    by exists pre, (strip s), post.
  - intros (pre & w & post & -> & Hpre & Hpost & Hw).
    destruct (lower_true_shape w Hw) as (c & m & d & -> & Hc & Hd).
    by rewrite strip_padded.
Qed.

End TextFacts.

Section ConfigFacts.
Import Config.

(** X26 ([_coerce_bool] as [load_config] calls it, lines 31 to 36, 90 and
    94).  A setting given as a JSON string is on exactly when the string is
    the word [true], in any mix of upper and lower case, with any whitespace
    before and after it; a setting given as anything but a boolean or a
    string (a number, null, an array) is off, also for
    [write_non_us_report], whose default [True] only applies when the key is
    absent. *)
Theorem flag_settings (entry : option Json) :
  (dry_run_setting entry = true <->
     entry = Some (JBool true) \/
     exists pre w post,
       entry = Some (JStr (pre +:+ w +:+ post))
       /\ all_space pre = true /\ all_space post = true /\ PyText.lower w = "true")
  /\
  (write_non_us_report_setting entry = true <->
     entry = None \/ entry = Some (JBool true) \/
     exists pre w post,
       entry = Some (JStr (pre +:+ w +:+ post))
       /\ all_space pre = true /\ all_space post = true /\ PyText.lower w = "true").
Proof.
  unfold dry_run_setting, write_non_us_report_setting, data_get.
  destruct entry as [[| [] | | | s | |]|]; cbn [default from_option id];
    try rewrite (coerce_string_true s false); cbn [_coerce_bool];
    (split; split; intros Hx);
    try reflexivity; try (by left); try (by right; left);
    try (destruct Hx as (pre & w & post & -> & Hpre & Hpost & Hw);
         solve [ right; by exists pre, w, post
               | right; right; by exists pre, w, post ]);
    repeat match goal with
           | H : _ \/ _ |- _ => destruct H
           | H : exists _, _ |- _ => destruct H as (pre & w & post & Heq & Hpre & Hpost & Hw)
           end;
    try discriminate;
    injection Heq as ->; by exists pre, w, post.
Qed.

Lemma optimize_cases st c :
  _optimize_max_workers st c = Z.min (c * 4) 32 \/
  _optimize_max_workers st c = Z.min (c * 2) 16.
Proof. unfold _optimize_max_workers. destruct (String.eqb st "ssd"); tauto. Qed.

(** X27 ([_optimize_max_workers], lines 54 to 61).  On a machine with at
    least one CPU the worker count lies between 2 and 32, it never goes down
    when the CPU count goes up, and the count for SSD storage is twice the
    count for any other storage. *)
Theorem optimize_max_workers_bounds (st : string) (c c' : Z) (Hc : 1 <= c) (Hle : c <= c') :
  2 <= _optimize_max_workers st c <= 32 /\
  _optimize_max_workers st c <= _optimize_max_workers st c' /\
  (st <> "ssd" -> _optimize_max_workers "ssd" c = 2 * _optimize_max_workers st c).
Proof.
  unfold _optimize_max_workers. cbn [String.eqb Ascii.eqb Bool.eqb].
  destruct (String.eqb st "ssd") eqn:Hst.
  - apply String.eqb_eq in Hst. repeat split; try lia. intros Hne. contradiction.
  - repeat split; lia.
Qed.

(** X28 ([_detect_storage_type] and [load_config], lines 39 to 51 and 66 to
    75).  The anchor of a resolved POSIX path is one or two slashes, so the
    HDD branch is never taken there: with [max_workers] absent, an automatic
    configuration gets four workers per CPU, capped at 32, and eight CPUs are
    assumed when the count is unknown. *)
Theorem auto_max_workers_posix (os_cpu_count : option Z) (anchor : option string)
    (Hanchor : anchor = Some "/" \/ anchor = Some "//" \/ anchor = None) :
  _detect_storage_type anchor = "ssd" /\
  load_max_workers JNull os_cpu_count anchor =
    JInt (Z.min (4 * match os_cpu_count with
                     | Some 0 | None => 8
                     | Some n => n
                     end) 32).
Proof.
  assert (Hs : _detect_storage_type anchor = "ssd").
  { destruct Hanchor as [->|[->| ->]]; reflexivity. }
  split; [exact Hs |].
  unfold load_max_workers. cbn [is_auto]. rewrite Hs.
  unfold _optimize_max_workers. cbn [String.eqb Ascii.eqb Bool.eqb].
  destruct os_cpu_count as [[|n|n]|]; cbn [Z.eqb]; f_equal; lia.
Qed.

End ConfigFacts.

Section WebFacts.
Import WebTracker.

Lemma py_max_ge a b : (a <= TrackerViews.py_max a b)%Q.
Proof.
  unfold TrackerViews.py_max. destruct (Qle_bool b a) eqn:Hle; [apply Qle_refl |].
  apply Qlt_le_weak, Qnot_le_lt. intros Hba. apply Qle_bool_iff in Hba. congruence.
Qed.

Lemma py_min_ge a b c : (c <= a)%Q -> (c <= b)%Q -> (c <= TrackerViews.py_min a b)%Q.
Proof. intros Ha Hb. unfold TrackerViews.py_min. by destruct (Qle_bool a b). Qed.

Lemma clamp_in_range v :
  (0 <= TrackerViews.py_min 100 (TrackerViews.py_max 0 v) <= 100)%Q.
Proof.
  split; [| apply py_min_le]. apply py_min_ge; [done | apply py_max_ge].
Qed.

Lemma web_step_in_range now c w :
  progress_in_range w -> progress_in_range (web_step now c w).1.
Proof.
  intros Hr ph. destruct c as [q n|q pr n t item ips|q ok msg|msg|];
    cbn [web_step start_web_phase update_web_phase complete_web_phase set_error reset
         fst _web_phases progress]; unfold set_web_phase;
    try (destruct (decide (ph = q)) as [->|Hne]; cbn [progress]);
    try apply Hr; try done.
  destruct pr as [v|]; [apply clamp_in_range | apply Hr].
Qed.

Lemma web_run_in_range clock cs : forall i w,
  progress_in_range w -> progress_in_range (web_run clock i w cs).1.
Proof.
  induction cs as [|c cs IH]; intros i w Hr; cbn [web_run]; [exact Hr |].
  pose proof (web_step_in_range (clock i) c w Hr) as Hs.
  destruct (web_step (clock i) c w) as [w1 out1]. cbn [fst] in Hs.
  specialize (IH (S i) w1 Hs).
  destruct (web_run clock (S i) w1 cs) as [w2 out2]. exact IH.
Qed.

Lemma phase_weight_pos ph : (0 <= phase_weight ph)%Q.
Proof. by destruct ph. Qed.

Lemma add_weighted_nonneg w acc ph :
  progress_in_range w -> (0 <= acc)%Q -> (0 <= add_weighted w acc ph)%Q.
Proof.
  intros Hr Hacc. unfold add_weighted.
  destruct (Tracker.truthy (completed_at _)).
  - apply (Qplus_le_compat 0 acc 0 (phase_weight ph)); [exact Hacc | apply phase_weight_pos].
  - destruct (Tracker.truthy (started_at _)); [| exact Hacc].
    apply (Qplus_le_compat 0 acc 0 _); [exact Hacc |].
    apply Qmult_le_0_compat; [| apply phase_weight_pos].
    apply Qle_shift_div_l; [reflexivity |]. rewrite Qmult_0_l. apply Hr.
Qed.

Lemma weighted_nonneg w phs : forall acc,
  progress_in_range w -> (0 <= acc)%Q -> (0 <= fold_left (add_weighted w) phs acc)%Q.
Proof.
  induction phs as [|ph phs IH]; intros acc Hr Hacc; cbn [fold_left]; [exact Hacc |].
  apply IH; [exact Hr |]. by apply add_weighted_nonneg.
Qed.

Lemma overall_in_range w :
  progress_in_range w -> (0 <= _calculate_overall_progress w <= 100)%Q.
Proof.
  intros Hr. unfold _calculate_overall_progress. split; [| apply py_min_le].
  apply py_min_ge; [done |].
  apply Qmult_le_0_compat; [| done].
  apply Qle_shift_div_l; [reflexivity |]. rewrite Qmult_0_l.
  by apply weighted_nonneg.
Qed.

Lemma current_phase_tracked now c t :
  TrackerViews.get_current_phase t <> None \/ Tracker.current_phase t = None ->
  TrackerViews.get_current_phase (Tracker.step now c t) <> None \/
  Tracker.current_phase (Tracker.step now c t) = None.
Proof.
  unfold TrackerViews.get_current_phase.
  intros Hinv.
  destruct c as [ph n|ph n item s k|ph n item a b c|ph];
    cbn [Tracker.step].
  - left. unfold Tracker.start_phase. cbn [Tracker.current_phase Tracker.phases].
    unfold Tracker.set_phase. by rewrite decide_True.
  - unfold Tracker.update_phase. destruct (Tracker.phases t ph) eqn:Hp; [| exact Hinv].
    cbn [Tracker.current_phase Tracker.phases]. unfold Tracker.set_phase.
    destruct (Tracker.current_phase t) as [cur|]; [| by right]. left.
    destruct (decide (cur = ph)); [done |]. destruct Hinv as [H|H]; [exact H | done].
  - unfold Tracker.batch_update_phase.
    destruct (Tracker.phases t ph) eqn:Hp; [| exact Hinv].
    cbn [Tracker.current_phase Tracker.phases]. unfold Tracker.set_phase.
    destruct (Tracker.current_phase t) as [cur|]; [| by right]. left.
    destruct (decide (cur = ph)); [done |]. destruct Hinv as [H|H]; [exact H | done].
  - unfold Tracker.complete_phase.
    destruct (Tracker.phases t ph) eqn:Hp; [| exact Hinv].
    cbn [Tracker.current_phase Tracker.phases]. unfold Tracker.set_phase.
    destruct (Tracker.current_phase t) as [cur|]; [| by right]. left.
    destruct (decide (cur = ph)); [done |]. destruct Hinv as [H|H]; [exact H | done].
Qed.

Lemma current_phase_stays now c t :
  TrackerViews.get_current_phase t <> None ->
  TrackerViews.get_current_phase (Tracker.step now c t) <> None.
Proof.
  intros Hcur.
  destruct (current_phase_tracked now c t (or_introl Hcur)) as [H|H]; [exact H |].
  exfalso. unfold TrackerViews.get_current_phase in Hcur.
  destruct c as [ph n|ph n item s k|ph n item a b c|ph]; cbn [Tracker.step] in H.
  - discriminate.
  - unfold Tracker.update_phase in H. destruct (Tracker.phases t ph);
      cbn [Tracker.current_phase] in H; rewrite H in Hcur; done.
  - unfold Tracker.batch_update_phase in H. destruct (Tracker.phases t ph);
      cbn [Tracker.current_phase] in H; rewrite H in Hcur; done.
  - unfold Tracker.complete_phase in H. destruct (Tracker.phases t ph);
      cbn [Tracker.current_phase] in H; rewrite H in Hcur; done.
Qed.

Lemma run_calls_current clock cs : forall i t,
  TrackerViews.get_current_phase t <> None ->
  TrackerViews.get_current_phase (TrackerViews.run_calls clock i t cs) <> None.
Proof.
  induction cs as [|c cs IH]; intros i t Hcur; cbn [TrackerViews.run_calls]; [exact Hcur |].
  apply IH. by apply current_phase_stays.
Qed.

Lemma bridge_raises t stats w :
  TrackerViews.get_current_phase t <> None ->
  _on_core_progress_update t stats w =
    (w, [ErrorLogged (AttributeError "_update_web_phase")]).
Proof.
  intros Hcur. unfold _on_core_progress_update.
  destruct (TrackerViews.get_current_phase t) as [p|]; [| done].
  destruct (Tracker.phase p); reflexivity.
Qed.

End WebFacts.

(** X29 ([_on_core_progress_update], lines 84 to 110).  Once the core
    tracker has started a phase, whatever calls follow, the observer the web
    tracker registers with it does nothing but log an [AttributeError]: it
    calls [self._update_web_phase], which the class does not define, so the
    web tracker's phases and statistics stay as they were and nothing is
    broadcast. *)
Theorem core_bridge_changes_nothing (clock : nat -> Q) (ph : Tracker.ProgressPhase)
    (n : Z) (cs : list Tracker.Call) (stats : TrackerViews.ProcessingStats)
    (w : WebTracker.WebProgressTracker) :
  let t := TrackerViews.run_calls clock 0 Tracker.new_tracker (Tracker.Start ph n :: cs) in
  WebTracker._on_core_progress_update t stats w =
    (w, [WebTracker.ErrorLogged (WebTracker.AttributeError "_update_web_phase")]).
Proof.
  intros t. apply bridge_raises. unfold t. cbn [TrackerViews.run_calls].
  apply run_calls_current.
  unfold TrackerViews.get_current_phase, Tracker.step, Tracker.start_phase.
  cbn [Tracker.current_phase Tracker.phases]. unfold Tracker.set_phase.
  by rewrite decide_True.
Qed.

(** X30 ([start_web_phase], [update_web_phase], [complete_web_phase],
    [set_error], [reset], [_calculate_overall_progress]).  After any
    sequence of calls on a new web tracker, whatever percentages the callers
    pass, every phase's percentage and the overall percentage lie between 0
    and 100. *)
Theorem web_progress_in_range (clock : nat -> Q) (now : Q) (cs : list WebTracker.WebCall) :
  let w := (WebTracker.web_run clock 0 (WebTracker.new_web_tracker now) cs).1 in
  (forall ph, (0 <= WebTracker.progress (WebTracker._web_phases w ph) <= 100)%Q) /\
  (0 <= WebTracker._calculate_overall_progress w <= 100)%Q.
Proof.
  intros w.
  assert (Hr : WebTracker.progress_in_range w).
  { apply web_run_in_range. intros ph. done. }
  split; [exact Hr | by apply overall_in_range].
Qed.

#[local] Existing Instance sample_collaborators.

Example run_raises_name_error :
  planned_writes false ∅ [heat_new] ∅
  = [mkOp "/out/Movies/Heat.strm" "http://new/heat" "movie:Heat" heat_new]
  /\ outcome (run_pipeline false no_shutdown ∅ [heat_new] ∅)
     = Raised (NameError "batch_write_strm_files").
Proof. split; vm_compute; reflexivity. Qed.

Example run_completes_without_writes :
  planned_writes false ∅ [foreign_film] ∅ = []
  /\ outcome (run_pipeline false no_shutdown ∅ [foreign_film] ∅)
     = Completed {[ "movie:Foreign Film" := mkRecord "http://cdn/foreign" None (Some 0) ]}.
Proof. split; vm_compute; reflexivity. Qed.

Lemma started_tracker_phase :
  Tracker.phases started_tracker Tracker.CREATING_STRM = Some started_progress.
Proof. reflexivity. Qed.

Lemma finished_tracker_phase :
  Tracker.phases finished_tracker Tracker.CREATING_STRM = Some finished_progress.
Proof. vm_compute. reflexivity. Qed.

(** C2 at a failing input: the playlist gives "Heat" a new URL while the
    prior cache holds the old one.  The first pass counts the entry as skipped
    because its key is in the cache, no write is queued, and the run stores the
    old record again; [process_entry] on the same entry writes the pointer
    file and records the new URL. *)
Theorem changed_url_is_skipped :
  c_url heat_old ≠ url heat_new
  /\ first_pass_decision false ∅ cache_heat heat_new = Skipped
  /\ planned_writes false ∅ [heat_new] cache_heat = []
  /\ outcome (run_pipeline false no_shutdown ∅ [heat_new] cache_heat) = Completed cache_heat
  /\ process_entry false ∅ cache_heat heat_new (entry_state0 cache_heat)
     = mkEntryState 1 0
         {[ "movie:Heat" :=
              mkRecord "http://new/heat" (Some "/out/Movies/Heat.strm") (Some 1) ]}
         [("/out/Movies/Heat.strm", "http://new/heat")].
Proof.
  split; [discriminate |].
  repeat split; vm_compute; reflexivity.
Qed.

(** C3, refuted as stated: the key "movie:Gone" is in the pre-run cache and
    no entry of the (empty) playlist has it, yet the completed run stores it
    again. *)
Lemma unlisted_key_is_not_retired :
  is_Some (cache_gone !! "movie:Gone")
  /\ outcome (run_pipeline false no_shutdown ∅ [] cache_gone) = Completed cache_gone
  /\ cache_gone !! "movie:Gone" ≠ None.
Proof.
  split; [by eexists |]. split; [vm_compute; reflexivity |]. discriminate.
Qed.

Lemma stored_cache_keeps_prior_records_witness :
  Completed
    (<[ "movie:Foreign Film" := mkRecord "http://cdn/foreign" None (Some 0) ]> cache_gone)
  = outcome (run_pipeline false no_shutdown ∅ [foreign_film] cache_gone)
  /\ is_Some
       ((<[ "movie:Foreign Film" := mkRecord "http://cdn/foreign" None (Some 0) ]> cache_gone)
          !! "movie:Gone").
Proof.
  assert (outcome (run_pipeline false no_shutdown ∅ [foreign_film] cache_gone)
          = Completed
              (<[ "movie:Foreign Film" := mkRecord "http://cdn/foreign" None (Some 0) ]>
                 cache_gone)) as Hrun by (vm_compute; reflexivity).
  split; [by rewrite Hrun |].
  destruct (stored_cache_keeps_prior_records false no_shutdown ∅ [foreign_film] cache_gone
              _ Hrun) as (_ & Hkeep & _).
  apply Hkeep. by eexists.
Defined.

(** C4 at a failing input: "Heat" is in the existing-media index.  No write
    is queued for it, but the run stores no record for its key when the prior
    cache has none, and stores the prior record, old URL and path included,
    when it has one; [process_entry] on the same entry records
    [{url, None, 1}]. *)
Theorem existing_media_record_missing :
  entry_key heat_new ∈ dom local_heat
  /\ planned_writes false local_heat [heat_new] ∅ = []
  /\ outcome (run_pipeline false no_shutdown local_heat [heat_new] ∅) = Completed ∅
  /\ outcome (run_pipeline false no_shutdown local_heat [heat_new] cache_heat)
     = Completed cache_heat
  /\ cache_heat !! entry_key heat_new ≠ Some (mkRecord (url heat_new) None (Some 1))
  /\ pe_cache (process_entry false (dom local_heat) cache_heat heat_new (entry_state0 cache_heat))
       !! entry_key heat_new
     = Some (mkRecord (url heat_new) None (Some 1)).
Proof.
  split; [apply elem_of_dom; vm_compute; by eexists |].
  split; [vm_compute; reflexivity |].
  split; [vm_compute; reflexivity |].
  split; [vm_compute; reflexivity |].
  split; [vm_compute; discriminate |].
  vm_compute; reflexivity.
Qed.

(** C5 at a failing input: the playlist holds one new movie and the prior
    cache is empty.  The first run queues the write and raises [NameError] at
    the unbound batch writer, before the cache is stored: no pointer file is
    written and the database keeps the empty cache.  The second run, on the
    same inputs and the cache the first run left, queues the same write again
    and raises again. *)
Theorem rerun_queues_the_write_again :
  planned_writes false ∅ [heat_new] ∅
  = [mkOp "/out/Movies/Heat.strm" "http://new/heat" "movie:Heat" heat_new]
  /\ outcome (run_pipeline false no_shutdown ∅ [heat_new] ∅)
     = Raised (NameError "batch_write_strm_files")
  /\ writer_calls (run_pipeline false no_shutdown ∅ [heat_new] ∅) = []
  /\ cache_after ∅ (run_pipeline false no_shutdown ∅ [heat_new] ∅) = ∅
  /\ planned_writes false ∅ [heat_new]
       (cache_after ∅ (run_pipeline false no_shutdown ∅ [heat_new] ∅))
     = [mkOp "/out/Movies/Heat.strm" "http://new/heat" "movie:Heat" heat_new]
  /\ outcome (run_pipeline false no_shutdown ∅ [heat_new]
                (cache_after ∅ (run_pipeline false no_shutdown ∅ [heat_new] ∅)))
     = Raised (NameError "batch_write_strm_files").
Proof. repeat split; vm_compute; reflexivity. Qed.

(** A first run that queues nothing, and its re-run. *)
Lemma rerun_is_idempotent_witness :
  planned_writes false local_heat [heat_new; foreign_film]
    (<[ "movie:Foreign Film" := mkRecord "http://cdn/foreign" None (Some 0) ]> cache_gone)
  = []
  /\ outcome (run_pipeline false no_shutdown local_heat [heat_new; foreign_film]
                (<[ "movie:Foreign Film" := mkRecord "http://cdn/foreign" None (Some 0) ]>
                   cache_gone))
     = Completed
         (<[ "movie:Foreign Film" := mkRecord "http://cdn/foreign" None (Some 0) ]>
            cache_gone).
Proof.
  apply (rerun_is_idempotent false no_shutdown local_heat [heat_new; foreign_film] cache_gone).
  vm_compute. reflexivity.
Defined.

(** C7, refuted as stated: a per-item update called with both [success] and
    [skipped] true adds one to the success counter and one to the skipped
    counter. *)
Lemma update_phase_adds_to_two_counters :
  exists p',
    Tracker.phases
      (Tracker.update_phase (11 # 1)%Q Tracker.CREATING_STRM 1 "item" true true
         started_tracker) Tracker.CREATING_STRM = Some p'
    /\ Tracker.success_count p' = Tracker.success_count started_progress + 1
    /\ Tracker.skipped_count p' = Tracker.skipped_count started_progress + 1
    /\ ~ Tracker.adds_exactly_one started_progress p'.
Proof.
  eexists. split; [reflexivity |]. split; [reflexivity |]. split; [reflexivity |].
  unfold Tracker.adds_exactly_one. cbn. lia.
Qed.

Lemma update_phase_counts_witness :
  exists p',
    Tracker.phases
      (Tracker.update_phase (11 # 1)%Q Tracker.CREATING_STRM 1 "item" false true
         started_tracker) Tracker.CREATING_STRM = Some p'
    /\ Tracker.processed p' = 1
    /\ Tracker.adds_exactly_one started_progress p'
    /\ Tracker.items_per_second p' = (inject_Z 1 / ((11 # 1) - (10 # 1)))%Q.
Proof.
  destruct (update_phase_counts (11 # 1)%Q started_tracker Tracker.CREATING_STRM 1 "item"
              false true started_progress eq_refl)
    as (p' & Hp & Hn & Hone & _ & Hrate & _).
  exists p'. split; [exact Hp |]. split; [exact Hn |].
  split; [apply Hone; reflexivity |].
  apply (Hrate (10 # 1)%Q); [reflexivity | discriminate | reflexivity].
Defined.

(** C8, refuted as stated: a phase that was updated and completed, then
    started again, keeps its success count of one and its completion
    timestamp. *)
Lemma restart_keeps_counts :
  exists p',
    Tracker.phases
      (Tracker.start_phase (13 # 1)%Q Tracker.CREATING_STRM 5 finished_tracker)
      Tracker.CREATING_STRM = Some p'
    /\ Tracker.success_count p' = 1
    /\ Tracker.completed_at p' = Some (12 # 1)%Q
    /\ ~ Tracker.counters_reset p'.
Proof.
  eexists. split; [vm_compute; reflexivity |]. split; [reflexivity |].
  split; [reflexivity |]. unfold Tracker.counters_reset. cbn. intros (_ & ? & _). lia.
Qed.

Lemma start_phase_again_witness :
  exists p',
    Tracker.phases
      (Tracker.start_phase (13 # 1)%Q Tracker.CREATING_STRM 7 finished_tracker)
      Tracker.CREATING_STRM = Some p'
    /\ Tracker.processed p' = 0 /\ Tracker.total p' = 7
    /\ Tracker.current_item p' = "" /\ Tracker.started_at p' = Some (13 # 1)%Q
    /\ Tracker.success_count p' = Tracker.success_count finished_progress
    /\ Tracker.failure_count p' = Tracker.failure_count finished_progress
    /\ Tracker.skipped_count p' = Tracker.skipped_count finished_progress
    /\ Tracker.completed_at p' = Tracker.completed_at finished_progress
    /\ Tracker.items_per_second p' = Tracker.items_per_second finished_progress
    /\ forall q, q ≠ Tracker.CREATING_STRM ->
         Tracker.phases
           (Tracker.start_phase (13 # 1)%Q Tracker.CREATING_STRM 7 finished_tracker) q
         = Tracker.phases finished_tracker q.
Proof.
  apply (start_phase_again (13 # 1)%Q finished_tracker Tracker.CREATING_STRM 7
           finished_progress).
  vm_compute. reflexivity.
Defined.

Lemma movie_and_documentary_share_key_witness :
  entry_key (movie "Planet" "http://cdn/a") = "movie:Planet"
  /\ entry_key (documentary "Planet" "http://cdn/b") = "movie:Planet"
  /\ dedup_entries [movie "Planet" "http://cdn/a"; documentary "Planet" "http://cdn/b"]
     = [documentary "Planet" "http://cdn/b"].
Proof.
  destruct (movie_and_documentary_share_key
              (movie "Planet" "http://cdn/a") (documentary "Planet" "http://cdn/b")
              eq_refl eq_refl eq_refl) as (Hm & Hd & Hdedup & _).
  split; [exact Hm |]. split; [exact Hd |]. exact Hdedup.
Defined.

(** ** The further properties at concrete inputs *)

Lemma process_entry_existing_media_witness :
  process_entry false (dom local_heat) ∅ heat_new (entry_state0 ∅)
  = mkEntryState 0 (0 + 1)
      (<[entry_key heat_new := mkRecord (url heat_new) None (Some 1)]> ∅) [].
Proof.
  apply (process_entry_existing_media false (dom local_heat) ∅ heat_new (entry_state0 ∅)).
  - vm_compute. reflexivity.
  - left. reflexivity.
  - vm_compute. discriminate.
  - apply elem_of_dom. vm_compute. by eexists.
Defined.

Lemma process_entry_forced_witness :
  process_entry true ∅ cache_same heat_new (entry_state0 cache_same)
  = mkEntryState (0 + 1) 0
      (<[entry_key heat_new :=
           mkRecord (url heat_new) (Some (path_resolve "/out/Movies/Heat.strm")) (Some 1)]>
         cache_same)
      ([] ++ [("/out/Movies/Heat.strm", url heat_new)]).
Proof.
  apply (process_entry_forced ∅ cache_same heat_new (entry_state0 cache_same)
           "/out/Movies/Heat.strm").
  - vm_compute. reflexivity.
  - vm_compute. reflexivity.
  - vm_compute. discriminate.
  - apply not_elem_of_empty.
  - reflexivity.
Defined.

Lemma process_entry_unchanged_iff_witness :
  exists cached,
    cache_same !! entry_key heat_new = Some cached
    /\ process_entry false ∅ cache_same heat_new (entry_state0 cache_same)
       = mkEntryState 0 (0 + 1) (<[entry_key heat_new := cached]> cache_same) [].
Proof.
  destruct (process_entry_unchanged_iff ∅ cache_same heat_new (entry_state0 cache_same)
              "/out/Movies/Heat.strm") as [Hsame _].
  - vm_compute. reflexivity.
  - vm_compute. reflexivity.
  - vm_compute. discriminate.
  - apply not_elem_of_empty.
  - apply Hsame. exists heat_same, "/out/Movies/Heat.strm".
    split; [vm_compute; reflexivity |]. split; [reflexivity |].
    split; [reflexivity |]. split; [discriminate | reflexivity].
Defined.

Lemma process_entry_twice_witness :
  process_entry false ∅
    (pe_cache (process_entry false ∅ ∅ heat_new (entry_state0 ∅))) heat_new
    (process_entry false ∅ ∅ heat_new (entry_state0 ∅))
  = mkEntryState (pe_written (process_entry false ∅ ∅ heat_new (entry_state0 ∅)))
      (pe_skipped (process_entry false ∅ ∅ heat_new (entry_state0 ∅)) + 1)
      (pe_cache (process_entry false ∅ ∅ heat_new (entry_state0 ∅)))
      (pe_files (process_entry false ∅ ∅ heat_new (entry_state0 ∅))).
Proof.
  apply (process_entry_twice false ∅ ∅ heat_new (entry_state0 ∅) "/out/Movies/Heat.strm").
  - vm_compute. reflexivity.
  - vm_compute. reflexivity.
  - vm_compute. discriminate.
  - apply not_elem_of_empty.
  - reflexivity.
  - discriminate.
  - reflexivity.
Defined.

Lemma cached_verdicts_are_reused_witness :
  heat_new ∈ allowed_entries ∅ cache_heat [heat_new; foreign_film].
Proof.
  destruct (cached_verdicts_are_reused ∅ cache_heat [heat_new; foreign_film] heat_new)
    as (_ & Hcached & _).
  - apply list_elem_of_here.
  - destruct (Hcached heat_old 1) as [Hallowed _].
    + apply not_elem_of_empty.
    + vm_compute. reflexivity.
    + reflexivity.
    + apply Hallowed. reflexivity.
Defined.

Lemma elapsed_time_frozen_witness :
  exists p',
    Tracker.phases (Tracker.complete_phase (12 # 1)%Q Tracker.CREATING_STRM started_tracker)
      Tracker.CREATING_STRM = Some p'
    /\ TrackerViews.is_complete p' = true
    /\ forall now, TrackerViews.elapsed_time now p' = ((12 # 1) - (10 # 1))%Q.
Proof.
  apply (elapsed_time_frozen (12 # 1)%Q Tracker.CREATING_STRM started_tracker
           started_progress (10 # 1)%Q).
  - reflexivity.
  - reflexivity.
  - discriminate.
Defined.

Lemma completed_run_overall_progress_witness :
  length (TrackerViews.tracked
            (TrackerViews.run_calls tick_clock 0 Tracker.new_tracker
               (tracker_calls (run_pipeline false no_shutdown ∅ [foreign_film] ∅)))) = 5%nat
  /\ (TrackerViews.get_overall_progress
        (TrackerViews.run_calls tick_clock 0 Tracker.new_tracker
           (tracker_calls (run_pipeline false no_shutdown ∅ [foreign_film] ∅))) == 100)%Q.
Proof.
  apply (completed_run_overall_progress tick_clock false no_shutdown ∅ [foreign_film] ∅
           {[ "movie:Foreign Film" := mkRecord "http://cdn/foreign" None (Some 0) ]}).
  vm_compute. reflexivity.
Defined.

Lemma item_updates_count_witness :
  exists p',
    Tracker.phases
      (TrackerViews.run_calls tick_clock 0 started_tracker
         (TrackerViews.update_call Tracker.CREATING_STRM <$> two_updates))
      Tracker.CREATING_STRM = Some p'
    /\ Tracker.success_count p' = 1
    /\ Tracker.failure_count p' = 0
    /\ Tracker.skipped_count p' = 1
    /\ Tracker.processed p' = 2.
Proof.
  destruct (item_updates_count tick_clock 0 Tracker.CREATING_STRM two_updates
              started_tracker started_progress)
    as (p' & Hp & Hs & Hf & Hk & Hn & _).
  - reflexivity.
  - exists p'. split; [exact Hp |]. split; [exact Hs |]. split; [exact Hf |].
    split; [exact Hk | exact Hn].
Defined.

Lemma batch_update_stands_for_items_witness :
  exists p1 p2,
    Tracker.phases
      (TrackerViews.run_calls tick_clock 0 started_tracker
         (TrackerViews.update_call Tracker.CREATING_STRM <$> two_updates))
      Tracker.CREATING_STRM = Some p1
    /\ Tracker.phases
         (Tracker.batch_update_phase (13 # 1)%Q Tracker.CREATING_STRM 2 "Batch 1/1" 1 0 1
            started_tracker) Tracker.CREATING_STRM = Some p2
    /\ Tracker.processed p1 = Tracker.processed p2
    /\ Tracker.success_count p1 = Tracker.success_count p2
    /\ Tracker.failure_count p1 = Tracker.failure_count p2
    /\ Tracker.skipped_count p1 = Tracker.skipped_count p2
    /\ Tracker.total p1 = Tracker.total p2.
Proof.
  apply (batch_update_stands_for_items tick_clock 0 (13 # 1)%Q Tracker.CREATING_STRM
           two_updates "Batch 1/1" started_tracker started_progress).
  - reflexivity.
  - discriminate.
Defined.

Lemma calls_on_untracked_phase_are_dropped_witness :
  TrackerViews.run_calls tick_clock 0 started_tracker
    [Tracker.Update Tracker.CLEANUP 1 "x" true false; Tracker.Complete Tracker.PARSING_M3U]
  = started_tracker.
Proof.
  apply (calls_on_untracked_phase_are_dropped tick_clock 0 started_tracker).
  repeat constructor; intros; discriminate.
Defined.

Lemma update_stats_accumulates_witness :
  (TrackerViews.update_stats no_inherited [("movies_found", 2); ("tv_episodes_found", 3)]
     TrackerViews.new_stats).1 = None
  /\ TrackerViews.total_found
       (TrackerViews.update_stats no_inherited [("movies_found", 2); ("tv_episodes_found", 3)]
          TrackerViews.new_stats).2
     = 5.
Proof.
  destruct (update_stats_accumulates no_inherited [("movies_found", 2); ("tv_episodes_found", 3)]
              TrackerViews.new_stats) as (Hnone & _ & _ & Htotal).
  - repeat constructor; by eexists.
  - split; [exact Hnone | exact Htotal].
Defined.

Lemma update_stats_other_names_witness :
  TrackerViews.update_stats no_inherited
    ([("movies_found", 2)] ++ ("total_found", 1) :: [("strm_created", 3)])
    TrackerViews.new_stats
  = (Some (TrackerViews.AttributeError "total_found"),
     (TrackerViews.update_stats no_inherited [("movies_found", 2)] TrackerViews.new_stats).2).
Proof.
  destruct (update_stats_other_names no_inherited [("movies_found", 2)] "total_found" 1
              [("strm_created", 3)] TrackerViews.new_stats) as (_ & Hprop & _).
  - repeat constructor; by eexists.
  - reflexivity.
  - apply Hprop. reflexivity.
Defined.

Lemma run_stats_balance_witness :
  TrackerViews.movies_allowed
    (run_stats no_inherited false no_shutdown local_heat [heat_new; foreign_film] ∅)
  + TrackerViews.movies_excluded
      (run_stats no_inherited false no_shutdown local_heat [heat_new; foreign_film] ∅)
  = count_category MOVIE (dedup_entries [heat_new; foreign_film])
  /\ TrackerViews.movies_found
       (run_stats no_inherited false no_shutdown local_heat [heat_new; foreign_film] ∅)
     = count_kind "MOVIE" local_heat + count_category MOVIE [heat_new; foreign_film].
Proof.
  destruct (run_stats_balance no_inherited false no_shutdown local_heat
              [heat_new; foreign_film] ∅ eq_refl eq_refl eq_refl)
    as (Hmovies & _ & _ & Hfound & _).
  split; [exact Hmovies | exact Hfound].
Defined.

Lemma optimize_max_workers_bounds_witness :
  2 <= Config._optimize_max_workers "hdd" 4 <= 32 /\
  Config._optimize_max_workers "hdd" 4 <= Config._optimize_max_workers "hdd" 8 /\
  ("hdd" <> "ssd" ->
   Config._optimize_max_workers "ssd" 4 = 2 * Config._optimize_max_workers "hdd" 4).
Proof.
  apply (optimize_max_workers_bounds "hdd" 4 8); lia.
Defined.

Lemma auto_max_workers_posix_witness :
  Config._detect_storage_type (Some "/") = "ssd" /\
  Config.load_max_workers Config.JNull (Some 4) (Some "/") = Config.JInt (Z.min (4 * 4) 32).
Proof.
  apply (auto_max_workers_posix (Some 4) (Some "/")). left. reflexivity.
Defined.
